(** * Sensitivity toolbox ([idaes/apps/uncertainty_propagation/sens.py])

    A shallow embedding of [SensitivityInterface.setup_sensitivity],
    [SensitivityInterface.perturb_parameters] and the driver
    [sensitivity_calculation], together with the properties the
    specification states about them.

    Python objects are modelled by their identity: a component is a
    position in the component heap of the model, a component data object
    is a pair (component, index), and mutation is explicit state passing
    in a state-and-exception monad, so that the state reached when an
    exception is raised stays observable.  Numeric values are integers
    (exact arithmetic). *)

From stdpp Require Import gmap strings list fin_maps sorting.
From Stdlib Require Import ZArith Lia.

Local Open Scope string_scope.
Local Open Scope list_scope.
Local Open Scope Z_scope.

(** ** Exceptions and the state-and-exception monad *)

Inductive exn :=
| ValueError | RuntimeError | AttributeError | TypeError | KeyError
| IndexError | ApplicationError
| FileExistsError | FileNotFoundError | NotADirectoryError | ShutilError.

(** [except OSError] catches the built-in subclasses and [shutil.Error]. *)
Definition is_OSError (e : exn) : bool :=
  match e with
  | FileExistsError | FileNotFoundError | NotADirectoryError | ShutilError =>
      true
  | _ => false
  end.

Inductive outcome (A : Type) :=
| Returned (a : A)
| Raised (e : exn).
Arguments Returned {A} a.
Arguments Raised {A} e.

Definition is_raised {A} (o : outcome A) : bool :=
  match o with Raised _ => true | Returned _ => false end.

Definition M (S A : Type) : Type := S → S * outcome A.

Definition ret {S A} (a : A) : M S A := fun s => (s, Returned a).
Definition raise {S A} (e : exn) : M S A := fun s => (s, Raised e).
Definition bind {S A B} (c : M S A) (k : A → M S B) : M S B :=
  fun s => match c s with
           | (s', Returned a) => k a s'
           | (s', Raised e) => (s', Raised e)
           end.
(** [try: c except <caught>: handler] *)
Definition try_except {S A} (c : M S A) (caught : exn → bool)
    (handler : M S A) : M S A :=
  fun s => match c s with
           | (s', Raised e) => if caught e then handler s' else (s', Raised e)
           | r => r
           end.
Definition get {S} : M S S := fun s => (s, Returned s).
Definition modify {S} (f : S → S) : M S unit := fun s => (f s, Returned tt).

Declare Scope py_scope.
Delimit Scope py_scope with py.
Notation "x <- c ;; k" := (bind c (fun x => k))
  (at level 100, c at next level, right associativity) : py_scope.
Notation "c ;; k" := (bind c (fun _ => k))
  (at level 100, right associativity) : py_scope.
Local Open Scope py_scope.

(** [for x in l: body x] *)
Fixpoint forM_ {S A} (body : A → M S unit) (l : list A) : M S unit :=
  match l with
  | [] => ret tt
  | x :: l' => body x ;; forM_ body l'
  end.

(** [enumerate(l)], counting from [start] *)
Fixpoint enumerate_from {A} (start : nat) (l : list A) : list (nat * A) :=
  match l with
  | [] => []
  | x :: l' => (start, x) :: enumerate_from (S start) l'
  end.
Definition enumerate {A} (l : list A) : list (nat * A) := enumerate_from 0 l.

(** ** Components, component data and expressions *)

(** A container index; [_NotAnIndex] is the sentinel of scalar components. *)
Definition index : Type := option Z.
Definition _NotAnIndex : index := None.

(** A component data object: the component's heap position and an index. *)
Definition ref : Type := nat * index.

Inductive Ctype := Param | Var | OtherComponent.

Record cell := { val : Z; fixed : bool }.

Inductive Store :=
| Scalar (c : cell)
| Indexed (d : gmap Z cell).

Record Component := {
  ctype : Ctype;
  local_name : string;
  mutable : bool;
  store : Store;
}.

Definition is_indexed (comp : Component) : bool :=
  match store comp with Indexed _ => true | Scalar _ => false end.

Definition index_set (comp : Component) : list Z :=
  match store comp with
  | Indexed d => elements (dom d)
  | Scalar _ => []
  end.

(** [sorted_robust] on integer indices. *)
Definition sorted_robust (l : list Z) : list Z := merge_sort Z.le l.

Definition store_cell (s : Store) (i : index) : option cell :=
  match s, i with
  | Scalar c, None => Some c
  | Indexed d, Some k => d !! k
  | _, _ => None
  end.

Definition store_alter (f : cell → cell) (s : Store) (i : index) : Store :=
  match s, i with
  | Scalar c, None => Scalar (f c)
  | Indexed d, Some k => Indexed (alter f k d)
  | _, _ => s
  end.

Definition cell_at (heap : list Component) (r : ref) : option cell :=
  comp ← heap !! r.1; store_cell (store comp) r.2.

(** [value(data)] and [data.fixed] *)
Definition value (heap : list Component) (r : ref) : option Z :=
  val <$> cell_at heap r.
Definition is_fixed (heap : list Component) (r : ref) : option bool :=
  fixed <$> cell_at heap r.

Definition set_fixed (b : bool) (r : ref) (heap : list Component)
  : list Component :=
  alter (fun comp =>
           {| ctype := ctype comp; local_name := local_name comp;
              mutable := mutable comp;
              store := store_alter (fun c => {| val := val c; fixed := b |})
                                   (store comp) r.2 |}) r.1 heap.

(** [_generate_component_items(comp)]: the (index, data) pairs of one
    component, indexed components in sorted index order. *)
Definition _generate_component_items (cid : nat) (comp : Component)
  : list (index * ref) :=
  if is_indexed comp
  then (fun k => (Some k, (cid, Some k))) <$> sorted_robust (index_set comp)
  else [(_NotAnIndex, (cid, _NotAnIndex))].

Inductive expr :=
| Num (z : Z)
| Leaf (r : ref)
| Sum (a b : expr)
| Diff (a b : expr)
| Prod (a b : expr)
| Neg (a : expr)
| NamedExpr (name : string) (e : expr).

Inductive relexpr :=
| EqualityExpression (a b : expr)            (* a == b *)
| InequalityExpression (a b : expr)          (* a <= b *)
| RangedExpression (lo body up : expr).      (* lo <= body <= up *)

(** Python's comparison operators on expressions. *)
Definition py_le (a b : expr) : relexpr := InequalityExpression a b.
Definition py_ge (a b : expr) : relexpr := InequalityExpression b a.
Definition py_eq (a b : expr) : relexpr := EqualityExpression a b.

Fixpoint eval (env : ref → Z) (e : expr) : Z :=
  match e with
  | Num z => z
  | Leaf r => env r
  | Sum a b => eval env a + eval env b
  | Diff a b => eval env a - eval env b
  | Prod a b => eval env a * eval env b
  | Neg a => - eval env a
  | NamedExpr _ e => eval env e
  end.

Definition satisfies (env : ref → Z) (c : relexpr) : Prop :=
  match c with
  | EqualityExpression a b => eval env a = eval env b
  | InequalityExpression a b => eval env a ≤ eval env b
  | RangedExpression lo body up =>
      eval env lo ≤ eval env body ∧ eval env body ≤ eval env up
  end.

(** A constraint in the four shapes the rewriter distinguishes. *)
Inductive ConstraintForm :=
| EqualityCon (body rhs : expr)             (* body == rhs *)
| LowerCon (lo body : expr)                 (* lo <= body, no upper bound *)
| UpperCon (body up : expr)                 (* body <= up, no lower bound *)
| RangedCon (lo body up : expr).            (* lo <= body <= up *)

Record ConstraintData := { con_active : bool; con_form : ConstraintForm }.

Definition equality (c : ConstraintData) : bool :=
  match con_form c with EqualityCon _ _ => true | _ => false end.
Definition lower (c : ConstraintData) : option expr :=
  match con_form c with
  | EqualityCon _ rhs => Some rhs
  | LowerCon lo _ => Some lo
  | UpperCon _ _ => None
  | RangedCon lo _ _ => Some lo
  end.
Definition upper (c : ConstraintData) : option expr :=
  match con_form c with
  | EqualityCon _ rhs => Some rhs
  | LowerCon _ _ => None
  | UpperCon _ up => Some up
  | RangedCon _ _ up => Some up
  end.
Definition body (c : ConstraintData) : expr :=
  match con_form c with
  | EqualityCon b _ | LowerCon _ b | UpperCon b _ | RangedCon _ b _ => b
  end.
Definition con_expr (c : ConstraintData) : relexpr :=
  match con_form c with
  | EqualityCon b rhs => EqualityExpression b rhs
  | LowerCon lo b => InequalityExpression lo b
  | UpperCon b up => InequalityExpression b up
  | RangedCon lo b up => RangedExpression lo b up
  end.

Record ObjectiveData := {
  obj_active : bool;
  obj_name : string;
  obj_expr : expr;
}.

(** ** Annotation slots (suffixes) *)

(** Keys of a suffix: a variable or parameter data object, or the
    [position]-th entry (1-based) of the pinning list of the block with the
    given serial number. *)
Inductive key :=
| DataKey (r : ref)
| PinKey (serial position : nat).

#[global] Instance key_eq_dec : EqDecision key.
Proof. solve_decision. Defined.

#[global] Instance key_countable : Countable key.
Proof.
  refine (inj_countable'
            (fun k => match k with
                      | DataKey r => inl r
                      | PinKey s p => inr (s, p)
                      end)
            (fun x => match x with
                      | inl r => DataKey r
                      | inr (s, p) => PinKey s p
                      end) _).
  intros []; reflexivity.
Defined.

Inductive Direction := EXPORT | IMPORT | IMPORT_EXPORT.

Record Suffix := { direction : Direction; entries : gmap key Z }.

Definition _SIPOPT_SUFFIXES : list (string * Direction) :=
  [ ("sens_state_0", EXPORT);
    ("sens_state_1", EXPORT);
    ("sens_state_value_1", EXPORT);
    ("sens_init_constr", EXPORT);
    ("sens_sol_state_1", IMPORT);
    ("sens_sol_state_1_z_L", IMPORT);
    ("sens_sol_state_1_z_U", IMPORT) ].

Definition _K_AUG_SUFFIXES : list (string * Direction) :=
  [ ("ipopt_zL_out", IMPORT);
    ("ipopt_zU_out", IMPORT);
    ("ipopt_zL_in", EXPORT);
    ("ipopt_zU_in", EXPORT);
    ("dual", IMPORT_EXPORT);
    ("dcdp", EXPORT);
    ("DeltaP", EXPORT) ].

(** ** The sensitivity block and the model *)

Inductive member :=
| VarMember (cid : nat)
| ParamMember (cid : nat)
| ObjectiveMember (e : expr).

(** One entry of [_sens_data_list]: (vardata, paramdata, list_idx, comp_idx). *)
Definition sens_data : Type := ref * ref * nat * index.

(** The sensitivity block: the plain attributes the interface sets on it,
    the components added to it under a name ([members]) and its two
    constraint lists, absent until assigned.  [serial] tells the block
    objects created on one model apart, so that the pinning constraints of
    a rebuilt block are new suffix keys. *)
Record Block := {
  serial : nat;
  _has_replaced_expressions : bool;
  _sens_data_list : list sens_data;
  _paramList : list (option nat);
  members : list (string * member);
  constList : option (list relexpr);
  paramConst : option (list relexpr);
}.

(** The working model: its [Param] and [Var] components (a component is
    identified by its position in [heap], which only ever grows), its
    objectives and constraints, its suffixes by name, and the component
    stored under [get_default_block_name], if any. *)
Record Model := {
  heap : list Component;
  objectives : list ObjectiveData;
  constraints : list ConstraintData;
  suffixes : gmap string Suffix;
  sens_block : option Block;
  blocks_made : nat;
}.

Definition with_heap (f : list Component → list Component) (m : Model) :=
  {| heap := f (heap m); objectives := objectives m;
     constraints := constraints m; suffixes := suffixes m;
     sens_block := sens_block m; blocks_made := blocks_made m |}.
Definition with_objectives (f : list ObjectiveData → list ObjectiveData)
    (m : Model) :=
  {| heap := heap m; objectives := f (objectives m);
     constraints := constraints m; suffixes := suffixes m;
     sens_block := sens_block m; blocks_made := blocks_made m |}.
Definition with_constraints (f : list ConstraintData → list ConstraintData)
    (m : Model) :=
  {| heap := heap m; objectives := objectives m;
     constraints := f (constraints m); suffixes := suffixes m;
     sens_block := sens_block m; blocks_made := blocks_made m |}.
Definition with_suffixes (f : gmap string Suffix → gmap string Suffix)
    (m : Model) :=
  {| heap := heap m; objectives := objectives m;
     constraints := constraints m; suffixes := f (suffixes m);
     sens_block := sens_block m; blocks_made := blocks_made m |}.
Definition with_sens_block (f : option Block → option Block) (m : Model) :=
  {| heap := heap m; objectives := objectives m;
     constraints := constraints m; suffixes := suffixes m;
     sens_block := f (sens_block m); blocks_made := blocks_made m |}.

Definition with_flag (b : bool) (blk : Block) :=
  {| serial := serial blk; _has_replaced_expressions := b;
     _sens_data_list := _sens_data_list blk; _paramList := _paramList blk;
     members := members blk; constList := constList blk;
     paramConst := paramConst blk |}.
Definition with_sens_data (f : list sens_data → list sens_data)
    (blk : Block) :=
  {| serial := serial blk;
     _has_replaced_expressions := _has_replaced_expressions blk;
     _sens_data_list := f (_sens_data_list blk);
     _paramList := _paramList blk;
     members := members blk; constList := constList blk;
     paramConst := paramConst blk |}.
Definition with_members (f : list (string * member) → list (string * member))
    (blk : Block) :=
  {| serial := serial blk;
     _has_replaced_expressions := _has_replaced_expressions blk;
     _sens_data_list := _sens_data_list blk; _paramList := _paramList blk;
     members := f (members blk); constList := constList blk;
     paramConst := paramConst blk |}.
Definition with_constList (f : option (list relexpr) → option (list relexpr))
    (blk : Block) :=
  {| serial := serial blk;
     _has_replaced_expressions := _has_replaced_expressions blk;
     _sens_data_list := _sens_data_list blk; _paramList := _paramList blk;
     members := members blk; constList := f (constList blk);
     paramConst := paramConst blk |}.
Definition with_paramConst (f : option (list relexpr) → option (list relexpr))
    (blk : Block) :=
  {| serial := serial blk;
     _has_replaced_expressions := _has_replaced_expressions blk;
     _sens_data_list := _sens_data_list blk; _paramList := _paramList blk;
     members := members blk; constList := constList blk;
     paramConst := f (paramConst blk) |}.

(** Attribute lookup on a block: the plain Python attributes the interface
    sets, the two constraint lists once assigned, and the components added
    under a name. *)
Inductive attr :=
| PyBool (b : bool)
| PyList (len : nat)
| PyConstraintList (l : list relexpr)
| PyComponent (m : member).

Fixpoint assoc {A} (name : string) (l : list (string * A)) : option A :=
  match l with
  | [] => None
  | (n, a) :: l' => if decide (n = name) then Some a else assoc name l'
  end.

Definition block_getattr (blk : Block) (name : string) : option attr :=
  if decide (name = "_has_replaced_expressions")
  then Some (PyBool (_has_replaced_expressions blk))
  else if decide (name = "_sens_data_list")
  then Some (PyList (length (_sens_data_list blk)))
  else if decide (name = "_paramList")
  then Some (PyList (length (_paramList blk)))
  else match name, constList blk, paramConst blk with
       | "constList", Some l, _ => Some (PyConstraintList l)
       | "paramConst", _, Some l => Some (PyConstraintList l)
       | _, _, _ => PyComponent <$> assoc name (members blk)
       end.

(** What the external solver reports back: new current values, entries for
    annotation slots, and the files it left in the working directory. *)
Record SolverResult := {
  sr_values : list (ref * Z);
  sr_suffixes : list (string * key * Z);
  sr_files : list string;
}.

(** The parts of the host framework and of the environment the toolbox
    calls but does not define. *)
Class PyomoHost := {
  (** [unique_component_name(block, name)] *)
  unique_component_name : Block → string → string;
  (** [bool(component)] for a component stored on a block *)
  component_truth : member → outcome bool;
  (** [SolverFactory(name).solve(m)] under the given solver options:
      [None] when the solve raises *)
  solver_solve : string → list (string * string) → Model → option SolverResult;
  (** the files [m.write(filename, ...)] creates *)
  model_write : string → Model → list string;
}.

Definition py_truth `{PyomoHost} (a : attr) : outcome bool :=
  match a with
  | PyBool b => Returned b
  | PyList len => Returned (negb (Nat.eqb len 0))
  | PyConstraintList l => Returned (negb (Nat.eqb (length l) 0))
  | PyComponent m => component_truth m
  end.

(** ** The interface object *)

(** [_original_model] is [None] when it is the very object held in
    [model_instance] ([cloneModel=False]) and the untouched original when
    [model_instance] is a clone.  [block_bound] records that [self.block]
    has been assigned; it then aliases the block of [model_instance]. *)
Record SensitivityInterface := {
  _original_model : option Model;
  model_instance : Model;
  block_bound : bool;
}.

Definition SensitivityInterface_init (instance : Model) (cloneModel : bool)
  : SensitivityInterface :=
  {| _original_model := if cloneModel then Some instance else None;
     model_instance := instance;
     block_bound := false |}.

Definition get_default_block_name : string := "_SENSITIVITY_TOOLBOX_DATA".
Definition get_default_var_name (name : string) : string := name.
Definition get_default_param_name (name : string) : string := name.

Definition get_instance : M SensitivityInterface Model :=
  fun self => (self, Returned (model_instance self)).
Definition update_instance (f : Model → Model) (self : SensitivityInterface)
  : SensitivityInterface :=
  {| _original_model := _original_model self;
     model_instance := f (model_instance self);
     block_bound := block_bound self |}.
Definition modify_instance (f : Model → Model) : M SensitivityInterface unit :=
  modify (update_instance f).
Definition bind_block : M SensitivityInterface unit :=
  modify (fun self =>
            {| _original_model := _original_model self;
               model_instance := model_instance self;
               block_bound := true |}).
Definition modify_block (f : Block → Block) : M SensitivityInterface unit :=
  modify_instance (with_sens_block (fmap f)).
(** reading [self.block] *)
Definition get_block : M SensitivityInterface Block :=
  fun self =>
    match block_bound self, sens_block (model_instance self) with
    | true, Some blk => (self, Returned blk)
    | _, _ => (self, Raised AttributeError)
    end.
Definition lift_outcome {S A} (o : outcome A) : M S A := fun s => (s, o).

(** ** Expression replacement *)

(** Modelled from the spec: [ExpressionReplacementVisitor(substitute=...,
    remove_named_expressions=True).dfs_postorder_stack(e)], which the
    toolbox imports from the host framework: a deep copy of [e] in which
    every leaf whose identity is a key of [substitute] is replaced by the
    mapped leaf, and named sub-expressions are inlined. *)
Fixpoint dfs_postorder_stack (substitute : gmap ref ref) (e : expr) : expr :=
  match e with
  | Num z => Num z
  | Leaf r => match substitute !! r with
              | Some v => Leaf v
              | None => Leaf r
              end
  | Sum a b =>
      Sum (dfs_postorder_stack substitute a) (dfs_postorder_stack substitute b)
  | Diff a b =>
      Diff (dfs_postorder_stack substitute a) (dfs_postorder_stack substitute b)
  | Prod a b =>
      Prod (dfs_postorder_stack substitute a) (dfs_postorder_stack substitute b)
  | Neg a => Neg (dfs_postorder_stack substitute a)
  | NamedExpr _ e => dfs_postorder_stack substitute e
  end.

(** The same walk over a relational expression ([con.expr]). *)
Definition dfs_postorder_stack_rel (substitute : gmap ref ref) (c : relexpr)
  : relexpr :=
  match c with
  | EqualityExpression a b =>
      EqualityExpression (dfs_postorder_stack substitute a)
                         (dfs_postorder_stack substitute b)
  | InequalityExpression a b =>
      InequalityExpression (dfs_postorder_stack substitute a)
                           (dfs_postorder_stack substitute b)
  | RangedExpression lo b up =>
      RangedExpression (dfs_postorder_stack substitute lo)
                       (dfs_postorder_stack substitute b)
                       (dfs_postorder_stack substitute up)
  end.

(** The shadow constraints installed for one active constraint
    (the body of the constraint loop of [setup_sensitivity]). *)
Definition rewrite_constraint (substitute : gmap ref ref)
    (con : ConstraintData) : list relexpr :=
  if equality con
  then [dfs_postorder_stack_rel substitute (con_expr con)]
  else match lower con, upper con with
       | Some con_lower, Some con_upper =>
           let new_body := dfs_postorder_stack substitute (body con) in
           let new_lower := dfs_postorder_stack substitute con_lower in
           let new_upper := dfs_postorder_stack substitute con_upper in
           [py_le new_lower new_upper; py_ge new_upper new_body]
       | _, _ => [dfs_postorder_stack_rel substitute (con_expr con)]
       end.

(** ** Suffix operations *)

(** One round of the loop of lines 85-90.  The model keeps the suffixes
    by name, apart from the components of other kinds, and
    [block.component(name)] is read as the suffix of that name, if any:
    the test of line 86 on a model none of whose other components is
    attached under a catalogue name ([catalogue_names_free] below). *)
Definition add_suffix (m : Model) (entry : string * Direction) : Model :=
  match suffixes m !! entry.1 with
  | None =>
      with_suffixes
        (insert entry.1 {| direction := entry.2; entries := ∅ |}) m
  | Some _ => m
  end.

(** [_add_sensitivity_suffixes(block)] *)
Definition _add_sensitivity_suffixes (m : Model) : Model :=
  fold_left add_suffix (_SIPOPT_SUFFIXES ++ _K_AUG_SUFFIXES) m.

Definition suffix_insert (k : key) (v : Z) (s : Suffix) : Suffix :=
  {| direction := direction s; entries := <[k := v]> (entries s) |}.

(** [instance.<name>[k] = v] *)
Definition suffix_setitem (name : string) (k : key) (v : Z)
  : M SensitivityInterface unit :=
  instance <- get_instance ;;
  match suffixes instance !! name with
  | None => raise AttributeError
  | Some _ => modify_instance (with_suffixes (alter (suffix_insert k v) name))
  end.

(** [<name>[k]], when the suffix exists and holds an entry for [k] *)
Definition suffix_lookup (sfx : gmap string Suffix) (name : string) (k : key)
  : option Z :=
  s ← sfx !! name; entries s !! k.
Definition suffix_get (m : Model) (name : string) (k : key) : option Z :=
  suffix_lookup (suffixes m) name k.

(** ** [setup_sensitivity] *)

Section Setup.
Context `{PyomoHost}.

Definition find_component_on (instance : Model) (cid : nat) : option nat :=
  match heap instance !! cid with
  | Some _ => Some cid
  | None => None
  end.

(** Lines 196-210: an existing block is torn down or the call is refused. *)
Definition teardown_or_refuse : M SensitivityInterface unit :=
  instance <- get_instance ;;
  match sens_block instance with
  | None => ret tt
  | Some existing_block =>
      rebuild <-
        match block_getattr existing_block "has_replaced_expressions" with
        | None => ret false
        | Some a => t <- lift_outcome (py_truth a) ;; ret (negb t)
        end ;;
      if rebuild : bool
      then
        forM_ (fun '(var, _, _, _) => modify_instance (with_heap (set_fixed true var)))
              (_sens_data_list existing_block) ;;
        modify_instance (with_sens_block (fun _ => None))
      else raise RuntimeError
  end.

(** Lines 212-217. *)
Definition new_block (paramList : list (option nat))
  : M SensitivityInterface unit :=
  modify_instance (fun m =>
    {| heap := heap m; objectives := objectives m;
       constraints := constraints m; suffixes := suffixes m;
       sens_block := Some {| serial := blocks_made m;
                             _has_replaced_expressions := false;
                             _sens_data_list := [];
                             _paramList := paramList;
                             members := [];
                             constList := None;
                             paramConst := None |};
       blocks_made := S (blocks_made m) |}) ;;
  bind_block.

(** [block.add_component(name, comp)] for a new [Var] or [Param]: the
    component is allocated on the heap and registered on the block. *)
Definition add_component (name : string) (comp : Component)
    (mk : nat → member) : M SensitivityInterface nat :=
  instance <- get_instance ;;
  let cid := length (heap instance) in
  modify_instance (with_heap (fun h => h ++ [comp])) ;;
  modify_block (with_members (fun l => l ++ [(name, mk cid)])) ;;
  ret cid.

(** [Var(comp.index_set(), initialize=d)] resp. [Var(initialize=d)] with
    [d] the current values of [comp]. *)
Definition new_store (s : Store) : Store :=
  match s with
  | Scalar c => Scalar {| val := val c; fixed := false |}
  | Indexed d => Indexed ((fun c => {| val := val c; fixed := false |}) <$> d)
  end.

(** The body of the loop of lines 224-275. *)
Definition plan_entry (entry : nat * option nat) : M SensitivityInterface unit :=
  let '(i, resolved) := entry in
  instance <- get_instance ;;
  match resolved, resolved ≫= fun cid => heap instance !! cid with
  | Some cid, Some comp =>
      match ctype comp with
      | Param =>
          if negb (mutable comp) then raise ValueError else
          let var := {| ctype := Var; local_name := local_name comp;
                        mutable := false; store := new_store (store comp) |} in
          block <- get_block ;;
          let name := get_default_var_name (local_name comp) in
          let name := unique_component_name block name in
          v <- add_component name var VarMember ;;
          modify_block (with_sens_data (fun l =>
            l ++ (if is_indexed comp
                  then (fun '(idx, param) => ((v, idx), param, i, idx))
                         <$> _generate_component_items cid comp
                  else [((v, _NotAnIndex), (cid, _NotAnIndex), i, _NotAnIndex)])))
      | Var =>
          forM_ (fun '(_, data) =>
                   match is_fixed (heap instance) data with
                   | Some true => ret tt
                   | Some false => raise ValueError
                   | None => raise KeyError
                   end)
                (_generate_component_items cid comp) ;;
          let param := {| ctype := Param; local_name := local_name comp;
                          mutable := true; store := new_store (store comp) |} in
          block <- get_block ;;
          let name := get_default_param_name (local_name comp) in
          let name := unique_component_name block name in
          p <- add_component name param ParamMember ;;
          modify_block (with_sens_data (fun l =>
            l ++ (if is_indexed comp
                  then (fun '(idx, var) => (var, (p, idx), i, idx))
                         <$> _generate_component_items cid comp
                  else [((cid, _NotAnIndex), (p, _NotAnIndex), i, _NotAnIndex)])))
      | OtherComponent => ret tt
      end
  | _, _ => raise AttributeError
  end.

(** [paramList[list_idx].ctype is Param] *)
Definition designates_Param (instance : Model) (paramList : list (option nat))
    (list_idx : nat) : bool :=
  match paramList !! list_idx with
  | Some (Some cid) =>
      match heap instance !! cid with
      | Some comp => match ctype comp with Param => true | _ => false end
      | None => false
      end
  | _ => false
  end.

(** Lines 282-284: the dictionary keyed by the identity of the parameter
    data; a later pair with the same key replaces an earlier one. *)
Definition variableSubMap (instance : Model) (paramList : list (option nat))
    (sens_data_list : list sens_data) : gmap ref ref :=
  fold_left (fun d '(var, param, list_idx, _) =>
               if designates_Param instance paramList list_idx
               then <[param := var]> d else d)
            sens_data_list ∅.

(** [list(instance.component_data_objects(ctype, active=True))], by position *)
Definition active_positions {A} (active : A → bool) (l : list A)
  : list (nat * A) :=
  filter (fun e => active e.2 = true) (enumerate l).

Definition deactivate_objective (o : ObjectiveData) : ObjectiveData :=
  {| obj_active := false; obj_name := obj_name o; obj_expr := obj_expr o |}.
Definition deactivate_constraint (c : ConstraintData) : ConstraintData :=
  {| con_active := false; con_form := con_form c |}.

(** Lines 286-343. *)
Definition replace_expressions (substitute : gmap ref ref)
  : M SensitivityInterface unit :=
  instance <- get_instance ;;
  forM_ (fun '(j, obj) =>
           block <- get_block ;;
           let tempName := unique_component_name block (obj_name obj) in
           let new_expr := dfs_postorder_stack substitute (obj_expr obj) in
           modify_block (with_members
                           (fun l => l ++ [(tempName, ObjectiveMember new_expr)])) ;;
           modify_instance (with_objectives (alter deactivate_objective j)))
        (active_positions obj_active (objectives instance)) ;;
  modify_block (with_constList (fun _ => Some [])) ;;
  instance <- get_instance ;;
  forM_ (fun '(j, con) =>
           modify_block (with_constList
                           (fmap (fun l => l ++ rewrite_constraint substitute con))) ;;
           modify_instance (with_constraints (alter deactivate_constraint j)))
        (active_positions con_active (constraints instance)) ;;
  modify_block (with_flag true).

(** The pinning constraint [var - param == 0]. *)
Definition pinning (d : sens_data) : relexpr :=
  let '(var, param, _, _) := d in
  py_eq (Diff (Leaf var) (Leaf param)) (Num 0).

(** [block.paramConst[idx]] as a suffix key *)
Definition paramConst_getitem (idx : nat) : M SensitivityInterface key :=
  block <- get_block ;;
  match paramConst block ≫= fun l => l !! (idx - 1)%nat with
  | Some _ => if Nat.eqb idx 0 then raise KeyError
              else ret (PinKey (serial block) idx)
  | None => raise KeyError
  end.

(** The body of the loop of lines 353-363. *)
Definition stamp (entry : nat * sens_data) : M SensitivityInterface unit :=
  let '(i, (var, _, _, _)) := entry in
  let idx := (i + 1)%nat in
  con <- paramConst_getitem idx ;;
  suffix_setitem "sens_state_0" (DataKey var) (Z.of_nat idx) ;;
  suffix_setitem "sens_state_1" (DataKey var) (Z.of_nat idx) ;;
  suffix_setitem "sens_init_constr" con (Z.of_nat idx) ;;
  suffix_setitem "dcdp" con (Z.of_nat idx).

(** Lines 187-191: the designated components as they are found on the
    working model; they are used as given when the working model is the
    original itself. *)
Definition find_components_on (self : SensitivityInterface)
    (paramList : list nat) : list (option nat) :=
  match _original_model self with
  | Some orig => find_component_on (model_instance self) <$> paramList
  | None => Some <$> paramList
  end.

(** Lines 185-191: the designated components, translated to the working
    model when that is a clone.  A model and its clone share the
    identifiers of their components; [ComponentUID(param, context=orig)]
    raises [ValueError] for a component that is not a component of the
    model, before the guard is reached. *)
Definition resolve_paramList (self : SensitivityInterface)
    (paramList : list nat) : outcome (list (option nat)) :=
  match _original_model self with
  | Some orig =>
      if decide (None ∈ find_components_on self paramList)
      then Raised ValueError
      else Returned (find_components_on self paramList)
  | None => Returned (find_components_on self paramList)
  end.

(** Lines 277-363: unfix the free entities, rewrite the expressions when
    some parameter was designated, pin every record and stamp the slots. *)
Definition install_substitution (paramList : list (option nat))
  : M SensitivityInterface unit :=
  block <- get_block ;;
  let sens_data_list := _sens_data_list block in
  forM_ (fun '(var, _, _, _) =>
           modify_instance (with_heap (set_fixed false var)))
        sens_data_list ;;
  instance <- get_instance ;;
  let variableSubMap := variableSubMap instance paramList sens_data_list in
  (if bool_decide (variableSubMap = ∅) then ret tt
   else replace_expressions variableSubMap) ;;
  modify_block (with_paramConst (fun _ => Some [])) ;;
  forM_ (fun d => modify_block (with_paramConst (fmap (fun l => l ++ [pinning d]))))
        sens_data_list ;;
  modify_instance _add_sensitivity_suffixes ;;
  forM_ stamp (enumerate sens_data_list).

Definition setup_sensitivity (paramList : list nat)
  : M SensitivityInterface unit :=
  self <- get ;;
  paramList <- lift_outcome (resolve_paramList self paramList) ;;
  teardown_or_refuse ;;
  new_block paramList ;;
  forM_ plan_entry (enumerate paramList) ;;
  install_substitution paramList.

End Setup.

(** ** [perturb_parameters] *)

(** An entry of [perturbList]: a number, or a container of numbers. *)
Inductive perturbation :=
| PtbScalar (z : Z)
| PtbIndexed (d : gmap Z Z).

(** [value(entry)] *)
Definition perturbation_value (entry : perturbation) : outcome Z :=
  match entry with
  | PtbScalar z => Returned z
  | PtbIndexed _ => Raised TypeError
  end.

(** Lines 382-390: the perturbation target of one record. *)
Definition resolve_ptb (perturbList : list perturbation) (list_idx : nat)
    (comp_idx : index) : outcome Z :=
  match perturbList !! list_idx with
  | None => Raised IndexError
  | Some entry =>
      match comp_idx with
      | None => perturbation_value entry
      | Some k =>
          match entry with
          | PtbIndexed d =>
              match d !! k with
              | Some z => Returned z
              | None => Raised KeyError
              end
          | PtbScalar _ =>
              (* TypeError: a scalar perturbs an indexed component *)
              perturbation_value entry
          end
      end
  end.

Section Perturb.
Context `{PyomoHost}.

(** The body of the loop of lines 380-397. *)
Definition perturb_entry (perturbList : list perturbation)
    (entry : nat * sens_data) : M SensitivityInterface unit :=
  let '(i, (var, param, list_idx, comp_idx)) := entry in
  con <- paramConst_getitem (i + 1)%nat ;;
  ptb <- lift_outcome (resolve_ptb perturbList list_idx comp_idx) ;;
  suffix_setitem "sens_state_value_1" (DataKey var) ptb ;;
  instance <- get_instance ;;
  match value (heap instance) var with
  | None => raise ValueError
  | Some current => suffix_setitem "DeltaP" con (current - ptb)
  end.

Definition perturb_parameters (perturbList : list perturbation)
  : M SensitivityInterface unit :=
  block <- get_block ;;
  let sens_data_list := _sens_data_list block in
  match paramConst block with
  | None => raise AttributeError
  | Some _ =>
      if negb (Nat.eqb (length (_paramList block)) (length perturbList))
      then raise ValueError
      else forM_ (perturb_entry perturbList) (enumerate sens_data_list)
  end.

End Perturb.

(** ** The driver [sensitivity_calculation] *)

(** The working directory: the plain files in it, and the content of the
    sub-directory [dsdp] when that directory exists. *)
Record FileSystem := {
  cwd : gset string;
  dsdp : option (gset string);
}.

Inductive event :=
| Solve (solver : string)
| Move (file : string).

Record World := {
  sens : SensitivityInterface;
  fs : FileSystem;
  log : list event;
}.

Definition on_sens {A} (c : M SensitivityInterface A) : M World A :=
  fun w => match c (sens w) with
           | (s', o) => ({| sens := s'; fs := fs w; log := log w |}, o)
           end.
Definition modify_fs (f : FileSystem → FileSystem) : M World unit :=
  modify (fun w => {| sens := sens w; fs := f (fs w); log := log w |}).
Definition emit (e : event) : M World unit :=
  modify (fun w => {| sens := sens w; fs := fs w; log := log w ++ [e] |}).
Definition create_files (files : list string) : M World unit :=
  modify_fs (fun f => {| cwd := list_to_set files ∪ cwd f; dsdp := dsdp f |}).

Definition set_value (r : ref) (z : Z) (h : list Component) : list Component :=
  alter (fun comp =>
           {| ctype := ctype comp; local_name := local_name comp;
              mutable := mutable comp;
              store := store_alter (fun c => {| val := z; fixed := fixed c |})
                                   (store comp) r.2 |}) r.1 h.

Definition apply_result (r : SolverResult) (m : Model) : Model :=
  let m := fold_left (fun m '(x, z) => with_heap (set_value x z) m)
                     (sr_values r) m in
  fold_left (fun m '(name, k, z) =>
               with_suffixes (alter (suffix_insert k z) name) m)
            (sr_suffixes r) m.

(** [into.update(from)] on two suffixes of the model *)
Definition suffix_update (into from : string) : M SensitivityInterface unit :=
  instance <- get_instance ;;
  match suffixes instance !! into, suffixes instance !! from with
  | Some _, Some src =>
      modify_instance
        (with_suffixes
           (alter (fun s => {| direction := direction s;
                               entries := entries src ∪ entries s |}) into))
  | _, _ => raise AttributeError
  end.

(** [os.makedirs("dsdp")] *)
Definition os_makedirs_dsdp : M World unit :=
  w <- get ;;
  match dsdp (fs w) with
  | Some _ => raise FileExistsError
  | None =>
      if decide ("dsdp" ∈ cwd (fs w)) then raise FileExistsError
      else modify_fs (fun f => {| cwd := cwd f; dsdp := Some ∅ |})
  end.

(** [shutil.move(src, "./dsdp/")] *)
Definition shutil_move (src : string) : M World unit :=
  emit (Move src) ;;
  w <- get ;;
  match dsdp (fs w) with
  | None =>
      if decide (src ∈ cwd (fs w)) then raise NotADirectoryError
      else raise FileNotFoundError
  | Some there =>
      if decide (src ∈ there) then raise ShutilError
      else if decide (src ∈ cwd (fs w))
      then modify_fs (fun f => {| cwd := cwd f ∖ {[src]};
                                  dsdp := Some ({[src]} ∪ there) |})
      else raise FileNotFoundError
  end.

(** The nine artifacts of lines 142-150, in the order they are moved. *)
Definition dsdp_artifacts : list string :=
  [ "dsdp_in_.in"; "col_row.nl"; "col_row.col"; "col_row.row";
    "conorder.txt"; "delta_p.out"; "dot_out.out";
    "timings_dot_driver_dsdp.txt"; "timings_k_aug_dsdp.txt" ].

(** Lines 136-152. *)
Definition relocate_artifacts : M World unit :=
  try_except os_makedirs_dsdp
             (fun e => match e with FileExistsError => true | _ => false end)
             (ret tt) ;;
  try_except (forM_ shutil_move dsdp_artifacts) is_OSError (ret tt).

Section Driver.
Context `{PyomoHost}.

(** [SolverFactory(name, solver_io='nl')] with [options], then [.solve(m)] *)
Definition solve (name : string) (options : list (string * string))
  : M World unit :=
  emit (Solve name) ;;
  w <- get ;;
  match solver_solve name options (model_instance (sens w)) with
  | None => raise ApplicationError
  | Some r =>
      on_sens (modify_instance (apply_result r)) ;;
      create_files (sr_files r)
  end.

(** Lines 113-123: the baseline solve and the [k_aug] run of the ['kaug']
    strategy. *)
Definition kaug_baseline : M World unit :=
  solve "ipopt" [] ;;
  on_sens (suffix_update "ipopt_zL_in" "ipopt_zL_out") ;;
  on_sens (suffix_update "ipopt_zU_in" "ipopt_zU_out") ;;
  solve "k_aug" [("dsdp_mode", EmptyString)] ;;
  m <- on_sens get_instance ;;
  create_files (model_write "col_row.nl" m).

Definition sensitivity_calculation_body (method : string)
    (paramList : list nat) (perturbList : list perturbation)
  : M World Model :=
  on_sens (setup_sensitivity paramList) ;;
  (if decide (method = "kaug") then kaug_baseline else ret tt) ;;
  on_sens (perturb_parameters perturbList) ;;
  (if decide (method = "sipopt")
   then solve "ipopt_sens" [("run_sens", "yes")]
   else if decide (method = "kaug")
   then
     solve "dot_sens" [("dsdp_mode", EmptyString)] ;;
     relocate_artifacts
   else ret tt) ;;
  on_sens get_instance.

Definition sensitivity_calculation (method : string) (instance : Model)
    (paramList : list nat) (perturbList : list perturbation)
    (cloneModel : bool) (files : FileSystem) : World * outcome Model :=
  sensitivity_calculation_body method paramList perturbList
    {| sens := SensitivityInterface_init instance cloneModel;
       fs := files; log := [] |}.

(** Lines 41-57: the deprecated entry points.  [tee], [keepfiles] and
    [solver_options] are passed on to [sensitivity_calculation], which
    reads none of them where the model can see it. *)
Definition sipopt (instance : Model) (paramSubList : list nat)
    (perturbList : list perturbation) (cloneModel : bool)
    (files : FileSystem) : World * outcome Model :=
  sensitivity_calculation "sipopt" instance paramSubList perturbList
    cloneModel files.

Definition kaug (instance : Model) (paramSubList : list nat)
    (perturbList : list perturbation) (cloneModel : bool)
    (solver_options : option (list (string * string)))
    (files : FileSystem) : World * outcome Model :=
  sensitivity_calculation "kaug" instance paramSubList perturbList
    cloneModel files.

End Driver.

(** *** Vocabulary for the properties of setup and perturbation *)

(** A component without its [fixed] flags. *)
Definition store_values (s : Store) : Z + gmap Z Z :=
  match s with
  | Scalar c => inl (val c)
  | Indexed d => inr (val <$> d)
  end.

Definition values_cell (sv : Z + gmap Z Z) (i : index) : option Z :=
  match sv, i with
  | inl z, None => Some z
  | inr d, Some k => d !! k
  | _, _ => None
  end.

Definition view_of (comp : Component) : Ctype * bool * (Z + gmap Z Z) :=
  (ctype comp, mutable comp, store_values (store comp)).

Definition view (h : list Component) : list (Ctype * bool * (Z + gmap Z Z)) :=
  view_of <$> h.

(** The records' free entities, unfixed (lines 277-279). *)
Definition unfix_all (records : list sens_data) (h : list Component)
  : list Component :=
  fold_left (fun h '(var, _, _, _) => set_fixed false var h) records h.

(** The indices the planner visits for one component. *)
Definition item_indices (comp : Component) : list index :=
  if is_indexed comp then Some <$> sorted_robust (index_set comp)
  else [_NotAnIndex].

(** The records appended for one designated component. *)
Definition new_records (i : nat) (comp : Component)
    (free param : index → ref) : list sens_data :=
  (fun idx => (free idx, param idx, i, idx)) <$> item_indices comp.

(** What the planner loop leaves alone. *)
Definition shell (self : SensitivityInterface) :=
  (_original_model self, block_bound self,
   objectives (model_instance self), constraints (model_instance self),
   suffixes (model_instance self), blocks_made (model_instance self),
   (fun blk => (serial blk, _has_replaced_expressions blk, _paramList blk,
                constList blk, paramConst blk))
     <$> sens_block (model_instance self)).

Definition is_objective_member (e : string * member) : Prop :=
  match e.2 with ObjectiveMember _ => True | _ => False end.

(** The effect of one accepted entry of the designated list: nothing for
    a component that is neither [Param] nor [Var]; otherwise one new
    component with the values of [comp], registered on the block under a
    name, and one record per element of [comp]. *)
Definition planned (i cid : nat) (comp : Component) (blk : Block)
    (s s' : SensitivityInterface) : Prop :=
  shell s' = shell s
  ∧ match ctype comp with
    | OtherComponent => s' = s
    | t =>
        let fresh := length (heap (model_instance s)) in
        ∃ newc blk' name mem,
          heap (model_instance s') = heap (model_instance s) ++ [newc]
          ∧ sens_block (model_instance s') = Some blk'
          ∧ members blk' = members blk ++ [(name, mem)]
          ∧ ¬ is_objective_member (name, mem)
          ∧ view_of newc
            = (match t with Param => Var | _ => Param end,
               match t with Param => false | _ => true end,
               store_values (store comp))
          ∧ _sens_data_list blk'
            = _sens_data_list blk
              ++ match t with
                 | Param => new_records i comp (fun idx => (fresh, idx))
                                        (fun idx => (cid, idx))
                 | _ => new_records i comp (fun idx => (cid, idx))
                                    (fun idx => (fresh, idx))
                 end
    end.

(** A record pairs one element of a designated component with its
    substitute: a designated [Param] element sits in the parameter slot and
    a new [Var] of the same values in the free slot; a designated [Var]
    element sits in the free slot and a new mutable [Param] of the same
    values in the parameter slot.  New components lie at or beyond heap
    position [n0]. *)
Definition record_ok (n0 : nat) (vw : list (Ctype * bool * (Z + gmap Z Z)))
    (resolved : list (option nat)) (d : sens_data) : Prop :=
  let '(var, param, list_idx, comp_idx) := d in
  ∃ cid t mu sv,
    resolved !! list_idx = Some (Some cid)
    ∧ vw !! cid = Some (t, mu, sv)
    ∧ is_Some (values_cell sv comp_idx)
    ∧ ((t = Param ∧ param = (cid, comp_idx)
        ∧ ∃ v, var = (v, comp_idx) ∧ (n0 ≤ v)%nat
               ∧ vw !! v = Some (Var, false, sv))
       ∨ (t = Var ∧ var = (cid, comp_idx)
          ∧ ∃ p, param = (p, comp_idx) ∧ (n0 ≤ p)%nat
                 ∧ vw !! p = Some (Param, true, sv))).

(** Each of the first [n] designated components that is a [Param] or a
    [Var] has one substitute component, of the other kind and of the same
    values, created at or beyond heap position [n0], and one record per
    element pairing that element with the substitute's. *)
Definition covered (n0 : nat) (vw : list (Ctype * bool * (Z + gmap Z Z)))
    (resolved : list (option nat)) (n : nat) (records : list sens_data)
  : Prop :=
  ∀ i cid, (i < n)%nat → resolved !! i = Some (Some cid) →
    (cid < length vw)%nat
    ∧ ∀ t mu sv, vw !! cid = Some (t, mu, sv) →
        match t with
        | Param =>
            ∃ v, (n0 ≤ v)%nat ∧ vw !! v = Some (Var, false, sv)
                 ∧ ∀ idx, is_Some (values_cell sv idx) →
                          ((v, idx), (cid, idx), i, idx) ∈ records
        | Var =>
            ∃ p, (n0 ≤ p)%nat ∧ vw !! p = Some (Param, true, sv)
                 ∧ ∀ idx, is_Some (values_cell sv idx) →
                          ((cid, idx), (p, idx), i, idx) ∈ records
        | OtherComponent => True
        end.

(** What holds at every point of the planner loop, whatever its outcome. *)
Definition plan_frame (s0 s : SensitivityInterface) : Prop :=
  block_bound s = true
  ∧ shell s = shell s0
  ∧ (∃ added, heap (model_instance s) = heap (model_instance s0) ++ added)
  ∧ ∃ blk, sens_block (model_instance s) = Some blk
           ∧ Forall (fun e => ¬ is_objective_member e) (members blk).

(** What holds once the first [n] entries have been accepted. *)
Definition plan_inv (n0 : nat) (resolved : list (option nat)) (n : nat)
    (s : SensitivityInterface) : Prop :=
  (n0 ≤ length (heap (model_instance s)))%nat
  ∧ ∃ blk, sens_block (model_instance s) = Some blk
         ∧ Forall (record_ok n0 (view (heap (model_instance s))) resolved)
                  (_sens_data_list blk)
         ∧ covered n0 (view (heap (model_instance s))) resolved n
                   (_sens_data_list blk).

(** The records' free entities, fixed again (lines 200-203). *)
Definition fix_all (records : list sens_data) (h : list Component)
  : list Component :=
  fold_left (fun h '(var, _, _, _) => set_fixed true var h) records h.

(** The block installed by lines 212-217. *)
Definition fresh_block (resolved : list (option nat)) (m : Model) : Block :=
  {| serial := blocks_made m; _has_replaced_expressions := false;
     _sens_data_list := []; _paramList := resolved; members := [];
     constList := None; paramConst := None |}.

(** The four annotation writes for one record (lines 353-363). *)
Definition stamp_suffixes (blk_serial : nat) (sfx : gmap string Suffix)
    (entry : nat * sens_data) : gmap string Suffix :=
  let '(i, (var, _, _, _)) := entry in
  let idx := (i + 1)%nat in
  alter (suffix_insert (PinKey blk_serial idx) (Z.of_nat idx)) "dcdp"
    (alter (suffix_insert (PinKey blk_serial idx) (Z.of_nat idx))
           "sens_init_constr"
       (alter (suffix_insert (DataKey var) (Z.of_nat idx)) "sens_state_1"
          (alter (suffix_insert (DataKey var) (Z.of_nat idx)) "sens_state_0"
             sfx))).

(** The slots all four writes of [stamp] go to. *)
Definition stamp_slots_present (sfx : gmap string Suffix) : Prop :=
  is_Some (sfx !! "sens_state_0") ∧ is_Some (sfx !! "sens_state_1")
  ∧ is_Some (sfx !! "sens_init_constr") ∧ is_Some (sfx !! "dcdp").

(** The free entity of a record. *)
Definition free_entity (d : sens_data) : ref := d.1.1.1.
Definition parameter_entity (d : sens_data) : ref := d.1.1.2.
Definition list_idx_of (d : sens_data) : nat := d.1.2.
Definition comp_idx_of (d : sens_data) : index := d.2.

(** What everything after the planner loop leaves alone. *)
Definition core (self : SensitivityInterface) :=
  (_original_model self, block_bound self,
   heap (model_instance self), suffixes (model_instance self),
   blocks_made (model_instance self),
   (fun blk => (serial blk, _sens_data_list blk, _paramList blk,
                paramConst blk)) <$> sens_block (model_instance self)).

(** An entry of the designated list the planner accepts: it is on the
    model, and it is a mutable [Param], a [Var] all of whose elements are
    fixed, or a component of another kind (which is skipped). *)
Definition acceptable (h : list Component) (cid : nat) : Prop :=
  ∃ comp, h !! cid = Some comp
          ∧ (ctype comp = Param → mutable comp = true)
          ∧ (ctype comp = Var →
             ∀ idx c, store_cell (store comp) idx = Some c → fixed c = true).

(** The two annotation writes of [perturb_parameters] for one record
    (lines 393-397), when its perturbation target resolves. *)
Definition perturb_suffixes (blk_serial : nat) (h : list Component)
    (perturbList : list perturbation) (sfx : gmap string Suffix)
    (entry : nat * sens_data) : gmap string Suffix :=
  let '(i, (var, _, list_idx, comp_idx)) := entry in
  match resolve_ptb perturbList list_idx comp_idx, value h var with
  | Returned ptb, Some current =>
      alter (suffix_insert (PinKey blk_serial (i + 1)) (current - ptb))
            "DeltaP"
        (alter (suffix_insert (DataKey var) ptb) "sens_state_value_1" sfx)
  | _, _ => sfx
  end.

(** An interface on which setup has completed: the block is bound, every
    record has its pinning constraint and a valued free entity, and the two
    slots [perturb_parameters] writes exist. *)
Definition ready (self : SensitivityInterface) (blk : Block) : Prop :=
  block_bound self = true
  ∧ sens_block (model_instance self) = Some blk
  ∧ (∃ l, paramConst blk = Some l
          ∧ length l = length (_sens_data_list blk))
  ∧ is_Some (suffixes (model_instance self) !! "sens_state_value_1")
  ∧ is_Some (suffixes (model_instance self) !! "DeltaP")
  ∧ ∀ d, d ∈ _sens_data_list blk →
         is_Some (value (heap (model_instance self)) (free_entity d)).

(** The run fails and no external solver has been invoked. *)
Definition fails_before_any_solver (run : World * outcome Model) : Prop :=
  is_raised run.2 = true ∧ ∀ name, Solve name ∉ log run.1.

(** *** Vocabulary for the further properties *)

(** The suffix [_add_sensitivity_suffixes] creates for a catalogue entry. *)
Definition new_suffix (d : Direction) : Suffix :=
  {| direction := d; entries := ∅ |}.

(** An assignment read through a substitution map: a substituted leaf
    takes the value of its substitute. *)
Definition substituted (env : ref → Z) (substitute : gmap ref ref)
  : ref → Z :=
  fun r => env (default r (substitute !! r)).

(** The current values of the model as an assignment (0 where a data
    object does not exist). *)
Definition current_values (h : list Component) : ref → Z :=
  fun r => default 0 (value h r).

(** What identifies a record: its position in the designated list and
    its index within the component. *)
Definition record_key (d : sens_data) : nat * index :=
  (list_idx_of d, comp_idx_of d).

(** Two states of the interface that differ at most in the entries of the
    suffixes named in [names]: no component, expression, block field, suffix
    name or suffix direction differs. *)
Definition same_but_slots (names : list string)
    (s0 s : SensitivityInterface) : Prop :=
  _original_model s = _original_model s0
  ∧ block_bound s = block_bound s0
  ∧ heap (model_instance s) = heap (model_instance s0)
  ∧ objectives (model_instance s) = objectives (model_instance s0)
  ∧ constraints (model_instance s) = constraints (model_instance s0)
  ∧ sens_block (model_instance s) = sens_block (model_instance s0)
  ∧ blocks_made (model_instance s) = blocks_made (model_instance s0)
  ∧ (∀ name, name ∉ names →
             suffixes (model_instance s) !! name
             = suffixes (model_instance s0) !! name)
  ∧ ∀ name, direction <$> suffixes (model_instance s) !! name
            = direction <$> suffixes (model_instance s0) !! name.

(** The expressions of the objectives the block holds, in the order they
    were added to it. *)
Definition cloned_objectives (blk : Block) : list expr :=
  omap (fun e : string * member =>
          match e.2 with ObjectiveMember x => Some x | _ => None end)
       (members blk).

(** The record keys one designated component gives rise to: none for a
    component that is neither [Param] nor [Var], else one per element, in
    the order of [_generate_component_items]. *)
Definition keys_of_entry (h : list Component) (i cid : nat)
  : list (nat * index) :=
  match h !! cid with
  | Some comp =>
      match ctype comp with
      | OtherComponent => []
      | _ => (fun idx => (i, idx)) <$> item_indices comp
      end
  | None => []
  end.

(** The record keys of a designated list, in the order of the list. *)
Definition designated_keys (h : list Component) (paramList : list nat)
  : list (nat * index) :=
  concat ((fun e => keys_of_entry h e.1 e.2) <$> enumerate paramList).

(** A sequence of writes [instance.<name>[k] = z] to existing suffixes. *)
Definition write_slots (writes : list (string * key * Z))
    (sfx : gmap string Suffix) : gmap string Suffix :=
  fold_left (fun sfx '(name, k, z) => alter (suffix_insert k z) name sfx)
            writes sfx.

(** The writes of [perturb_parameters] for one record (lines 393-397),
    when its perturbation target resolves. *)
Definition perturb_writes (blk_serial : nat) (h : list Component)
    (perturbList : list perturbation) (entry : nat * sens_data)
  : list (string * key * Z) :=
  let '(i, (var, _, list_idx, comp_idx)) := entry in
  match resolve_ptb perturbList list_idx comp_idx, value h var with
  | Returned ptb, Some current =>
      [ ("sens_state_value_1", DataKey var, ptb);
        ("DeltaP", PinKey blk_serial (i + 1), current - ptb) ]
  | _, _ => []
  end.


(** No component of another kind holds the name of a catalogue suffix:
    under each catalogue name, the test of line 86 finds the suffix or
    nothing (the comment of lines 87-89 names the other case). *)
Definition catalogue_names_free (m : Model) : Prop :=
  Forall (fun name => (name ∉ (local_name <$> heap m))
                      ∧ (name ∉ (obj_name <$> objectives m)))
         (_SIPOPT_SUFFIXES ++ _K_AUG_SUFFIXES).*1.

(** *** Vocabulary for the relocation property *)

(** [shutil.move(src, "./dsdp/")] succeeds exactly on a movable file. *)
Definition movable (f : FileSystem) (src : string) : bool :=
  match dsdp f with
  | Some there => bool_decide (src ∉ there) && bool_decide (src ∈ cwd f)
  | None => false
  end.

Definition move_file (f : FileSystem) (src : string) : FileSystem :=
  {| cwd := cwd f ∖ {[src]};
     dsdp := (fun there => {[src]} ∪ there) <$> dsdp f |}.

(** The working directory once [os.makedirs("dsdp")] has returned or its
    [FileExistsError] has been passed over. *)
Definition after_makedirs (f : FileSystem) : FileSystem :=
  match dsdp f with
  | Some _ => f
  | None => if decide ("dsdp" ∈ cwd f) then f
            else {| cwd := cwd f; dsdp := Some ∅ |}
  end.

(** Every file of the working directory and of its [dsdp] sub-directory. *)
Definition files_of (f : FileSystem) : gset string :=
  cwd f ∪ default ∅ (dsdp f).

(** ** A reference host and two small models *)

Definition no_result : SolverResult :=
  {| sr_values := []; sr_suffixes := []; sr_files := [] |}.

(** A host in which names are made unique by a fixed suffix, components are
    true, solvers succeed without output and [m.write] creates the named
    file. *)
Definition reference_host : PyomoHost :=
  {| unique_component_name := fun blk name =>
       match block_getattr blk name with
       | None => name
       | Some _ => String.append name "_0"
       end;
     component_truth := fun _ => Returned true;
     solver_solve := fun _ _ _ => Some no_result;
     model_write := fun filename _ => [filename] |}.

Definition scalar_component (t : Ctype) (name : string) (mut : bool)
    (v : Z) (fx : bool) : Component :=
  {| ctype := t; local_name := name; mutable := mut;
     store := Scalar {| val := v; fixed := fx |} |}.

Definition p_ : ref := (0%nat, _NotAnIndex).
Definition x_ : ref := (1%nat, _NotAnIndex).
Definition y_ : ref := (2%nat, _NotAnIndex).

(** Mutable parameter [p = 5], free variable [x = 5], fixed variable
    [y = 2]; objective [x * p]; constraints [x + p == 10] and
    [0 <= x <= 10]. *)
Definition example_model : Model :=
  {| heap := [ scalar_component Param "p" true 5 false;
               scalar_component Var "x" false 5 false;
               scalar_component Var "y" false 2 true ];
     objectives :=
       [ {| obj_active := true; obj_name := "obj";
            obj_expr := Prod (Leaf x_) (Leaf p_) |} ];
     constraints :=
       [ {| con_active := true;
            con_form := EqualityCon (Sum (Leaf x_) (Leaf p_)) (Num 10) |};
         {| con_active := true;
            con_form := RangedCon (Num 0) (Leaf x_) (Num 10) |} ];
     suffixes := ∅;
     sens_block := None;
     blocks_made := 0 |}.

(** The interface after [setup_sensitivity([p])] on [example_model]. *)
Definition example_after_setup_p : SensitivityInterface * outcome unit :=
  setup_sensitivity (H := reference_host) [0%nat]
    (SensitivityInterface_init example_model false).

(** The interface after [setup_sensitivity([y])] on [example_model]. *)
Definition example_after_setup_y : SensitivityInterface * outcome unit :=
  setup_sensitivity (H := reference_host) [2%nat]
    (SensitivityInterface_init example_model false).

(** * Properties *)

(** ** The monad *)


Lemma bind_Returned {S A B} (c : M S A) (k : A → M S B) s s' b :
  bind c k s = (s', Returned b) →
  ∃ s1 a, c s = (s1, Returned a) ∧ k a s1 = (s', Returned b).
Proof.
  unfold bind. destruct (c s) as [s1 [a|e]]; [eauto | discriminate].
Qed.

Lemma bind_run {S A B} (c : M S A) (k : A → M S B) s s1 a :
  c s = (s1, Returned a) → bind c k s = k a s1.
Proof. unfold bind. intros ->. reflexivity. Qed.

Lemma bind_Raised {S A B} (c : M S A) (k : A → M S B) s s1 e :
  c s = (s1, Raised e) → bind c k s = (s1, Raised e).
Proof. unfold bind. intros ->. reflexivity. Qed.

Lemma forM__app {S A} (body : A → M S unit) l1 l2 s :
  forM_ body (l1 ++ l2) s = (forM_ body l1 ;; forM_ body l2) s.
Proof.
  revert s. induction l1 as [|x l1 IH]; intros s; [reflexivity|].
  cbn [forM_ app]. unfold bind in *.
  destruct (body x s) as [s1 [[]|e]]; [|reflexivity].
  apply IH.
Qed.

(** A loop whose body only updates the state is a fold. *)
Lemma forM__modify {S A} (f : A → S → S) l s :
  forM_ (fun x => modify (f x)) l s
  = (fold_left (fun s x => f x s) l s, Returned tt).
Proof.
  revert s. induction l as [|x l IH]; intros s; [reflexivity|].
  cbn [forM_ fold_left]. unfold bind, modify at 1. apply IH.
Qed.

Lemma enumerate_from_app {A} (l1 l2 : list A) n :
  enumerate_from n (l1 ++ l2)
  = enumerate_from n l1 ++ enumerate_from (n + length l1) l2.
Proof.
  revert n. induction l1 as [|x l1 IH]; intros n; cbn.
  - by rewrite Nat.add_0_r.
  - rewrite IH. do 3 f_equal. lia.
Qed.

Lemma enumerate_from_lookup {A} (l : list A) n i :
  enumerate_from n l !! i = pair (n + i)%nat <$> l !! i.
Proof.
  revert n i. induction l as [|x l IH]; intros n [|i]; cbn; try done.
  - by rewrite Nat.add_0_r.
  - rewrite IH. by replace (S n + i)%nat with (n + S i)%nat by lia.
Qed.

(** ** Translating the designated components (lines 185-191) *)

Lemma resolve_paramList_cases self paramList :
  resolve_paramList self paramList
  = Returned (find_components_on self paramList)
  ∨ (resolve_paramList self paramList = Raised ValueError
     ∧ is_Some (_original_model self)
     ∧ ¬ Forall (fun cid => cid < length (heap (model_instance self)))%nat
                paramList).
Proof.
  unfold resolve_paramList.
  destruct (_original_model self) as [orig|] eqn:Horig; [|by left].
  case_decide as Hnone; [|by left]. right.
  split; [done|]. split; [by eexists|]. intros Hon.
  unfold find_components_on in Hnone. rewrite Horig in Hnone.
  apply list_elem_of_fmap in Hnone as (cid & Hcid & Hin).
  rewrite Forall_forall in Hon. specialize (Hon cid Hin).
  unfold find_component_on in Hcid.
  by destruct (lookup_lt_is_Some_2 _ _ Hon) as [comp Hcomp]; rewrite Hcomp in Hcid.
Qed.

Lemma resolve_step {A} self paramList resolved
    (k : list (option nat) → M SensitivityInterface A) :
  resolve_paramList self paramList = Returned resolved →
  bind (lift_outcome (resolve_paramList self paramList)) k self
  = k resolved self.
Proof. intros Hres. unfold bind, lift_outcome. by rewrite Hres. Qed.

Lemma resolve_raise {A} self paramList e
    (k : list (option nat) → M SensitivityInterface A) :
  resolve_paramList self paramList = Raised e →
  bind (lift_outcome (resolve_paramList self paramList)) k self
  = (self, Raised e).
Proof. intros Hres. unfold bind, lift_outcome. by rewrite Hres. Qed.

(** ** Refusal of a second setup (lines 196-210) *)

Section Refusal.
Context `{PyomoHost}.

Lemma getattr_has_replaced_expressions blk :
  block_getattr blk "has_replaced_expressions"
  = PyComponent <$> assoc "has_replaced_expressions" (members blk).
Proof.
  unfold block_getattr.
  repeat (case_decide; [discriminate|]).
  reflexivity.
Qed.

Lemma teardown_refuses self blk :
  sens_block (model_instance self) = Some blk →
  (∀ mem, assoc "has_replaced_expressions" (members blk) = Some mem →
          component_truth mem ≠ Returned false) →
  ∃ e, teardown_or_refuse self = (self, Raised e).
Proof.
  intros Hblk Hname.
  unfold teardown_or_refuse, bind, get_instance. rewrite Hblk.
  rewrite getattr_has_replaced_expressions.
  destruct (assoc _ (members blk)) as [mem|] eqn:Hmem; cbn; [|by eauto].
  specialize (Hname mem eq_refl). unfold lift_outcome.
  destruct (component_truth mem) as [[]|e]; cbn; by eauto.
Qed.

Lemma setup_sensitivity_refused self blk paramList :
  sens_block (model_instance self) = Some blk →
  (∀ mem, assoc "has_replaced_expressions" (members blk) = Some mem →
          component_truth mem ≠ Returned false) →
  ∃ e, setup_sensitivity paramList self = (self, Raised e).
Proof.
  intros Hblk Hname.
  destruct (teardown_refuses self blk Hblk Hname) as [e He].
  unfold setup_sensitivity. erewrite bind_run by reflexivity.
  destruct (resolve_paramList_cases self paramList) as [Hres|(Hres & _)].
  - exists e. rewrite (resolve_step _ _ _ _ Hres).
    by erewrite bind_Raised by exact He.
  - exists ValueError. by apply resolve_raise.
Qed.

End Refusal.

(** On every other block the guard refuses: once expression substitution
    has occurred on the block (its replaced-expressions flag is true), a
    further [setup_sensitivity] call on the same model instance raises and
    leaves the interface, the model and the block exactly as they were,
    when the block holds no component of truth value false under the name
    the guard probes. *)
Lemma setup_after_substitution_raises `{PyomoHost}
    (self : SensitivityInterface) (blk : Block) (paramList : list nat) :
  sens_block (model_instance self) = Some blk →
  _has_replaced_expressions blk = true →
  (∀ mem, assoc "has_replaced_expressions" (members blk) = Some mem →
          component_truth mem ≠ Returned false) →
  ∃ e, setup_sensitivity paramList self = (self, Raised e)
       ∧ sens_block (model_instance (setup_sensitivity paramList self).1)
         = Some blk.
Proof.
  intros Hblk _ Hname.
  destruct (setup_sensitivity_refused self blk paramList Hblk Hname) as [e He].
  exists e. rewrite He. split; [reflexivity | exact Hblk].
Qed.

Lemma setup_after_substitution_raises_witness :
  ∃ e, setup_sensitivity (H := reference_host) [0%nat] example_after_setup_p.1
       = (example_after_setup_p.1, Raised e)
       ∧ is_Some (sens_block (model_instance
                    (setup_sensitivity (H := reference_host) [0%nat]
                                       example_after_setup_p.1).1)).
Proof.
  destruct (sens_block (model_instance example_after_setup_p.1))
    as [blk|] eqn:Hblk; [|by vm_compute in Hblk].
  destruct (setup_after_substitution_raises (H := reference_host)
              example_after_setup_p.1 blk [0%nat] Hblk) as [e [He Hb]].
  - vm_compute in Hblk. by injection Hblk as <-.
  - intros mem Hmem. cbn. discriminate.
  - exists e. split; [exact He|]. rewrite Hb. eauto.
Defined.

(** C5, evaluated on the code: after [setup_sensitivity([p])] on
    [example_model] the block's replaced-expressions flag is true; once an
    immutable parameter of value zero (truth value false) is stored on that
    block under the name [has_replaced_expressions], the name the guard of
    line 198 probes, a further call does not raise: the block on which
    substitution has occurred is torn down and a new one, with the next
    serial number, takes its place. *)
Theorem setup_after_substitution_rebuilds_on_false_component :
  let host : PyomoHost :=
    {| unique_component_name := fun _ name => name;
       component_truth := fun _ => Returned false;
       solver_solve := fun _ _ _ => Some no_result;
       model_write := fun filename _ => [filename] |} in
  let zero := scalar_component Param "has_replaced_expressions" false 0 false in
  let self :=
    update_instance
      (fun m =>
         with_heap (fun h => h ++ [zero])
           (with_sens_block
              (fmap (with_members
                       (fun l => l ++ [("has_replaced_expressions",
                                        ParamMember (length (heap m)))])))
              m))
      example_after_setup_p.1 in
  example_after_setup_p.2 = Returned tt
  ∧ (_has_replaced_expressions <$> sens_block (model_instance self))
    = Some true
  ∧ (serial <$> sens_block (model_instance self)) = Some 0%nat
  ∧ (setup_sensitivity (H := host) [] self).2 = Returned tt
  ∧ (serial <$> sens_block
                  (model_instance (setup_sensitivity (H := host) [] self).1))
    = Some 1%nat.
Proof.
  cbn zeta.
  split; [vm_compute; reflexivity|].
  split; [vm_compute; reflexivity|].
  split; [vm_compute; reflexivity|].
  split; vm_compute; reflexivity.
Qed.

(** ** Rewriting of a ranged constraint (lines 328-340) *)

Lemma rewrite_constraint_ranged substitute act lo b up :
  rewrite_constraint substitute
    {| con_active := act; con_form := RangedCon lo b up |}
  = [ InequalityExpression (dfs_postorder_stack substitute lo)
                           (dfs_postorder_stack substitute up);
      InequalityExpression (dfs_postorder_stack substitute b)
                           (dfs_postorder_stack substitute up) ].
Proof. reflexivity. Qed.

(** What the two installed constraints say: the upper bound is imposed on
    the body, the lower bound is compared with the upper bound only. *)
Lemma rewrite_constraint_ranged_satisfies substitute act lo b up env :
  Forall (satisfies env)
         (rewrite_constraint substitute
            {| con_active := act; con_form := RangedCon lo b up |})
  ↔ eval env (dfs_postorder_stack substitute lo)
      ≤ eval env (dfs_postorder_stack substitute up)
    ∧ eval env (dfs_postorder_stack substitute b)
      ≤ eval env (dfs_postorder_stack substitute up).
Proof.
  rewrite rewrite_constraint_ranged, !Forall_cons, Forall_nil. cbn. tauto.
Qed.

(** C1, evaluated on the code: designating [p] on [example_model], whose
    second constraint is the ranged [0 <= x <= 10], installs for it the two
    entries [0 <= 10] and [x <= 10]; at [x = -5] both hold although the
    ranged constraint is violated, so the pair is not equivalent to the
    original constraint. *)
Theorem ranged_split_loses_lower_bound :
  let env := fun r : ref => if decide (r = x_) then -5 else 0 in
  example_after_setup_p.2 = Returned tt
  ∧ (sens_block (model_instance example_after_setup_p.1) ≫= constList)
    = Some [ EqualityExpression (Sum (Leaf x_) (Leaf (3%nat, _NotAnIndex)))
                                (Num 10);
             InequalityExpression (Num 0) (Num 10);
             InequalityExpression (Leaf x_) (Num 10) ]
  ∧ satisfies env (InequalityExpression (Num 0) (Num 10))
  ∧ satisfies env (InequalityExpression (Leaf x_) (Num 10))
  ∧ ¬ satisfies env (RangedExpression (Num 0) (Leaf x_) (Num 10)).
Proof.
  cbn zeta. split; [by vm_compute|]. split; [by vm_compute|].
  cbn [satisfies eval]. rewrite !decide_True by reflexivity.
  split; [lia|]. split; [lia|]. intros [Hlo _]. lia.
Qed.

(** C2, evaluated on the code: designating the fixed variable [y] on
    [example_model] builds a block on which no substitution has occurred
    (flag false, no shadow constraint list); a second [setup_sensitivity]
    call on it raises [RuntimeError] instead of tearing the block down, and
    [y] stays unfixed. *)
Theorem second_setup_on_unsubstituted_block_raises :
  example_after_setup_y.2 = Returned tt
  ∧ (_has_replaced_expressions
       <$> sens_block (model_instance example_after_setup_y.1)) = Some false
  ∧ (constList <$> sens_block (model_instance example_after_setup_y.1))
    = Some None
  ∧ setup_sensitivity (H := reference_host) [2%nat] example_after_setup_y.1
    = (example_after_setup_y.1, Raised RuntimeError)
  ∧ is_fixed (heap example_model) y_ = Some true
  ∧ is_fixed (heap (model_instance example_after_setup_y.1)) y_ = Some false.
Proof.
  split; [vm_compute; reflexivity|].
  split; [vm_compute; reflexivity|].
  split; [vm_compute; reflexivity|].
  split; [vm_compute; reflexivity|].
  split; vm_compute; reflexivity.
Qed.

(** ** Artifact relocation (lines 136-152) *)

Lemma makedirs_tolerant w :
  try_except os_makedirs_dsdp
             (fun e => match e with FileExistsError => true | _ => false end)
             (ret tt) w
  = ({| sens := sens w; fs := after_makedirs (fs w); log := log w |},
     Returned tt).
Proof.
  unfold try_except, os_makedirs_dsdp, after_makedirs, bind, get, raise, ret.
  destruct w as [sn [c [there|]] lg]; cbn; [reflexivity|].
  case_decide; reflexivity.
Qed.

Lemma shutil_move_movable src w :
  movable (fs w) src = true →
  shutil_move src w
  = ({| sens := sens w; fs := move_file (fs w) src;
        log := log w ++ [Move src] |}, Returned tt).
Proof.
  unfold movable, shutil_move, move_file, bind, emit, modify, get, modify_fs.
  destruct w as [sn [c [there|]] lg]; cbn; [|discriminate].
  intros [Hthere Hcwd]%andb_prop.
  apply bool_decide_eq_true in Hthere, Hcwd.
  destruct (decide (src ∈ there)); [done|].
  destruct (decide (src ∈ c)); [reflexivity | done].
Qed.

Lemma shutil_move_not_movable src w :
  movable (fs w) src = false →
  ∃ e, is_OSError e = true
       ∧ shutil_move src w
         = ({| sens := sens w; fs := fs w; log := log w ++ [Move src] |},
            Raised e).
Proof.
  unfold movable, shutil_move, bind, emit, modify, get, raise.
  destruct w as [sn [c [there|]] lg]; cbn.
  - intros Hm. destruct (decide (src ∈ there)); [by exists ShutilError|].
    destruct (decide (src ∈ c)); [|by exists FileNotFoundError].
    rewrite !bool_decide_eq_true_2 in Hm by done. discriminate.
  - intros _. destruct (decide (src ∈ c));
      [by exists NotADirectoryError | by exists FileNotFoundError].
Qed.

Lemma movable_move_file f src g :
  g ≠ src → movable (move_file f src) g = movable f g.
Proof.
  intros Hne. unfold movable, move_file. destruct f as [c [there|]]; cbn;
    [|reflexivity].
  rewrite (bool_decide_ext (g ∉ {[src]} ∪ there) (g ∉ there)).
  - rewrite (bool_decide_ext (g ∈ c ∖ {[src]}) (g ∈ c)); [done|].
    rewrite elem_of_difference, elem_of_singleton. tauto.
  - rewrite elem_of_union, elem_of_singleton. tauto.
Qed.

Lemma moves_all_movable l w :
  NoDup l →
  (∀ g, g ∈ l → movable (fs w) g = true) →
  forM_ shutil_move l w
  = ({| sens := sens w; fs := fold_left move_file l (fs w);
        log := log w ++ (Move <$> l) |}, Returned tt).
Proof.
  revert w. induction l as [|src l IH]; intros w Hnd Hmov.
  - cbn. rewrite app_nil_r. by destruct w.
  - apply NoDup_cons in Hnd as [Hsrc Hnd].
    cbn [forM_]. erewrite bind_run by (apply shutil_move_movable, Hmov; left).
    rewrite IH; [|done|]; cbn.
    + by rewrite <- app_assoc.
    + intros g Hg. rewrite movable_move_file; [apply Hmov; by right|].
      intros ->. done.
Qed.

Lemma movable_after_moves l f g :
  g ∉ l → movable (fold_left move_file l f) g = movable f g.
Proof.
  revert f. induction l as [|src l IH]; intros f Hg; [done|].
  cbn. rewrite IH by set_solver. apply movable_move_file. set_solver.
Qed.

Lemma cwd_after_moves l f g :
  g ∉ l → g ∈ cwd f → g ∈ cwd (fold_left move_file l f).
Proof.
  revert f. induction l as [|src l IH]; intros f Hg Hin; [done|].
  cbn. apply IH; [set_solver|]. cbn. set_solver.
Qed.

Lemma dsdp_artifacts_NoDup : NoDup dsdp_artifacts.
Proof. apply (bool_decide_unpack (NoDup dsdp_artifacts)). by vm_compute. Qed.

(** C10: the nine artifacts are moved in one fixed order inside one
    handled region.  When the files before [f] in that order can be moved
    and moving [f] raises, the relocation still returns normally; exactly
    the files before [f] have been moved and the move of [f] attempted; no
    move is attempted for any file after [f], and each of those that was in
    the working directory is still there. *)
Theorem relocation_stops_at_first_failure (w : World)
    (pre post : list string) (f : string) :
  dsdp_artifacts = pre ++ f :: post →
  (∀ g, g ∈ pre → movable (after_makedirs (fs w)) g = true) →
  movable (after_makedirs (fs w)) f = false →
  (relocate_artifacts w).2 = Returned tt
  ∧ log (relocate_artifacts w).1 = log w ++ (Move <$> (pre ++ [f]))
  ∧ fs (relocate_artifacts w).1
    = fold_left move_file pre (after_makedirs (fs w))
  ∧ ∀ g, g ∈ post →
         (Move g ∉ (Move <$> (pre ++ [f])))
         ∧ (g ∈ cwd (fs w) → g ∈ cwd (fs (relocate_artifacts w).1)).
Proof.
  intros Hsplit Hpre Hf.
  pose proof dsdp_artifacts_NoDup as Hnd. rewrite Hsplit in Hnd.
  apply NoDup_app in Hnd as (Hndpre & Hdisj & [Hfpost _]%NoDup_cons).
  set (w1 := {| sens := sens w; fs := after_makedirs (fs w); log := log w |}).
  assert (Hmoved := moves_all_movable pre w1 Hndpre Hpre).
  set (w2 := {| sens := sens w1; fs := fold_left move_file pre (fs w1);
                log := log w1 ++ (Move <$> pre) |}) in Hmoved.
  assert (movable (fs w2) f = false) as Hf2.
  { cbn. rewrite movable_after_moves; [done|].
    intros Hin. eapply Hdisj; [exact Hin | by left]. }
  destruct (shutil_move_not_movable f w2 Hf2) as (e & He & Hfail).
  assert (relocate_artifacts w
          = ({| sens := sens w2; fs := fs w2; log := log w2 ++ [Move f] |},
             Returned tt)) as Hrun.
  { unfold relocate_artifacts.
    erewrite bind_run by apply makedirs_tolerant. fold w1.
    unfold try_except. rewrite Hsplit, forM__app.
    erewrite bind_run by exact Hmoved.
    cbn [forM_]. erewrite bind_Raised by exact Hfail.
    rewrite He. reflexivity. }
  rewrite Hrun. cbn.
  split; [done|]. split; [by rewrite fmap_app, app_assoc|]. split; [done|].
  intros g Hg. split.
  - intros [g' [Heq Hin]]%list_elem_of_fmap. injection Heq as <-.
    apply elem_of_app in Hin as [Hin|Hin%list_elem_of_singleton].
    + eapply Hdisj; [exact Hin|]. by right.
    + subst. done.
  - intros Hin. apply cwd_after_moves.
    + intros Hin'. eapply Hdisj; [exact Hin'|]. by right.
    + unfold after_makedirs. destruct (dsdp (fs w)); [done|].
      by case_decide.
Qed.

(** With [col_row.nl] missing, [dsdp_in_.in] is moved and [col_row.col],
    although present, stays in the working directory. *)
Lemma relocation_stops_at_first_failure_witness :
  let w := {| sens := SensitivityInterface_init example_model false;
              fs := {| cwd := {["dsdp_in_.in"; "col_row.col"]};
                       dsdp := None |};
              log := [] |} in
  (relocate_artifacts w).2 = Returned tt
  ∧ log (relocate_artifacts w).1 = [Move "dsdp_in_.in"; Move "col_row.nl"]
  ∧ "col_row.col" ∈ cwd (fs (relocate_artifacts w).1).
Proof.
  intros w.
  destruct (relocation_stops_at_first_failure w
              ["dsdp_in_.in"] (drop 2 dsdp_artifacts) "col_row.nl")
    as (Hret & Hlog & _ & Hpost).
  - reflexivity.
  - intros g ->%list_elem_of_singleton. by vm_compute.
  - by vm_compute.
  - split; [exact Hret|]. split; [exact Hlog|].
    apply (Hpost "col_row.col").
    + cbn. left.
    + cbn. set_solver.
Defined.

(** ** Annotation slots *)

Lemma suffix_get_insert_eq (sfx : gmap string Suffix) name k v :
  is_Some (sfx !! name) →
  suffix_lookup (alter (suffix_insert k v) name sfx) name k = Some v.
Proof.
  intros [s Hs]. unfold suffix_lookup. rewrite lookup_alter_eq, Hs. cbn. apply lookup_insert_eq.
Qed.

Lemma suffix_get_insert_ne (sfx : gmap string Suffix) name k v name' k' :
  name ≠ name' ∨ k ≠ k' →
  suffix_lookup (alter (suffix_insert k v) name sfx) name' k'
  = suffix_lookup sfx name' k'.
Proof.
  intros Hne. unfold suffix_lookup. destruct (decide (name = name')) as [<-|Hn].
  - destruct Hne as [|Hk]; [done|].
    rewrite lookup_alter_eq. destruct (sfx !! name) as [s|]; cbn; [|done].
    by rewrite lookup_insert_ne.
  - by rewrite lookup_alter_ne.
Qed.

Lemma suffix_present_alter (sfx : gmap string Suffix) f name name' :
  is_Some (alter f name sfx !! name') ↔ is_Some (sfx !! name').
Proof.
  destruct (decide (name = name')) as [<-|Hn].
  - rewrite lookup_alter_eq. by rewrite fmap_is_Some.
  - by rewrite lookup_alter_ne.
Qed.

Lemma add_suffix_present m entry name :
  is_Some (suffixes (add_suffix m entry) !! name)
  ↔ name = entry.1 ∨ is_Some (suffixes m !! name).
Proof.
  unfold add_suffix. destruct (suffixes m !! entry.1) as [s0|] eqn:Hs; cbn.
  - split; [by right|]. intros [->|]; [by rewrite Hs | done].
  - destruct (decide (name = entry.1)) as [->|Hn].
    + rewrite lookup_insert_eq. split; [by left | by eauto].
    + rewrite lookup_insert_ne by done. split; [by right|]. by intros [|].
Qed.

Lemma add_suffixes_present l m name :
  is_Some (suffixes (fold_left add_suffix l m) !! name)
  ↔ name ∈ l.*1 ∨ is_Some (suffixes m !! name).
Proof.
  revert m. induction l as [|e l IH]; intros m; cbn.
  - rewrite elem_of_nil. tauto.
  - rewrite IH, add_suffix_present, elem_of_cons. tauto.
Qed.

Lemma add_suffixes_frame l m :
  heap (fold_left add_suffix l m) = heap m
  ∧ objectives (fold_left add_suffix l m) = objectives m
  ∧ constraints (fold_left add_suffix l m) = constraints m
  ∧ sens_block (fold_left add_suffix l m) = sens_block m
  ∧ blocks_made (fold_left add_suffix l m) = blocks_made m.
Proof.
  revert m. induction l as [|e l IH]; intros m; cbn; [done|].
  destruct (IH (add_suffix m e)) as (-> & -> & -> & -> & ->).
  unfold add_suffix. by destruct (suffixes m !! e.1).
Qed.

(** Every slot the toolbox writes exists once the suffixes are declared. *)
Lemma sensitivity_suffixes_present m name :
  name ∈ (_SIPOPT_SUFFIXES ++ _K_AUG_SUFFIXES).*1 →
  is_Some (suffixes (_add_sensitivity_suffixes m) !! name).
Proof. intros Hin. apply add_suffixes_present. by left. Qed.

Section Stamping.
Context `{PyomoHost}.

Lemma suffix_setitem_run name k v self :
  is_Some (suffixes (model_instance self) !! name) →
  suffix_setitem name k v self
  = (update_instance (with_suffixes (alter (suffix_insert k v) name)) self,
     Returned tt).
Proof.
  intros [s Hs]. unfold suffix_setitem, bind, get_instance. by rewrite Hs.
Qed.

Lemma paramConst_getitem_run self blk l i :
  block_bound self = true →
  sens_block (model_instance self) = Some blk →
  paramConst blk = Some l →
  (i < length l)%nat →
  paramConst_getitem (i + 1) self
  = (self, Returned (PinKey (serial blk) (i + 1))).
Proof.
  intros Hb Hblk Hl Hi. unfold paramConst_getitem, bind, get_block.
  rewrite Hb, Hblk, Hl. cbn.
  replace (i + 1 - 1)%nat with i by lia.
  destruct (lookup_lt_is_Some_2 l i Hi) as [c ->].
  replace (i + 1 =? 0)%nat with false by (symmetry; apply Nat.eqb_neq; lia).
  reflexivity.
Qed.

Lemma stamp_run self blk l i d :
  block_bound self = true →
  sens_block (model_instance self) = Some blk →
  paramConst blk = Some l →
  (i < length l)%nat →
  stamp_slots_present (suffixes (model_instance self)) →
  stamp (i, d) self
  = (update_instance
       (with_suffixes (fun sfx => stamp_suffixes (serial blk) sfx (i, d)))
       self, Returned tt).
Proof.
  intros Hb Hblk Hl Hi (H0 & H1 & H2 & H3).
  destruct d as [[[var param] li] ci]. unfold stamp.
  erewrite bind_run by (eapply paramConst_getitem_run; eauto).
  erewrite bind_run by (by apply suffix_setitem_run).
  erewrite bind_run
    by (apply suffix_setitem_run; cbn; by apply suffix_present_alter).
  erewrite bind_run
    by (apply suffix_setitem_run; cbn; by do 2 apply suffix_present_alter).
  rewrite suffix_setitem_run
    by (cbn; by do 3 apply suffix_present_alter).
  destruct self as [o m b]. destruct m. reflexivity.
Qed.

Lemma stamp_suffixes_present blk_serial sfx e :
  stamp_slots_present sfx →
  stamp_slots_present (stamp_suffixes blk_serial sfx e).
Proof.
  destruct e as [i [[[var param] li] ci]].
  unfold stamp_slots_present, stamp_suffixes.
  rewrite !suffix_present_alter. tauto.
Qed.

Lemma stamp_loop_run self blk l records start :
  block_bound self = true →
  sens_block (model_instance self) = Some blk →
  paramConst blk = Some l →
  (start + length records ≤ length l)%nat →
  stamp_slots_present (suffixes (model_instance self)) →
  forM_ stamp (enumerate_from start records) self
  = (update_instance
       (with_suffixes (fun sfx =>
          fold_left (stamp_suffixes (serial blk)) (enumerate_from start records)
                    sfx)) self, Returned tt).
Proof.
  revert self start.
  induction records as [|d records IH]; intros self start Hb Hblk Hl Hlen Hs.
  - cbn. destruct self as [o m b]. by destruct m.
  - cbn [enumerate_from forM_ fold_left].
    erewrite bind_run by (eapply stamp_run; eauto; cbn in Hlen; lia).
    rewrite (IH _ (S start));
      [ | done | done | done | cbn in Hlen; lia
        | by apply stamp_suffixes_present ].
    destruct self as [o m b]. by destruct m.
Qed.

End Stamping.

Lemma enumerate_snoc {A} (l : list A) x :
  enumerate (l ++ [x]) = enumerate l ++ [(length l, x)].
Proof. unfold enumerate. by rewrite enumerate_from_app. Qed.

(** The slots after all records have been stamped: the slots keyed by the
    pinning constraints hold the record's 1-based position; a slot keyed by
    a free entity holds the position of the last record with that entity. *)
Lemma stamped_slots blk_serial records sfx i d :
  stamp_slots_present sfx →
  records !! i = Some d →
  let sfx' := fold_left (stamp_suffixes blk_serial) (enumerate records) sfx in
  suffix_lookup sfx' "dcdp" (PinKey blk_serial (i + 1)) = Some (Z.of_nat (i + 1))
  ∧ suffix_lookup sfx' "sens_init_constr" (PinKey blk_serial (i + 1))
    = Some (Z.of_nat (i + 1))
  ∧ ((∀ j d', (i < j)%nat → records !! j = Some d' →
              free_entity d' ≠ free_entity d) →
     suffix_lookup sfx' "sens_state_0" (DataKey (free_entity d))
     = Some (Z.of_nat (i + 1))
     ∧ suffix_lookup sfx' "sens_state_1" (DataKey (free_entity d))
       = Some (Z.of_nat (i + 1))).
Proof.
  intros Hs. revert i d.
  induction records as [|e records IH] using rev_ind; intros i d Hi; [done|].
  cbn zeta. rewrite enumerate_snoc, fold_left_app. cbn [fold_left].
  set (sfx1 := fold_left (stamp_suffixes blk_serial) (enumerate records) sfx).
  assert (stamp_slots_present sfx1) as (H0 & H1 & H2 & H3).
  { subst sfx1. clear IH Hi. generalize (enumerate records).
    intros l. revert sfx Hs. induction l as [|x l IHl]; intros sfx Hs; [done|].
    cbn. apply IHl. by apply stamp_suffixes_present. }
  destruct e as [[[var param] li] ci]. unfold stamp_suffixes.
  destruct (decide (i = length records)) as [->|Hne].
  - rewrite lookup_app_r, Nat.sub_diag in Hi by done. injection Hi as <-.
    split; [|split].
    + apply suffix_get_insert_eq. by do 3 apply suffix_present_alter.
    + rewrite suffix_get_insert_ne by (by left).
      apply suffix_get_insert_eq. by do 2 apply suffix_present_alter.
    + intros _. split.
      * rewrite !suffix_get_insert_ne by (by left).
        by apply suffix_get_insert_eq.
      * rewrite !suffix_get_insert_ne by (by left).
        apply suffix_get_insert_eq. by apply suffix_present_alter.
  - assert (i < length records)%nat as Hlt.
    { apply lookup_lt_Some in Hi. rewrite length_app in Hi. cbn in Hi. lia. }
    rewrite lookup_app_l in Hi by done.
    destruct (IH i d Hi) as (IH1 & IH2 & IH3). fold sfx1 in IH1, IH2, IH3.
    split; [|split].
    + rewrite !suffix_get_insert_ne; [done|by left..| |];
        right; intros [=]; lia.
    + rewrite !suffix_get_insert_ne; [done|by left..| | |];
        try (by left); right; intros [=]; lia.
    + intros Hlast.
      assert (var ≠ free_entity d) as Hvar.
      { apply (Hlast (length records) (var, param, li, ci)); [done|].
        by rewrite lookup_app_r, Nat.sub_diag. }
      destruct IH3 as [IH3 IH4].
      { intros j d' Hj Hd'. apply (Hlast j d' Hj).
        rewrite lookup_app_l; [done|]. by apply lookup_lt_Some in Hd'. }
      split.
      * rewrite !suffix_get_insert_ne; [done|..]; try (by left).
        right. congruence.
      * rewrite !suffix_get_insert_ne; [done|..]; try (by left).
        right. congruence.
Qed.

(** ** The component heap *)

Lemma values_cell_store s idx :
  values_cell (store_values s) idx = val <$> store_cell s idx.
Proof.
  destruct s as [c|d], idx as [k|]; cbn; try done. by rewrite lookup_fmap.
Qed.

Lemma store_values_alter_fixed b s idx :
  store_values (store_alter (fun c => {| val := val c; fixed := b |}) s idx)
  = store_values s.
Proof.
  destruct s as [c|d], idx as [k|]; cbn; try done. f_equal.
  apply map_eq. intros k'. rewrite !lookup_fmap.
  destruct (decide (k = k')) as [<-|Hne].
  - rewrite lookup_alter_eq. by destruct (d !! k).
  - by rewrite lookup_alter_ne.
Qed.

Lemma store_values_new_store s : store_values (new_store s) = store_values s.
Proof.
  destruct s as [c|d]; cbn; [done|]. f_equal.
  apply map_eq. intros k. rewrite !lookup_fmap. by destruct (d !! k).
Qed.

Lemma view_set_fixed b r h : view (set_fixed b r h) = view h.
Proof.
  unfold view, set_fixed. apply list_eq. intros i.
  rewrite !list_lookup_fmap.
  destruct (decide (r.1 = i)) as [<-|Hne].
  - rewrite list_lookup_alter_eq. destruct (h !! r.1) as [comp|]; cbn; [|done].
    unfold view_of; cbn. by rewrite store_values_alter_fixed.
  - by rewrite list_lookup_alter_ne.
Qed.

Lemma view_unfix_all records h : view (unfix_all records h) = view h.
Proof.
  unfold unfix_all. revert h.
  induction records as [|[[[var param] li] ci] records IH]; intros h; [done|].
  cbn. by rewrite IH, view_set_fixed.
Qed.

Lemma value_view h r :
  value h r = view h !! r.1 ≫= fun cv => values_cell cv.2 r.2.
Proof.
  unfold value, cell_at, view. rewrite list_lookup_fmap.
  destruct (h !! r.1) as [comp|]; cbn; [|done].
  by rewrite values_cell_store.
Qed.

Lemma value_same_view h h' r : view h = view h' → value h r = value h' r.
Proof. intros Hv. by rewrite !value_view, Hv. Qed.

Lemma is_fixed_value h r : is_Some (is_fixed h r) ↔ is_Some (value h r).
Proof. unfold is_fixed, value. by rewrite !fmap_is_Some. Qed.

Lemma is_fixed_set_fixed_eq b r h :
  is_Some (value h r) → is_fixed (set_fixed b r h) r = Some b.
Proof.
  unfold value, is_fixed, cell_at, set_fixed. rewrite fmap_is_Some.
  rewrite list_lookup_alter_eq.
  destruct (h !! r.1) as [comp|]; cbn; [|by intros [? ?]].
  destruct (store comp) as [c|d], r.2 as [k|]; cbn; try (by intros [? ?]).
  rewrite lookup_alter_eq. by intros [c ->].
Qed.

Lemma is_fixed_set_fixed_same b r h r' :
  is_fixed h r' = Some b → is_fixed (set_fixed b r h) r' = Some b.
Proof.
  unfold is_fixed, cell_at, set_fixed.
  destruct (decide (r.1 = r'.1)) as [Heq|Hne].
  - rewrite <- Heq, list_lookup_alter_eq.
    destruct (h !! r.1) as [comp|]; cbn; [|done].
    destruct (store comp) as [c|d], r.2 as [k|], r'.2 as [k'|]; cbn; try done.
    destruct (decide (k = k')) as [<-|Hk];
      [ rewrite lookup_alter_eq; by destruct (d !! k)
      | by rewrite lookup_alter_ne ].
  - by rewrite list_lookup_alter_ne.
Qed.

Lemma unfix_all_keeps records h r :
  is_fixed h r = Some false → is_fixed (unfix_all records h) r = Some false.
Proof.
  unfold unfix_all. revert h.
  induction records as [|[[[v p] li] ci] l IHl]; intros h Hf; [done|].
  cbn. apply IHl. by apply is_fixed_set_fixed_same.
Qed.

Lemma unfix_all_unfixes records h d :
  d ∈ records →
  is_Some (value h (free_entity d)) →
  is_fixed (unfix_all records h) (free_entity d) = Some false.
Proof.
  revert h.
  induction records as [|[[[var param] li] ci] records IH]; intros h Hin Hv;
    [by apply elem_of_nil in Hin|].
  change (unfix_all ((var, param, li, ci) :: records) h)
    with (unfix_all records (set_fixed false var h)).
  destruct (decide (d = (var, param, li, ci))) as [->|Hne].
  - apply unfix_all_keeps. by apply is_fixed_set_fixed_eq.
  - apply elem_of_cons in Hin as [|Hin]; [done|]. apply IH; [done|].
    erewrite value_same_view; [exact Hv|]. apply view_set_fixed.
Qed.

Lemma elem_of_item_indices comp idx :
  idx ∈ item_indices comp ↔ is_Some (store_cell (store comp) idx).
Proof.
  unfold item_indices, is_indexed, index_set, sorted_robust.
  destruct (store comp) as [c|d]; cbn.
  - rewrite list_elem_of_singleton. destruct idx; cbn.
    + split; [done | by intros [? ?]].
    + split; [by eauto | done].
  - rewrite list_elem_of_fmap. split.
    + intros (k & -> & Hk). cbn.
      rewrite merge_sort_Permutation, elem_of_elements in Hk.
      by apply elem_of_dom.
    + destruct idx as [k|]; cbn; [|by intros [? ?]].
      intros Hk. exists k. split; [done|].
      rewrite merge_sort_Permutation, elem_of_elements.
      by apply elem_of_dom.
Qed.

Lemma elem_of_new_records i comp free param d :
  d ∈ new_records i comp free param
  ↔ ∃ idx, is_Some (store_cell (store comp) idx)
           ∧ d = (free idx, param idx, i, idx).
Proof.
  unfold new_records. rewrite list_elem_of_fmap. split.
  - intros (idx & -> & Hin). exists idx. by rewrite <- elem_of_item_indices.
  - intros (idx & Hs & ->). exists idx. by rewrite elem_of_item_indices.
Qed.

Lemma generate_items_indices cid comp :
  _generate_component_items cid comp
  = (fun idx => (idx, (cid, idx))) <$> item_indices comp.
Proof.
  unfold _generate_component_items, item_indices.
  destruct (is_indexed comp); [|done].
  by rewrite <- list_fmap_compose.
Qed.

(** ** The planner loop (lines 224-275) *)

Section Planner.
Context `{PyomoHost}.

Lemma fixed_check_run (h : list Component) cid comp l
    (s : SensitivityInterface) :
  h !! cid = Some comp →
  let check := fun '((_, data) : index * ref) =>
    match is_fixed h data with
    | Some true => ret tt
    | Some false => raise ValueError
    | None => raise KeyError
    end in
  (forM_ check ((fun idx => (idx, (cid, idx))) <$> l) s).1 = s
  ∧ ((forM_ check ((fun idx => (idx, (cid, idx))) <$> l) s).2 = Returned tt
     ↔ ∀ idx, idx ∈ l → fixed <$> store_cell (store comp) idx = Some true).
Proof.
  intros Hcomp check.
  induction l as [|idx l (IH1 & IH2)]; cbn [fmap list_fmap forM_].
  - split; [done|]. split; [|done]. intros _ ? Hin.
    by apply elem_of_nil in Hin.
  - unfold bind. subst check. cbn beta iota.
    assert (is_fixed h (cid, idx) = fixed <$> store_cell (store comp) idx)
      as ->.
    { unfold is_fixed, cell_at. cbn. by rewrite Hcomp. }
    destruct (fixed <$> store_cell (store comp) idx) as [[]|] eqn:Hfx; cbn.
    + split; [exact IH1|]. rewrite IH2. split.
      * intros Hall idx' [->|Hin]%elem_of_cons; [done | by apply Hall].
      * intros Hall idx' Hin. apply Hall. by right.
    + split; [done|]. split; [done|].
      intros Hall. specialize (Hall idx (list_elem_of_here _ _)). congruence.
    + split; [done|]. split; [done|].
      intros Hall. specialize (Hall idx (list_elem_of_here _ _)). congruence.
Qed.


Lemma param_records_eq i cid comp v :
  (if is_indexed comp
   then (fun '(idx, param) => ((v, idx), param, i, idx))
          <$> _generate_component_items cid comp
   else [((v, _NotAnIndex), (cid, _NotAnIndex), i, _NotAnIndex)])
  = new_records i comp (fun idx => (v, idx)) (fun idx => (cid, idx)).
Proof.
  unfold new_records, item_indices, _generate_component_items.
  destruct (is_indexed comp); [|done].
  by rewrite <- !list_fmap_compose.
Qed.

Lemma var_records_eq i cid comp p :
  (if is_indexed comp
   then (fun '(idx, var) => (var, (p, idx), i, idx))
          <$> _generate_component_items cid comp
   else [((cid, _NotAnIndex), (p, _NotAnIndex), i, _NotAnIndex)])
  = new_records i comp (fun idx => (cid, idx)) (fun idx => (p, idx)).
Proof.
  unfold new_records, item_indices, _generate_component_items.
  destruct (is_indexed comp); [|done].
  by rewrite <- !list_fmap_compose.
Qed.

Lemma plan_entry_cases i r s blk :
  block_bound s = true →
  sens_block (model_instance s) = Some blk →
  ((plan_entry (i, r) s).1 = s
   ∧ is_raised (plan_entry (i, r) s).2 = true
   ∧ ∀ cid, r = Some cid → ¬ acceptable (heap (model_instance s)) cid)
  ∨ (∃ cid comp s',
       r = Some cid
       ∧ heap (model_instance s) !! cid = Some comp
       ∧ acceptable (heap (model_instance s)) cid
       ∧ plan_entry (i, r) s = (s', Returned tt)
       ∧ planned i cid comp blk s s').
Proof.
  intros Hb Hblk. unfold plan_entry.
  unfold bind at 1, get_instance at 1.
  destruct r as [cid|]; cbn;
    [|left; split; [done|]; split; [done|]; by intros ? [=]].
  destruct (heap (model_instance s) !! cid) as [comp|] eqn:Hcomp.
  2:{ left. split; [done|]. split; [done|]. intros ? [= <-] (c & Hc & _).
      congruence. }
  destruct (ctype comp) eqn:Ht.
  - destruct (mutable comp) eqn:Hmu; cbn [negb].
    + right. eexists cid, comp, _. split; [done|]. split; [done|].
      split. { exists comp. split; [done|]. split; [by intros _|]. congruence. }
      split.
      { unfold bind, get_block, add_component, get_instance, modify_instance,
          modify_block, modify, ret. rewrite Hb, Hblk. cbn. reflexivity. }
      rewrite param_records_eq. unfold planned. rewrite Ht.
      destruct s as [o m b]. destruct m. cbn in *. subst. cbn.
      split; [reflexivity|].
      eexists _, _, _, _. split; [reflexivity|]. split; [reflexivity|].
      split; [reflexivity|]. split; [by intros []|]. split; [|reflexivity].
      unfold view_of. cbn. by rewrite store_values_new_store.
    + left. split; [done|]. split; [done|]. intros ? [= <-] (c & Hc & Hp & _).
      rewrite Hcomp in Hc. injection Hc as <-. specialize (Hp Ht). congruence.
  - pose proof (fixed_check_run (heap (model_instance s)) cid comp
                  (item_indices comp) s Hcomp) as [Hst Hret].
    cbn zeta in Hst, Hret. rewrite <- generate_items_indices in Hst, Hret.
    match type of Hst with
    | context [forM_ ?f ?l s] => destruct (forM_ f l s) as [s1 o] eqn:Hrun
    end.
    cbn in Hst, Hret. subst s1.
    assert (o = Returned tt
            ↔ ∀ idx c, store_cell (store comp) idx = Some c → fixed c = true)
      as Hall.
    { rewrite Hret. split.
      - intros Hfx idx c Hc.
        specialize (Hfx idx (proj2 (elem_of_item_indices comp idx)
                                   (mk_is_Some _ _ Hc))).
        rewrite Hc in Hfx. by injection Hfx.
      - intros Hfx idx [c Hc]%elem_of_item_indices.
        rewrite Hc. cbn. f_equal. by eapply Hfx. }
    destruct o as [[]|e].
    + right. eexists cid, comp, _. split; [done|]. split; [done|].
      split.
      { exists comp. split; [done|]. split; [congruence|].
        intros _. by apply Hall. }
      split.
      { erewrite bind_run by exact Hrun. unfold bind, get_block, add_component, get_instance, modify_instance,
          modify_block, modify, ret. rewrite Hb, Hblk. cbn. reflexivity. }
      rewrite var_records_eq. unfold planned. rewrite Ht.
      destruct s as [o m b]. destruct m. cbn in *. subst. cbn.
      split; [reflexivity|].
      eexists _, _, _, _. split; [reflexivity|]. split; [reflexivity|].
      split; [reflexivity|]. split; [by intros []|]. split; [|reflexivity].
      unfold view_of. cbn. by rewrite store_values_new_store.
    + left. erewrite bind_Raised by exact Hrun.
      split; [done|]. split; [done|]. intros ? [= <-] (c & Hc & _ & Hv).
      rewrite Hcomp in Hc. injection Hc as <-.
      specialize (Hv Ht). apply Hall in Hv. discriminate.
  - right. exists cid, comp, s. split; [done|]. split; [done|].
    split. { exists comp. split; [done|]. split; congruence. }
    split; [done|]. unfold planned. by rewrite Ht.
Qed.

Lemma record_ok_app n0 vw added resolved d :
  record_ok n0 vw resolved d → record_ok n0 (vw ++ added) resolved d.
Proof.
  destruct d as [[[var param] li] ci].
  intros (cid & t & mu & sv & Hres & Hcid & Hsome & Hcase).
  exists cid, t, mu, sv. split; [done|].
  split; [by apply lookup_app_l_Some|]. split; [done|].
  destruct Hcase as [(-> & -> & v & -> & Hn & Hv)|(-> & -> & p & -> & Hn & Hp)].
  - left. split; [done|]. split; [done|]. exists v.
    split; [done|]. split; [done|]. by apply lookup_app_l_Some.
  - right. split; [done|]. split; [done|]. exists p.
    split; [done|]. split; [done|]. by apply lookup_app_l_Some.
Qed.

Lemma plan_frame_step s0 s e :
  plan_frame s0 s → plan_frame s0 (plan_entry e s).1.
Proof.
  intros (Hb & Hsh & [added Hheap] & blk & Hblk & Hmem). destruct e as [i r].
  destruct (plan_entry_cases i r s blk Hb Hblk)
    as [(-> & _)|(cid & comp & s' & -> & Hcomp & _ & -> & Hsh' & Hpl)].
  { by repeat split; eauto. }
  cbn [fst].
  assert (block_bound s' = true) as Hb'.
  { unfold shell in Hsh'. congruence. }
  destruct (ctype comp).
  1,2: destruct Hpl as (newc & blk' & name & mem & Hh' & Hblk' & Hm' & Hno & _).
  1,2: split; [done|]; split; [congruence|]; split;
    [ exists (added ++ [newc]); by rewrite Hh', Hheap, app_assoc
    | exists blk'; split; [done|]; rewrite Hm'; apply Forall_app;
      split; [done | by apply Forall_singleton] ].
  subst s'. by repeat split; eauto.
Qed.

Lemma forM__invariant {S A} (P : S → Prop) (body : A → M S unit) l s :
  (∀ x s, P s → P (body x s).1) → P s → P (forM_ body l s).1.
Proof.
  intros Hstep. revert s. induction l as [|x l IH]; intros s Hs; [done|].
  cbn [forM_]. unfold bind. specialize (Hstep x s Hs).
  destruct (body x s) as [s1 [[]|e]]; [by apply IH | done].
Qed.

Lemma plan_loop_frame s0 s l :
  plan_frame s0 s → plan_frame s0 (forM_ plan_entry l s).1.
Proof.
  apply forM__invariant. intros x s1. apply plan_frame_step.
Qed.

Lemma covered_step n0 vw w resolved n records added cid t mu sv :
  covered n0 vw resolved n records →
  resolved !! n = Some (Some cid) →
  vw !! cid = Some (t, mu, sv) →
  match t with
  | Param =>
      w = (Var, false, sv)
      ∧ ∀ idx, is_Some (values_cell sv idx) →
               ((length vw, idx), (cid, idx), n, idx) ∈ added
  | Var =>
      w = (Param, true, sv)
      ∧ ∀ idx, is_Some (values_cell sv idx) →
               ((cid, idx), (length vw, idx), n, idx) ∈ added
  | OtherComponent => True
  end →
  (n0 ≤ length vw)%nat →
  covered n0 (vw ++ [w]) resolved (S n) (records ++ added).
Proof.
  intros Hcov Hr Hvc Hnew Hn0 i cid' Hi Hres.
  assert (cid < length vw)%nat as Hlt by (by apply lookup_lt_Some in Hvc).
  rewrite length_app. cbn.
  destruct (decide (i = n)) as [->|Hne].
  - rewrite Hr in Hres. injection Hres as <-. split; [lia|].
    intros t' mu' sv' Hv. rewrite lookup_app_l, Hvc in Hv by done.
    injection Hv as <- <- <-.
    destruct t; [| |done]; destruct Hnew as [-> Hin]; exists (length vw);
      (split; [done|]); (split; [by rewrite lookup_app_r, Nat.sub_diag|]);
      intros idx Hidx; apply elem_of_app; right; by apply Hin.
  - destruct (Hcov i cid') as [Hlt' Hc]; [lia|done|]. split; [lia|].
    intros t' mu' sv' Hv. rewrite lookup_app_l in Hv by done.
    specialize (Hc t' mu' sv' Hv).
    destruct t'; [| |done]; destruct Hc as (x & Hx & Hvx & Hin); exists x;
      (split; [done|]); (split; [by apply lookup_app_l_Some|]);
      intros idx Hidx; apply elem_of_app; left; by apply Hin.
Qed.

Lemma plan_inv_step n0 resolved n r s s' :
  resolved !! n = Some r →
  block_bound s = true →
  plan_inv n0 resolved n s →
  plan_entry (n, r) s = (s', Returned tt) →
  plan_inv n0 resolved (S n) s'.
Proof.
  intros Hr Hb (Hn0 & blk & Hblk & Hrec & Hcov) Hrun.
  destruct (plan_entry_cases n r s blk Hb Hblk)
    as [(_ & Hraised & _)|(cid & comp & s1 & -> & Hcomp & _ & Hrun1 & _ & Hpl)].
  { rewrite Hrun in Hraised. discriminate. }
  rewrite Hrun in Hrun1. injection Hrun1 as <-.
  assert (view (heap (model_instance s)) !! cid = Some (view_of comp)) as Hvc.
  { unfold view. by rewrite list_lookup_fmap, Hcomp. }
  assert (cid < length (view (heap (model_instance s))))%nat as Hlt.
  { by apply lookup_lt_Some in Hvc. }
  assert (length (view (heap (model_instance s)))
          = length (heap (model_instance s))) as Hlenv.
  { unfold view. by rewrite length_fmap. }
  destruct (ctype comp) eqn:Ht.
  3:{ subst s'. split; [done|]. exists blk. split; [done|]. split; [done|].
      intros i cid' Hi Hres.
      destruct (decide (i = n)) as [->|Hne]; [|apply Hcov; [lia|done]].
      rewrite Hr in Hres. injection Hres as <-. split; [done|].
      intros t mu sv Hv. rewrite Hvc in Hv.
      unfold view_of in Hv. injection Hv as <- _ _. by rewrite Ht. }
  all: destruct Hpl as (newc & blk' & name & mem & Hh' & Hblk' & _ & _ & Hview
                        & Hrecs').
  all: split; [rewrite Hh', length_app; lia|].
  all: exists blk'; split; [done|].
  all: assert (view (heap (model_instance s'))
               = view (heap (model_instance s)) ++ [view_of newc]) as Hv'
         by (unfold view; by rewrite Hh', fmap_app).
  all: rewrite Hv', Hrecs'; split.
  - apply Forall_app. split.
    + eapply Forall_impl; [exact Hrec|]. intros d. apply record_ok_app.
    + apply Forall_forall. intros d (idx & Hidx & ->)%elem_of_new_records.
      exists cid, Param, (mutable comp), (store_values (store comp)).
      split; [done|]. split.
      { apply lookup_app_l_Some. rewrite Hvc. unfold view_of. by rewrite Ht. }
      split. { by rewrite values_cell_store, fmap_is_Some. }
      left. split; [done|]. split; [done|].
      exists (length (heap (model_instance s))). split; [done|].
      split; [done|].
      rewrite <- Hlenv, lookup_app_r, Nat.sub_diag by done. cbn.
      by rewrite Hview.
  - eapply covered_step; [done|done| |rewrite Hview|lia].
    { rewrite Hvc. unfold view_of. by rewrite Ht. }
    split; [done|]. intros idx Hidx. rewrite Hlenv.
    apply elem_of_new_records. exists idx. split; [|done].
    by rewrite values_cell_store, fmap_is_Some in Hidx.
  - apply Forall_app. split.
    + eapply Forall_impl; [exact Hrec|]. intros d. apply record_ok_app.
    + apply Forall_forall. intros d (idx & Hidx & ->)%elem_of_new_records.
      exists cid, Var, (mutable comp), (store_values (store comp)).
      split; [done|]. split.
      { apply lookup_app_l_Some. rewrite Hvc. unfold view_of. by rewrite Ht. }
      split. { by rewrite values_cell_store, fmap_is_Some. }
      right. split; [done|]. split; [done|].
      exists (length (heap (model_instance s))). split; [done|].
      split; [done|].
      rewrite <- Hlenv, lookup_app_r, Nat.sub_diag by done. cbn.
      by rewrite Hview.
  - eapply covered_step; [done|done| |rewrite Hview|lia].
    { rewrite Hvc. unfold view_of. by rewrite Ht. }
    split; [done|]. intros idx Hidx. rewrite Hlenv.
    apply elem_of_new_records. exists idx. split; [|done].
    by rewrite values_cell_store, fmap_is_Some in Hidx.
Qed.

Lemma plan_entry_bound e s :
  block_bound s = true →
  is_Some (sens_block (model_instance s)) →
  block_bound (plan_entry e s).1 = true
  ∧ is_Some (sens_block (model_instance (plan_entry e s).1))
  ∧ ∃ added, heap (model_instance (plan_entry e s).1)
             = heap (model_instance s) ++ added.
Proof.
  intros Hb [blk Hblk]. destruct e as [i r].
  destruct (plan_entry_cases i r s blk Hb Hblk)
    as [(-> & _)|(cid & comp & s' & -> & Hcomp & _ & -> & Hsh' & Hpl)].
  { split; [done|]. split; [by eauto|]. exists []. by rewrite app_nil_r. }
  cbn [fst]. split; [unfold shell in Hsh'; congruence|].
  destruct (ctype comp).
  1,2: destruct Hpl as (newc & blk' & name & mem & Hh' & Hblk' & _).
  1,2: split; [by eauto|]; by exists [newc].
  subst s'. split; [by eauto|]. exists []. by rewrite app_nil_r.
Qed.

Lemma plan_loop_inv n0 resolved n s s' :
  block_bound s = true →
  plan_inv n0 resolved n s →
  forM_ plan_entry (enumerate_from n (drop n resolved)) s = (s', Returned tt) →
  plan_inv n0 resolved (length resolved) s'.
Proof.
  remember (drop n resolved) as l eqn:Hl.
  revert n s Hl. induction l as [|r l IH]; intros n s Hl Hb Hinv Hrun.
  - cbn in Hrun. injection Hrun as <-.
    assert (length resolved ≤ n)%nat as Hge.
    { apply (f_equal length) in Hl. rewrite length_drop in Hl. cbn in Hl. lia. }
    destruct Hinv as (Hn0 & blk & Hblk & Hrec & Hcov). split; [done|].
    exists blk. split; [done|]. split; [done|].
    intros i cid Hi Hres. apply Hcov; [lia|done].
  - cbn [enumerate_from forM_] in Hrun.
    apply bind_Returned in Hrun as (s1 & [] & Hstep & Hrest).
    assert (resolved !! n = Some r) as Hr.
    { rewrite <- (Nat.add_0_r n), <- lookup_drop, <- Hl. done. }
    assert (l = drop (S n) resolved) as Hl'.
    { rewrite (drop_S _ _ _ Hr) in Hl. by injection Hl. }
    apply (IH (S n) s1 Hl'); [| |done].
    + destruct Hinv as (_ & blk & Hblk & _).
      pose proof (plan_entry_bound (n, r) s Hb (mk_is_Some _ _ Hblk)) as [Hb1 _].
      by rewrite Hstep in Hb1.
    + by eapply plan_inv_step.
Qed.

Lemma acceptable_app h added cid :
  (cid < length h)%nat → acceptable (h ++ added) cid ↔ acceptable h cid.
Proof.
  intros Hlt. unfold acceptable. by rewrite lookup_app_l.
Qed.

Lemma plan_loop_success h0 l n s :
  block_bound s = true →
  is_Some (sens_block (model_instance s)) →
  (∃ added, heap (model_instance s) = h0 ++ added) →
  Forall (fun cid => cid < length h0)%nat l →
  (forM_ plan_entry (enumerate_from n (Some <$> l)) s).2 = Returned tt
  ↔ Forall (acceptable h0) l.
Proof.
  revert n s. induction l as [|cid l IH]; intros n s Hb Hblk [added Hh] Hon.
  - cbn. split; [by constructor | done].
  - apply Forall_cons in Hon as [Hlt Hon].
    cbn [fmap list_fmap enumerate_from forM_]. unfold bind.
    destruct Hblk as [blk Hblk].
    pose proof (plan_entry_bound (n, Some cid) s Hb (mk_is_Some _ _ Hblk))
      as (Hb1 & Hblk1 & [added1 Hh1]).
    destruct (plan_entry_cases n (Some cid) s blk Hb Hblk)
      as [(_ & Hraised & Hno)|(cid' & comp & s' & [= <-] & _ & Hacc & Hrun & _)].
    + destruct (plan_entry (n, Some cid) s) as [s1 [[]|e]]; [done|].
      cbn. split; [done|]. intros [Hacc _]%Forall_cons.
      exfalso. apply (Hno cid eq_refl). rewrite Hh. by apply acceptable_app.
    + rewrite Hrun in Hb1, Hblk1, Hh1. cbn in Hb1, Hblk1, Hh1. rewrite Hrun.
      rewrite (IH (S n) s' Hb1 Hblk1); [|by rewrite Hh1, Hh, <- app_assoc; eauto
                                        |done].
      rewrite Forall_cons. rewrite Hh in Hacc.
      apply acceptable_app in Hacc; [|done]. tauto.
Qed.

End Planner.

(** ** Everything after the planner loop (lines 277-363) *)

Section Install.
Context `{PyomoHost}.

Lemma forM__returns {S A} (P : S → Prop) (body : A → M S unit) l s :
  (∀ x s, P s → ∃ s', body x s = (s', Returned tt) ∧ P s') →
  P s → ∃ s', forM_ body l s = (s', Returned tt) ∧ P s'.
Proof.
  intros Hstep. revert s. induction l as [|x l IH]; intros s Hs.
  - exists s. by split.
  - destruct (Hstep x s Hs) as (s1 & Hrun & Hs1).
    destruct (IH s1 Hs1) as (s' & Hrest & Hs'). exists s'. split; [|done].
    cbn [forM_]. by erewrite bind_run by exact Hrun.
Qed.

Lemma set_fixed_loop_run b records s :
  forM_ (fun '((var, _, _, _) : sens_data) =>
           modify_instance (with_heap (set_fixed b var))) records s
  = (update_instance
       (with_heap (fold_left (fun h '((var, _, _, _) : sens_data) =>
                                set_fixed b var h) records)) s,
     Returned tt).
Proof.
  revert s. induction records as [|[[[var param] li] ci] records IH];
    intros s.
  - cbn. destruct s as [o m bb]. by destruct m.
  - cbn [forM_ fold_left]. unfold bind, modify_instance at 1, modify at 1.
    rewrite IH. destruct s as [o m bb]. by destruct m.
Qed.

Lemma pin_loop_run records s blk l0 :
  sens_block (model_instance s) = Some blk →
  paramConst blk = Some l0 →
  forM_ (fun d => modify_block
                    (with_paramConst (fmap (fun l => l ++ [pinning d]))))
        records s
  = (update_instance
       (with_sens_block
          (fmap (with_paramConst
                   (fun _ => Some (l0 ++ (pinning <$> records)))))) s,
     Returned tt).
Proof.
  revert s blk l0. induction records as [|d records IH]; intros s blk l0 Hblk Hl.
  - cbn. rewrite app_nil_r. destruct s as [o m bb]. destruct m. cbn in *.
    subst. destruct blk. cbn in *. by subst.
  - cbn [forM_]. unfold bind, modify_block at 1, modify_instance at 1,
      modify at 1.
    erewrite (IH _ (with_paramConst (fmap (fun l => l ++ [pinning d])) blk)
                 (l0 ++ [pinning d])).
    + destruct s as [o m bb]. destruct m. cbn in *. subst. cbn.
      by rewrite <- app_assoc.
    + cbn. by rewrite Hblk.
    + cbn. by rewrite Hl.
Qed.

Lemma get_block_run s blk :
  block_bound s = true →
  sens_block (model_instance s) = Some blk →
  get_block s = (s, Returned blk).
Proof. intros Hb Hblk. unfold get_block. by rewrite Hb, Hblk. Qed.

Lemma core_bound s s' :
  core s' = core s →
  block_bound s = true →
  is_Some (sens_block (model_instance s)) →
  block_bound s' = true ∧ is_Some (sens_block (model_instance s')).
Proof.
  unfold core. intros [= _ Hb _ _ _ Hblk] Hb0 [blk Hblk0].
  split; [congruence|]. rewrite Hblk0 in Hblk.
  by destruct (sens_block (model_instance s')).
Qed.

Lemma replace_expressions_run substitute s :
  block_bound s = true →
  is_Some (sens_block (model_instance s)) →
  ∃ s', replace_expressions substitute s = (s', Returned tt)
        ∧ core s' = core s.
Proof.
  intros Hb Hblk. unfold replace_expressions.
  erewrite bind_run by reflexivity.
  set (P := fun s' => core s' = core s).
  assert (P s) as HP by done.
  match goal with
  | |- context [bind (forM_ ?body ?l) _] =>
      destruct (forM__returns P body l s) as (s1 & Hrun1 & HP1); [|done|]
  end.
  { intros [j obj] s0 HP0.
    destruct (core_bound s s0 HP0 Hb Hblk) as [Hb0 [blk0 Hblk0]].
    eexists. split.
    - erewrite bind_run by (by apply get_block_run).
      unfold bind, modify_block, modify_instance, modify. reflexivity.
    - unfold P in *. rewrite <- HP0.
      destruct s0 as [o m bb]. destruct m. cbn in *. by subst. }
  erewrite bind_run by exact Hrun1.
  unfold bind at 1, modify_block at 1, modify_instance at 1, modify at 1.
  erewrite bind_run by reflexivity.
  set (s2 := update_instance _ s1).
  assert (P s2) as HP2.
  { unfold P in *. rewrite <- HP1. subst s2.
    destruct (core_bound s s1 HP1 Hb Hblk) as [_ [blk1 Hblk1]].
    destruct s1 as [o m bb]. destruct m. cbn in *. by subst. }
  match goal with
  | |- context [bind (forM_ ?body ?l) _] =>
      destruct (forM__returns P body l s2) as (s3 & Hrun3 & HP3); [|done|]
  end.
  { intros [j con] s0 HP0.
    destruct (core_bound s s0 HP0 Hb Hblk) as [Hb0 [blk0 Hblk0]].
    eexists. split.
    - unfold bind, modify_block, modify_instance, modify. reflexivity.
    - unfold P in *. rewrite <- HP0.
      destruct s0 as [o m bb]. destruct m. cbn in *. by subst. }
  erewrite bind_run by exact Hrun3.
  eexists. split; [reflexivity|].
  unfold P in *. rewrite <- HP3.
  destruct (core_bound s s3 HP3 Hb Hblk) as [_ [blk3 Hblk3]].
  destruct s3 as [o m bb]. destruct m. cbn in *. by subst.
Qed.


Lemma add_sensitivity_suffixes_frame m :
  heap (_add_sensitivity_suffixes m) = heap m
  ∧ objectives (_add_sensitivity_suffixes m) = objectives m
  ∧ constraints (_add_sensitivity_suffixes m) = constraints m
  ∧ sens_block (_add_sensitivity_suffixes m) = sens_block m
  ∧ blocks_made (_add_sensitivity_suffixes m) = blocks_made m.
Proof. apply add_suffixes_frame. Qed.

Lemma add_sensitivity_suffixes_present m name :
  is_Some (suffixes (_add_sensitivity_suffixes m) !! name)
  ↔ name ∈ (_SIPOPT_SUFFIXES ++ _K_AUG_SUFFIXES).*1
    ∨ is_Some (suffixes m !! name).
Proof. apply add_suffixes_present. Qed.

Lemma add_sensitivity_suffixes_slots m :
  stamp_slots_present (suffixes (_add_sensitivity_suffixes m)).
Proof.
  repeat split; apply sensitivity_suffixes_present;
    apply list_elem_of_In; cbn; auto 20.
Qed.

(** The tail of [install_substitution], for any suffix declaration that
    leaves the rest of the model alone and provides the stamped slots. *)
Lemma install_tail_gen (declare : Model → Model) records s blk :
  (∀ m, heap (declare m) = heap m
        ∧ objectives (declare m) = objectives m
        ∧ constraints (declare m) = constraints m
        ∧ sens_block (declare m) = sens_block m
        ∧ blocks_made (declare m) = blocks_made m) →
  (∀ m, stamp_slots_present (suffixes (declare m))) →
  block_bound s = true →
  sens_block (model_instance s) = Some blk →
  ∃ s' m2,
    (modify_block (with_paramConst (fun _ => Some [])) ;;
     forM_ (fun d => modify_block
                       (with_paramConst (fmap (fun l => l ++ [pinning d]))))
           records ;;
     modify_instance declare ;;
     forM_ stamp (enumerate records)) s = (s', Returned tt)
    ∧ _original_model s' = _original_model s
    ∧ block_bound s' = true
    ∧ heap (model_instance s') = heap (model_instance s)
    ∧ objectives (model_instance s') = objectives (model_instance s)
    ∧ constraints (model_instance s') = constraints (model_instance s)
    ∧ blocks_made (model_instance s') = blocks_made (model_instance s)
    ∧ sens_block (model_instance s')
      = Some (with_paramConst (fun _ => Some (pinning <$> records)) blk)
    ∧ suffixes m2 = suffixes (model_instance s)
    ∧ suffixes (model_instance s')
      = fold_left (stamp_suffixes (serial blk)) (enumerate records)
                  (suffixes (declare m2)).
Proof.
  intros Hframe Hslots Hb Hblk.
  unfold bind at 1, modify_block at 1, modify_instance at 1, modify at 1.
  remember (update_instance _ s) as s1 eqn:Hs1.
  assert (sens_block (model_instance s1)
          = Some (with_paramConst (fun _ => Some []) blk)) as Hblk1.
  { subst s1. cbn. by rewrite Hblk. }
  erewrite bind_run by (by eapply pin_loop_run).
  remember (update_instance _ s1) as s2 eqn:Hs2.
  unfold bind at 1, modify_instance at 1, modify at 1.
  remember (update_instance declare s2) as s3 eqn:Hs3.
  destruct (Hframe (model_instance s2)) as (Hh & Ho & Hc & Hsb & Hbm).
  assert (sens_block (model_instance s2)
          = Some (with_paramConst (fun _ => Some (pinning <$> records)) blk))
    as Hblk2.
  { subst s2. cbn. rewrite Hblk1. by destruct blk. }
  assert (sens_block (model_instance s3)
          = Some (with_paramConst (fun _ => Some (pinning <$> records)) blk))
    as Hblk3.
  { subst s3. cbn. by rewrite Hsb. }
  assert (block_bound s3 = true) as Hb3 by (by subst).
  assert (stamp_slots_present (suffixes (model_instance s3))) as Hpres.
  { subst s3. cbn. apply Hslots. }
  unfold enumerate.
  erewrite stamp_loop_run; [|done|exact Hblk3|reflexivity| |done].
  2:{ cbn. by rewrite length_fmap. }
  exists (update_instance
            (with_suffixes (fun sfx =>
               fold_left (stamp_suffixes
                            (serial (with_paramConst
                                       (fun _ => Some (pinning <$> records))
                                       blk)))
                         (enumerate_from 0 records) sfx)) s3),
    (model_instance s2).
  split; [reflexivity|].
  cbn. rewrite Hblk3. subst s3. cbn. rewrite Hh, Ho, Hc, Hbm.
  subst s2 s1. cbn.
  by repeat (split; [done|]).
Qed.

Lemma install_run resolved s blk :
  block_bound s = true →
  sens_block (model_instance s) = Some blk →
  let records := _sens_data_list blk in
  ∃ s' blk' sfx,
    install_substitution resolved s = (s', Returned tt)
    ∧ _original_model s' = _original_model s
    ∧ block_bound s' = true
    ∧ heap (model_instance s') = unfix_all records (heap (model_instance s))
    ∧ blocks_made (model_instance s') = blocks_made (model_instance s)
    ∧ sens_block (model_instance s') = Some blk'
    ∧ serial blk' = serial blk
    ∧ _sens_data_list blk' = records
    ∧ _paramList blk' = _paramList blk
    ∧ paramConst blk' = Some (pinning <$> records)
    ∧ (∀ name, is_Some (sfx !! name)
               ↔ name ∈ (_SIPOPT_SUFFIXES ++ _K_AUG_SUFFIXES).*1
                 ∨ is_Some (suffixes (model_instance s) !! name))
    ∧ suffixes (model_instance s')
      = fold_left (stamp_suffixes (serial blk)) (enumerate records) sfx
    ∧ (variableSubMap (with_heap (unfix_all records) (model_instance s))
                      resolved records = ∅ →
       objectives (model_instance s') = objectives (model_instance s)
       ∧ constraints (model_instance s') = constraints (model_instance s)
       ∧ _has_replaced_expressions blk' = _has_replaced_expressions blk
       ∧ constList blk' = constList blk
       ∧ members blk' = members blk).
Proof.
  intros Hb Hblk records. unfold install_substitution.
  pose proof add_sensitivity_suffixes_frame as Hframe.
  pose proof add_sensitivity_suffixes_slots as Hslots.
  pose proof add_sensitivity_suffixes_present as Hpresent.
  revert Hframe Hslots Hpresent. generalize _add_sensitivity_suffixes.
  intros declare Hframe Hslots Hpresent.
  erewrite bind_run by (by apply get_block_run).
  erewrite bind_run by apply set_fixed_loop_run.
  fold records.
  match goal with
  | |- context [update_instance ?f s] =>
      remember (update_instance f s) as s4 eqn:Hs4
  end.
  erewrite bind_run by reflexivity.
  assert (block_bound s4 = true) as Hb4 by (by subst).
  assert (sens_block (model_instance s4) = Some blk) as Hblk4 by (by subst).
  assert (model_instance s4
          = with_heap (unfix_all records) (model_instance s)) as Hm4
    by (by subst).
  rewrite Hm4.
  destruct (bool_decide _) eqn:Hsub.
  - erewrite bind_run by reflexivity.
    destruct (install_tail_gen declare records s4 blk Hframe Hslots Hb4 Hblk4)
      as (s' & m2 & Hrun & Ho & Hb' & Hh & Hobj & Hcon & Hbm & Hblk' & Hm2
          & Hst).
    exists s', (with_paramConst (fun _ => Some (pinning <$> records)) blk),
      (suffixes (declare m2)).
    rewrite Hrun, Ho, Hh, Hbm, Hobj, Hcon, Hst. subst s4. cbn.
    repeat (split; [done|]). split; [|by split].
    intros name. by rewrite Hpresent, Hm2.
  - destruct (replace_expressions_run
                (variableSubMap (with_heap (unfix_all records)
                                           (model_instance s))
                                resolved records) s4 Hb4
                (mk_is_Some _ _ Hblk4)) as (s5 & Hrun5 & Hcore).
    erewrite bind_run by exact Hrun5.
    destruct (core_bound s4 s5 Hcore Hb4 (mk_is_Some _ _ Hblk4))
      as [Hb5 [blk5 Hblk5]].
    unfold core in Hcore. rewrite Hblk5, Hblk4 in Hcore. cbn in Hcore.
    injection Hcore as Ho5 _ Hh5 Hs5 Hbm5 Hser Hrec Hpl Hpc.
    destruct (install_tail_gen declare records s5 blk5 Hframe Hslots Hb5 Hblk5)
      as (s' & m2 & Hrun & Ho & Hb' & Hh & Hobj & Hcon & Hbm & Hblk' & Hm2
          & Hst).
    exists s', (with_paramConst (fun _ => Some (pinning <$> records)) blk5),
      (suffixes (declare m2)).
    rewrite Hrun, Ho, Hh, Hbm, Hst, Ho5, Hh5, Hbm5, Hser. subst s4. cbn.
    repeat (split; [done|]). split.
    { intros name. by rewrite Hpresent, Hm2, Hs5. }
    split; [done|]. intros Hempty.
    apply bool_decide_eq_false in Hsub. done.
Qed.

End Install.

(** ** The phases of [setup_sensitivity] *)

Section Phases.
Context `{PyomoHost}.

Lemma view_fix_all records h : view (fix_all records h) = view h.
Proof.
  unfold fix_all. revert h.
  induction records as [|[[[var param] li] ci] records IH]; intros h; [done|].
  cbn. by rewrite IH, view_set_fixed.
Qed.

Lemma teardown_no_block self :
  sens_block (model_instance self) = None →
  teardown_or_refuse self = (self, Returned tt).
Proof.
  intros Hblk. unfold teardown_or_refuse, bind, get_instance.
  by rewrite Hblk.
Qed.

(** The guard either refuses, leaving everything as it was, or returns with
    no sensitivity block on the model; it changes nothing but [fixed] flags
    and the block, and nothing at all when there was no block. *)
Lemma teardown_cases self :
  (∃ e, teardown_or_refuse self = (self, Raised e))
  ∨ (∃ s1, teardown_or_refuse self = (s1, Returned tt)
           ∧ sens_block (model_instance s1) = None
           ∧ _original_model s1 = _original_model self
           ∧ block_bound s1 = block_bound self
           ∧ objectives (model_instance s1) = objectives (model_instance self)
           ∧ constraints (model_instance s1)
             = constraints (model_instance self)
           ∧ suffixes (model_instance s1) = suffixes (model_instance self)
           ∧ view (heap (model_instance s1)) = view (heap (model_instance self))
           ∧ (sens_block (model_instance self) = None → s1 = self)).
Proof.
  destruct (sens_block (model_instance self)) as [blk|] eqn:Hblk.
  2:{ right. exists self. rewrite (teardown_no_block self Hblk).
      by repeat split. }
  unfold teardown_or_refuse, bind, get_instance. rewrite Hblk.
  destruct (block_getattr blk "has_replaced_expressions") as [a|];
    [|by left; eauto].
  unfold lift_outcome.
  destruct (py_truth a) as [t|e]; [|by left; eauto].
  destruct t; cbn [negb ret]; [by left; eauto|].
  right. rewrite set_fixed_loop_run.
  eexists. split; [reflexivity|]. cbn.
  repeat (split; [done|]). split; [|done].
  apply (view_fix_all (_sens_data_list blk)).
Qed.

Lemma new_block_run resolved s1 :
  ∃ s2, new_block resolved s1 = (s2, Returned tt)
        ∧ block_bound s2 = true
        ∧ _original_model s2 = _original_model s1
        ∧ heap (model_instance s2) = heap (model_instance s1)
        ∧ objectives (model_instance s2) = objectives (model_instance s1)
        ∧ constraints (model_instance s2) = constraints (model_instance s1)
        ∧ suffixes (model_instance s2) = suffixes (model_instance s1)
        ∧ sens_block (model_instance s2)
          = Some (fresh_block resolved (model_instance s1)).
Proof. eexists. split; [reflexivity|]. by repeat split. Qed.

(** The three ways a call of [setup_sensitivity] can end. *)
Lemma setup_cases paramList self :
  let resolved := find_components_on self paramList in
  (∃ e, setup_sensitivity paramList self = (self, Raised e))
  ∨ (∃ s1 s2,
       teardown_or_refuse self = (s1, Returned tt)
       ∧ new_block resolved s1 = (s2, Returned tt)
       ∧ ((∃ s3 e, forM_ plan_entry (enumerate resolved) s2 = (s3, Raised e)
                   ∧ setup_sensitivity paramList self = (s3, Raised e))
          ∨ (∃ s3 s', forM_ plan_entry (enumerate resolved) s2
                      = (s3, Returned tt)
                      ∧ install_substitution resolved s3 = (s', Returned tt)
                      ∧ setup_sensitivity paramList self
                        = (s', Returned tt)))).
Proof.
  intros resolved. unfold setup_sensitivity.
  erewrite bind_run by reflexivity.
  destruct (resolve_paramList_cases self paramList) as [Hres|(Hres & _)].
  2:{ left. exists ValueError. by apply resolve_raise. }
  rewrite (resolve_step _ _ _ _ Hres). fold resolved.
  destruct (teardown_cases self) as [[e He]|(s1 & Hs1 & Hrest)].
  { left. exists e. by erewrite bind_Raised by exact He. }
  right. destruct (new_block_run resolved s1)
    as (s2 & Hs2 & Hb2 & _ & _ & _ & _ & _ & Hblk2).
  exists s1, s2. split; [done|]. split; [done|].
  erewrite bind_run by exact Hs1. erewrite bind_run by exact Hs2.
  destruct (forM_ plan_entry (enumerate resolved) s2) as [s3 [[]|e]] eqn:Hplan.
  - right.
    pose proof (plan_loop_frame s2 s2 (enumerate resolved)) as Hfr.
    rewrite Hplan in Hfr. destruct Hfr as (Hb3 & _ & _ & blk3 & Hblk3 & _).
    { split; [done|]. split; [done|]. split; [by exists []; rewrite app_nil_r|].
      eexists. split; [exact Hblk2|]. constructor. }
    destruct (install_run resolved s3 blk3 Hb3 Hblk3)
      as (s' & blk' & sfx & Hrun & _).
    exists s3, s'. split; [done|]. split; [done|].
    erewrite bind_run by exact Hplan. exact Hrun.
  - left. exists s3, e. split; [done|].
    by erewrite bind_Raised by exact Hplan.
Qed.

End Phases.

(** ** What a completed setup establishes *)

Section Established.
Context `{PyomoHost}.

Lemma record_ok_values n0 h resolved d :
  record_ok n0 (view h) resolved d →
  ∃ z, value h (free_entity d) = Some z
       ∧ value h (parameter_entity d) = Some z.
Proof.
  destruct d as [[[var param] li] ci].
  intros (cid & t & mu & sv & _ & Hcid & [z Hz] & Hcase). exists z.
  rewrite !value_view. unfold free_entity, parameter_entity. cbn.
  destruct Hcase as [(-> & -> & v & -> & _ & Hv)|(-> & -> & p & -> & _ & Hp)];
    cbn.
  - by rewrite Hv, Hcid.
  - by rewrite Hcid, Hp.
Qed.

Lemma setup_returned paramList self self' :
  setup_sensitivity paramList self = (self', Returned tt) →
  let resolved := find_components_on self paramList in
  let h0 := heap (model_instance self) in
  ∃ blk' sfx added,
    block_bound self' = true
    ∧ sens_block (model_instance self') = Some blk'
    ∧ _paramList blk' = resolved
    ∧ paramConst blk' = Some (pinning <$> _sens_data_list blk')
    ∧ view (heap (model_instance self')) = view h0 ++ added
    ∧ Forall (record_ok (length h0) (view (heap (model_instance self')))
                        resolved) (_sens_data_list blk')
    ∧ covered (length h0) (view (heap (model_instance self'))) resolved
              (length resolved) (_sens_data_list blk')
    ∧ (∀ d, d ∈ _sens_data_list blk' →
            is_fixed (heap (model_instance self')) (free_entity d)
            = Some false)
    ∧ (∀ name, name ∈ (_SIPOPT_SUFFIXES ++ _K_AUG_SUFFIXES).*1 →
               is_Some (sfx !! name))
    ∧ suffixes (model_instance self')
      = fold_left (stamp_suffixes (serial blk'))
                  (enumerate (_sens_data_list blk')) sfx.
Proof.
  intros Hrun resolved h0.
  destruct (setup_cases paramList self)
    as [[e He]|(s1 & s2 & Hs1 & Hs2 & [(s3 & e & _ & He)
                                       |(s3 & s' & Hplan & Hinst & Hret)])];
    try congruence.
  fold resolved in Hs2, Hplan, Hinst.
  rewrite Hrun in Hret. injection Hret as <-.
  destruct (teardown_cases self) as [[e He]|(s1' & Hs1' & _ & _ & _ & _ & _ & _
                                             & Hview1 & _)]; [congruence|].
  rewrite Hs1 in Hs1'. injection Hs1' as <-.
  destruct (new_block_run resolved s1)
    as (s2' & Hs2' & Hb2 & _ & Hh2 & _ & _ & _ & Hblk2).
  rewrite Hs2 in Hs2'. injection Hs2' as <-.
  assert (length (heap (model_instance s2)) = length h0) as Hlen2.
  { rewrite Hh2. apply (f_equal length) in Hview1. unfold view in Hview1.
    by rewrite !length_fmap in Hview1. }
  pose proof (plan_loop_frame s2 s2 (enumerate resolved)) as Hfr.
  rewrite Hplan in Hfr.
  destruct Hfr as (Hb3 & Hsh3 & [added Hh3] & blk3 & Hblk3 & _).
  { split; [done|]. split; [done|]. split; [by exists []; rewrite app_nil_r|].
    eexists. split; [exact Hblk2|]. constructor. }
  cbn [fst] in *.
  pose proof (plan_loop_inv (length h0) resolved 0 s2 s3 Hb2) as Hinv.
  destruct Hinv as (_ & blk3' & Hblk3' & Hrec & Hcov); [|exact Hplan|].
  { split; [lia|]. eexists. split; [exact Hblk2|]. split; [constructor|].
    intros i cid Hi. lia. }
  rewrite Hblk3 in Hblk3'. injection Hblk3' as <-.
  destruct (install_run resolved s3 blk3 Hb3 Hblk3)
    as (s' & blk' & sfx & Hinst' & _ & Hb' & Hh' & _ & Hblk' & Hser & Hrecs
        & Hpl & Hpc & Hsfx & Hst & _).
  rewrite Hinst in Hinst'. injection Hinst' as <-.
  assert (view (heap (model_instance self')) = view (heap (model_instance s3)))
    as Hview' by (rewrite Hh'; apply view_unfix_all).
  exists blk', sfx, (view added).
  split; [done|]. split; [done|]. split.
  { rewrite Hpl. unfold shell in Hsh3. rewrite Hblk3, Hblk2 in Hsh3.
    cbn in Hsh3. by injection Hsh3. }
  split; [by rewrite Hpc, Hrecs|]. split.
  { rewrite Hview', Hh3, Hh2. unfold view at 1. rewrite fmap_app.
    fold (view (heap (model_instance s1))). by rewrite Hview1. }
  rewrite Hview', Hrecs, Hser. split; [done|]. split; [done|]. split.
  { intros d Hd. rewrite Hh'. apply unfix_all_unfixes; [done|].
    rewrite Forall_forall in Hrec.
    destruct (record_ok_values _ _ _ _ (Hrec d Hd)) as (z & Hz & _).
    by rewrite Hz. }
  split; [|done]. intros name Hname. apply Hsfx. by left.
Qed.


Lemma resolve_on_model self paramList :
  Forall (fun cid => cid < length (heap (model_instance self)))%nat paramList →
  find_components_on self paramList = Some <$> paramList.
Proof.
  intros Hon. unfold find_components_on.
  destruct (_original_model self); [|done].
  apply Forall_fmap_ext_1. eapply Forall_impl; [exact Hon|].
  intros cid Hlt. unfold find_component_on.
  by destruct (lookup_lt_is_Some_2 _ _ Hlt) as [comp ->].
Qed.

Lemma acceptable_on_model h paramList :
  Forall (acceptable h) paramList →
  Forall (fun cid => cid < length h)%nat paramList.
Proof.
  intros Hacc. eapply Forall_impl; [exact Hacc|].
  intros cid (comp & Hcomp & _). by apply lookup_lt_Some in Hcomp.
Qed.

(** On a model without a sensitivity block the call returns normally
    exactly when every designated component is acceptable. *)
Lemma setup_outcome_fresh self paramList :
  sens_block (model_instance self) = None →
  Forall (fun cid => cid < length (heap (model_instance self)))%nat paramList →
  (setup_sensitivity paramList self).2 = Returned tt
  ↔ Forall (acceptable (heap (model_instance self))) paramList.
Proof.
  intros Hfresh Hon.
  destruct (setup_cases paramList self)
    as [[e He]|(s1 & s2 & Hs1 & Hs2 & Hrest)].
  { exfalso. unfold setup_sensitivity in He.
    erewrite bind_run in He by reflexivity.
    rewrite (resolve_step _ _ (find_components_on self paramList)) in He
      by (destruct (resolve_paramList_cases self paramList)
            as [Hr|(_ & _ & Hn)]; [exact Hr | by destruct Hn]).
    erewrite bind_run in He by (by apply teardown_no_block).
    destruct (new_block_run (find_components_on self paramList) self)
      as (s2 & Hs2 & Hb2 & _).
    erewrite bind_run in He by exact Hs2.
    pose proof (plan_loop_frame s2 s2
                  (enumerate (find_components_on self paramList))) as Hfr.
    destruct (new_block_run (find_components_on self paramList) self)
      as (s2' & Hs2' & _ & _ & _ & _ & _ & _ & Hblk2).
    rewrite Hs2 in Hs2'. injection Hs2' as <-.
    destruct Hfr as (_ & _ & _ & blk3 & Hblk3 & _).
    { split; [done|]. split; [done|].
      split; [by exists []; rewrite app_nil_r|].
      eexists. split; [exact Hblk2|]. constructor. }
    destruct (forM_ plan_entry _ s2) as [s3 [[]|e3]] eqn:Hplan.
    - erewrite bind_run in He by exact Hplan. cbn in Hblk3.
      assert (block_bound s3 = true) as Hb3.
      { pose proof (plan_loop_frame s2 s2
                      (enumerate (find_components_on self paramList))) as Hfr.
        rewrite Hplan in Hfr. apply Hfr.
        split; [done|]. split; [done|].
        split; [by exists []; rewrite app_nil_r|].
        eexists. split; [exact Hblk2|]. constructor. }
      destruct (install_run (find_components_on self paramList) s3 blk3 Hb3
                  Hblk3) as (s' & ? & ? & Hinst & _).
      congruence.
    - erewrite bind_Raised in He by exact Hplan.
      injection He as He _. subst s3. cbn in Hblk3. congruence. }
  rewrite (teardown_no_block self Hfresh) in Hs1. injection Hs1 as <-.
  destruct (new_block_run (find_components_on self paramList) self)
    as (s2' & Hs2' & Hb2 & _ & Hh2 & _ & _ & _ & Hblk2).
  rewrite Hs2 in Hs2'. injection Hs2' as <-.
  rewrite (resolve_on_model self paramList Hon) in Hrest.
  pose proof (plan_loop_success (heap (model_instance self)) paramList 0 s2 Hb2
                (mk_is_Some _ _ Hblk2)) as Hiff.
  rewrite <- Hiff; [|by exists []; rewrite app_nil_r|done].
  unfold enumerate in Hrest.
  destruct Hrest as [(s3 & e & Hplan & ->)|(s3 & s' & Hplan & _ & ->)];
    rewrite Hplan; cbn; split; done.
Qed.

Lemma setup_returns self paramList :
  sens_block (model_instance self) = None →
  Forall (acceptable (heap (model_instance self))) paramList →
  ∃ self', setup_sensitivity paramList self = (self', Returned tt).
Proof.
  intros Hfresh Hacc.
  pose proof (proj2 (setup_outcome_fresh self paramList Hfresh
                       (acceptable_on_model _ _ Hacc)) Hacc) as Hret.
  destruct (setup_sensitivity paramList self) as [self' o]. cbn in Hret.
  subst o. by exists self'.
Qed.

End Established.

Section Designated.
Context `{PyomoHost}.

Lemma view_lookup h cid t mu sv :
  view h !! cid = Some (t, mu, sv) →
  ctype <$> h !! cid = Some t ∧ mutable <$> h !! cid = Some mu
  ∧ ∀ idx, value h (cid, idx) = values_cell sv idx.
Proof.
  intros Hv. assert (Hv' := Hv). unfold view in Hv.
  rewrite list_lookup_fmap in Hv.
  destruct (h !! cid) as [comp|] eqn:Hcomp; [|done].
  injection Hv as <- <- <-. split; [done|]. split; [done|].
  intros idx. rewrite value_view. cbn [fst snd]. by rewrite Hv'.
Qed.

(** The substitute of the [i]-th designated component after a completed
    first setup. *)
Lemma setup_substitute self paramList self' blk' i cid comp :
  sens_block (model_instance self) = None →
  Forall (acceptable (heap (model_instance self))) paramList →
  setup_sensitivity paramList self = (self', Returned tt) →
  sens_block (model_instance self') = Some blk' →
  paramList !! i = Some cid →
  heap (model_instance self) !! cid = Some comp →
  ctype comp ≠ OtherComponent →
  ∃ w,
    (length (heap (model_instance self)) ≤ w)%nat
    ∧ ctype <$> heap (model_instance self') !! w
      = Some (match ctype comp with Param => Var | _ => Param end)
    ∧ mutable <$> heap (model_instance self') !! w
      = Some (match ctype comp with Param => false | _ => true end)
    ∧ (∀ idx, value (heap (model_instance self')) (w, idx)
              = value (heap (model_instance self)) (cid, idx))
    ∧ (∀ idx, value (heap (model_instance self')) (cid, idx)
              = value (heap (model_instance self)) (cid, idx))
    ∧ ∀ idx, is_Some (value (heap (model_instance self)) (cid, idx)) →
        let d := match ctype comp with
                 | Param => ((w, idx), (cid, idx), i, idx)
                 | _ => ((cid, idx), (w, idx), i, idx)
                 end in
        d ∈ _sens_data_list blk'
        ∧ is_fixed (heap (model_instance self')) (free_entity d) = Some false.
Proof.
  intros Hfresh Hacc Hrun Hblk' Hi Hcomp Hkind.
  destruct (setup_returned paramList self self' Hrun)
    as (blk & sfx & added & _ & Hblk & _ & _ & Hview & _ & Hcov & Hunfix & _).
  rewrite Hblk' in Hblk. injection Hblk as <-.
  rewrite (resolve_on_model self paramList (acceptable_on_model _ _ Hacc))
    in Hcov.
  assert (view (heap (model_instance self)) !! cid = Some (view_of comp))
    as Hvc by (unfold view; by rewrite list_lookup_fmap, Hcomp).
  assert (view (heap (model_instance self')) !! cid = Some (view_of comp))
    as Hvc' by (rewrite Hview; by apply lookup_app_l_Some).
  destruct (Hcov i cid) as [_ Hc].
  { rewrite length_fmap. by apply lookup_lt_Some in Hi. }
  { by rewrite list_lookup_fmap, Hi. }
  specialize (Hc _ _ _ Hvc').
  destruct (view_lookup _ _ _ _ _ Hvc) as (_ & _ & Hval0).
  destruct (view_lookup _ _ _ _ _ Hvc') as (_ & _ & Hval').
  destruct (ctype comp) eqn:Ht; [| |done];
    destruct Hc as (w & Hw & Hvw & Hin); exists w;
    destruct (view_lookup _ _ _ _ _ Hvw) as (Hct & Hmu & Hvalw);
    (split; [done|]); (split; [done|]); (split; [done|]);
    (split; [by intros idx; rewrite Hvalw, Hval0|]);
    (split; [by intros idx; rewrite Hval', Hval0|]);
    intros idx Hsome; rewrite Hval0 in Hsome;
    (split; [by apply Hin | by apply Hunfix, Hin]).
Qed.

End Designated.

(** C6: after a first setup on valid designated components, every
    designated mutable parameter has a newly created variable whose value
    equals the parameter's, element by element over the same index set, and
    every designated fixed variable has a newly created mutable parameter
    whose value equals the variable's, element by element; the elements are
    paired in the records, and the free entity of each record (the new
    variable, resp. the designated variable itself) is unfixed when setup
    returns. *)
Theorem setup_substitutes_carry_values `{PyomoHost}
    (self : SensitivityInterface) (paramList : list nat) :
  sens_block (model_instance self) = None →
  Forall (acceptable (heap (model_instance self))) paramList →
  ∃ self' blk',
    setup_sensitivity paramList self = (self', Returned tt)
    ∧ sens_block (model_instance self') = Some blk'
    ∧ ∀ i cid comp,
        paramList !! i = Some cid →
        heap (model_instance self) !! cid = Some comp →
        (ctype comp = Param →
         ∃ v, (length (heap (model_instance self)) ≤ v)%nat
              ∧ ctype <$> heap (model_instance self') !! v = Some Var
              ∧ (∀ idx, value (heap (model_instance self')) (v, idx)
                        = value (heap (model_instance self)) (cid, idx))
              ∧ ∀ idx, is_Some (value (heap (model_instance self)) (cid, idx)) →
                  ((v, idx), (cid, idx), i, idx) ∈ _sens_data_list blk'
                  ∧ is_fixed (heap (model_instance self')) (v, idx)
                    = Some false)
        ∧ (ctype comp = Var →
           ∃ p, (length (heap (model_instance self)) ≤ p)%nat
                ∧ ctype <$> heap (model_instance self') !! p = Some Param
                ∧ mutable <$> heap (model_instance self') !! p = Some true
                ∧ (∀ idx, value (heap (model_instance self')) (p, idx)
                          = value (heap (model_instance self)) (cid, idx))
                ∧ ∀ idx, is_Some (value (heap (model_instance self))
                                        (cid, idx)) →
                    ((cid, idx), (p, idx), i, idx) ∈ _sens_data_list blk'
                    ∧ is_fixed (heap (model_instance self)) (cid, idx)
                      = Some true
                    ∧ is_fixed (heap (model_instance self')) (cid, idx)
                      = Some false).
Proof.
  intros Hfresh Hacc.
  destruct (setup_returns self paramList Hfresh Hacc) as [self' Hrun].
  destruct (setup_returned paramList self self' Hrun)
    as (blk' & _ & _ & _ & Hblk' & _).
  exists self', blk'. split; [done|]. split; [done|].
  intros i cid comp Hi Hcomp. split; intros Ht.
  - destruct (setup_substitute self paramList self' blk' i cid comp Hfresh
                Hacc Hrun Hblk' Hi Hcomp) as (v & Hv & Hct & _ & Hval & _ & Hrec);
      [congruence|].
    rewrite Ht in Hct, Hrec. exists v. by repeat (split; [done|]).
  - destruct (setup_substitute self paramList self' blk' i cid comp Hfresh
                Hacc Hrun Hblk' Hi Hcomp)
      as (p & Hp & Hct & Hmu & Hval & _ & Hrec); [congruence|].
    rewrite Ht in Hct, Hmu, Hrec. exists p. repeat (split; [done|]).
    intros idx Hsome. destruct (Hrec idx Hsome) as [Hin Hfx].
    split; [done|]. split; [|done].
    rewrite Forall_forall in Hacc.
    destruct (Hacc cid) as (comp' & Hcomp' & _ & Hfixed).
    { by eapply list_elem_of_lookup_2. }
    rewrite Hcomp in Hcomp'. injection Hcomp' as <-.
    unfold value, is_fixed, cell_at in *. cbn in *. rewrite Hcomp in *.
    cbn in *. destruct (store_cell (store comp) idx) as [c|] eqn:Hc;
      [|by destruct Hsome]. cbn. f_equal. by eapply Hfixed.
Qed.

Lemma example_acceptable :
  Forall (acceptable (heap example_model)) [0%nat; 2%nat].
Proof.
  repeat constructor.
  - eexists. split; [reflexivity|]. split; [done|]. intros [=].
  - eexists. split; [reflexivity|]. split; [intros [=]|].
    intros _ [k|] c; cbn; [done|]. by intros [= <-].
Qed.

Lemma example_names_free : catalogue_names_free example_model.
Proof.
  apply (bool_decide_unpack (catalogue_names_free example_model)).
  vm_compute. reflexivity.
Qed.

Lemma setup_substitutes_carry_values_witness :
  ∃ self' v p,
    setup_sensitivity (H := reference_host) [0%nat; 2%nat]
      (SensitivityInterface_init example_model false) = (self', Returned tt)
    ∧ value (heap (model_instance self')) (v, _NotAnIndex) = Some 5
    ∧ value (heap (model_instance self')) (p, _NotAnIndex) = Some 2
    ∧ is_fixed (heap (model_instance self')) y_ = Some false.
Proof.
  destruct (setup_substitutes_carry_values (H := reference_host)
              (SensitivityInterface_init example_model false)
              [0%nat; 2%nat] eq_refl example_acceptable)
    as (self' & blk' & Hrun & Hblk & Hall).
  destruct (Hall 0%nat 0%nat _ eq_refl eq_refl) as [HP _].
  destruct (HP eq_refl) as (v & _ & _ & Hval & _).
  destruct (Hall 1%nat 2%nat _ eq_refl eq_refl) as [_ HV].
  destruct (HV eq_refl) as (p & _ & _ & _ & Hvalp & Hrec).
  exists self', v, p. split; [exact Hrun|].
  split; [rewrite Hval; reflexivity|].
  split; [rewrite Hvalp; reflexivity|].
  apply (Hrec _NotAnIndex). by eexists.
Defined.



(** C9 as stated fails on the key of [sens_init_constr]: designating [p]
    on [example_model] yields one record, whose free entity is the new
    variable; the [sens_init_constr] slot holds nothing under that free
    entity, and holds the record's position under its pinning constraint. *)
Lemma sens_init_constr_is_keyed_by_pinning_constraint :
  let m := model_instance example_after_setup_p.1 in
  let free_entity_of_record : ref := (3%nat, _NotAnIndex) in
  example_after_setup_p.2 = Returned tt
  ∧ (_sens_data_list <$> sens_block m)
    = Some [(free_entity_of_record, p_, 0%nat, _NotAnIndex)]
  ∧ suffix_get m "sens_state_0" (DataKey free_entity_of_record) = Some 1
  ∧ suffix_get m "sens_state_1" (DataKey free_entity_of_record) = Some 1
  ∧ suffix_get m "sens_init_constr" (DataKey free_entity_of_record) = None
  ∧ suffix_get m "sens_init_constr" (PinKey 0 1) = Some 1.
Proof.
  cbn zeta.
  split; [vm_compute; reflexivity|].
  split; [vm_compute; reflexivity|].
  split; [vm_compute; reflexivity|].
  split; [vm_compute; reflexivity|].
  split; vm_compute; reflexivity.
Qed.

(** C9, amended: on a model none of whose other components holds a
    catalogue suffix name, a first setup on valid designated components
    appends exactly one equality [free_entity - parameter_entity == 0] per
    record, in record order, to the pinning list; for the record at 1-based
    position [i + 1], the [dcdp] and [sens_init_constr] slots of its
    pinning constraint hold that position, and so do the [sens_state_0] and
    [sens_state_1] slots of its free entity (when several records share a
    free entity, the slot keeps the stamp of the last of them). *)
Theorem setup_pins_and_stamps_each_record `{PyomoHost}
    (self : SensitivityInterface) (paramList : list nat) :
  sens_block (model_instance self) = None →
  catalogue_names_free (model_instance self) →
  Forall (acceptable (heap (model_instance self))) paramList →
  ∃ self' blk',
    setup_sensitivity paramList self = (self', Returned tt)
    ∧ sens_block (model_instance self') = Some blk'
    ∧ paramConst blk'
      = Some ((fun d => EqualityExpression
                          (Diff (Leaf (free_entity d))
                                (Leaf (parameter_entity d))) (Num 0))
                <$> _sens_data_list blk')
    ∧ ∀ i d, _sens_data_list blk' !! i = Some d →
        let idx := Z.of_nat (i + 1) in
        let con := PinKey (serial blk') (i + 1) in
        suffix_get (model_instance self') "dcdp" con = Some idx
        ∧ suffix_get (model_instance self') "sens_init_constr" con = Some idx
        ∧ ((∀ j d', (i < j)%nat → _sens_data_list blk' !! j = Some d' →
                    free_entity d' ≠ free_entity d) →
           suffix_get (model_instance self') "sens_state_0"
                      (DataKey (free_entity d)) = Some idx
           ∧ suffix_get (model_instance self') "sens_state_1"
                        (DataKey (free_entity d)) = Some idx).
Proof.
  intros Hfresh _ Hacc.
  destruct (setup_returns self paramList Hfresh Hacc) as [self' Hrun].
  destruct (setup_returned paramList self self' Hrun)
    as (blk' & sfx & _ & _ & Hblk' & _ & Hpc & _ & _ & _ & _ & Hpres & Hsfx).
  exists self', blk'. split; [done|]. split; [done|]. split.
  { rewrite Hpc. f_equal. apply list_fmap_ext.
    by intros i [[[var param] li] ci] _. }
  intros i d Hd idx con. unfold suffix_get. rewrite Hsfx.
  apply stamped_slots; [|done].
  repeat split; apply Hpres; apply list_elem_of_In; cbn; auto 20.
Qed.

Lemma setup_pins_and_stamps_each_record_witness :
  ∃ self' blk',
    setup_sensitivity (H := reference_host) [0%nat; 2%nat]
      (SensitivityInterface_init example_model false) = (self', Returned tt)
    ∧ sens_block (model_instance self') = Some blk'
    ∧ is_Some (paramConst blk').
Proof.
  destruct (setup_pins_and_stamps_each_record (H := reference_host)
              (SensitivityInterface_init example_model false)
              [0%nat; 2%nat] eq_refl example_names_free example_acceptable)
    as (self' & blk' & Hrun & Hblk & Hpc & _).
  exists self', blk'. split; [exact Hrun|]. split; [exact Hblk|].
  rewrite Hpc. by eexists.
Defined.

(** ** Designating variables only (lines 281-343) *)

Section NoRewriting.
Context `{PyomoHost}.

Lemma variableSubMap_empty instance resolved records :
  (∀ li, designates_Param instance resolved li = false) →
  variableSubMap instance resolved records = ∅.
Proof.
  intros Hno. unfold variableSubMap. generalize (∅ : gmap ref ref).
  induction records as [|[[[var param] li] ci] records IH]; intros acc;
    [done|].
  cbn. by rewrite Hno, IH.
Qed.

Lemma designates_Param_view instance resolved li cid t mu sv :
  resolved !! li = Some (Some cid) →
  view (heap instance) !! cid = Some (t, mu, sv) →
  designates_Param instance resolved li
  = match t with Param => true | _ => false end.
Proof.
  intros Hres Hv. unfold designates_Param. rewrite Hres.
  destruct (view_lookup _ _ _ _ _ Hv) as (Hct & _).
  destruct (heap instance !! cid) as [comp|]; [|done].
  by injection Hct as ->.
Qed.

Lemma setup_rewrites_nothing paramList self :
  Forall (fun cid => ∃ comp, heap (model_instance self) !! cid = Some comp
                             ∧ ctype comp = Var) paramList →
  let self' := (setup_sensitivity paramList self).1 in
  objectives (model_instance self') = objectives (model_instance self)
  ∧ constraints (model_instance self') = constraints (model_instance self)
  ∧ (self' = self
     ∨ ∃ blk', sens_block (model_instance self') = Some blk'
               ∧ _has_replaced_expressions blk' = false
               ∧ constList blk' = None
               ∧ Forall (fun e => ¬ is_objective_member e) (members blk')).
Proof.
  intros Hvars self'. subst self'.
  destruct (setup_cases paramList self)
    as [[e ->]|(s1 & s2 & Hs1 & Hs2 & Hrest)]; [by auto|].
  set (resolved := find_components_on self paramList) in *.
  destruct (teardown_cases self)
    as [[e He]|(s1' & Hs1' & _ & _ & _ & Ho1 & Hc1 & _ & Hview1 & _)];
    [congruence|].
  rewrite Hs1 in Hs1'. injection Hs1' as <-.
  destruct (new_block_run resolved s1)
    as (s2' & Hs2' & Hb2 & _ & Hh2 & Ho2 & Hc2 & _ & Hblk2).
  rewrite Hs2 in Hs2'. injection Hs2' as <-.
  pose proof (plan_loop_frame s2 s2 (enumerate resolved)) as Hfr.
  destruct Hfr as (Hb3 & Hsh3 & [added Hh3] & blk3 & Hblk3 & Hmem3).
  { split; [done|]. split; [done|]. split; [by exists []; rewrite app_nil_r|].
    eexists. split; [exact Hblk2|]. constructor. }
  unfold shell in Hsh3. rewrite Hblk3, Hblk2 in Hsh3. cbn in Hsh3.
  injection Hsh3 as _ _ Ho3 Hc3 _ _ _ Hflag3 _ Hcl3 _.
  destruct Hrest as [(s3 & e & Hplan & ->)|(s3 & s' & Hplan & Hinst & ->)];
    rewrite Hplan in *; cbn [fst] in *.
  { split; [congruence|]. split; [congruence|]. right. by exists blk3. }
  destruct (install_run resolved s3 blk3 Hb3 Hblk3)
    as (s'' & blk' & sfx & Hinst' & _ & _ & _ & _ & Hblk' & _ & _ & _ & _ & _
        & _ & Hsame).
  rewrite Hinst in Hinst'. injection Hinst' as <-.
  destruct Hsame as (Ho' & Hc' & Hflag' & Hcl' & Hmem').
  { apply variableSubMap_empty. intros li.
    destruct (resolved !! li) as [[cid|]|] eqn:Hres.
    2,3: unfold designates_Param; by rewrite Hres.
    assert (cid ∈ paramList) as Hin.
    { assert (Some cid ∈ resolved) as Hin by (by eapply list_elem_of_lookup_2).
      subst resolved. unfold find_components_on in Hin.
      destruct (_original_model self);
        apply list_elem_of_fmap in Hin as (cid' & Heq & Hin).
      - unfold find_component_on in Heq.
        destruct (heap (model_instance self) !! cid'); [|done].
        by injection Heq as ->.
      - by injection Heq as ->. }
    rewrite Forall_forall in Hvars.
    destruct (Hvars cid Hin) as (comp & Hcomp & Ht).
    erewrite designates_Param_view; [|done|].
    2:{ cbn. rewrite view_unfix_all, Hh3, Hh2. unfold view. rewrite fmap_app.
        apply lookup_app_l_Some. fold (view (heap (model_instance s1))).
        rewrite Hview1. unfold view. by rewrite list_lookup_fmap, Hcomp. }
    by rewrite Ht. }
  split; [congruence|]. split; [congruence|]. right. exists blk'.
  split; [done|]. split; [congruence|]. split; [congruence|]. by rewrite Hmem'.
Qed.

End NoRewriting.

(** C7: when every designated component is a variable, setup rewrites
    nothing, whatever its outcome: the objectives and constraints of the
    model are left exactly as they were (none is deactivated), and either
    the call was refused with the interface untouched, or the block it
    installed carries a false replaced-expressions flag, no shadow
    constraint list and no cloned objective. *)
Theorem setup_on_variables_rewrites_nothing `{PyomoHost}
    (self : SensitivityInterface) (paramList : list nat) :
  Forall (fun cid => ∃ comp, heap (model_instance self) !! cid = Some comp
                             ∧ ctype comp = Var) paramList →
  let self' := (setup_sensitivity paramList self).1 in
  objectives (model_instance self') = objectives (model_instance self)
  ∧ constraints (model_instance self') = constraints (model_instance self)
  ∧ (self' = self
     ∨ ∃ blk', sens_block (model_instance self') = Some blk'
               ∧ _has_replaced_expressions blk' = false
               ∧ constList blk' = None
               ∧ Forall (fun e => ¬ is_objective_member e) (members blk')).
Proof. apply setup_rewrites_nothing. Qed.

Lemma setup_on_variables_rewrites_nothing_witness :
  objectives (model_instance example_after_setup_y.1)
  = objectives example_model
  ∧ constraints (model_instance example_after_setup_y.1)
    = constraints example_model.
Proof.
  destruct (setup_on_variables_rewrites_nothing (H := reference_host)
              (SensitivityInterface_init example_model false) [2%nat])
    as (Ho & Hc & _).
  - repeat constructor. eexists. by split.
  - split; [exact Ho | exact Hc].
Defined.

(** ** Perturbation (lines 366-399) *)

Section Perturbation.
Context `{PyomoHost}.

Lemma perturb_entry_run perturbList self blk l i d ptb current :
  block_bound self = true →
  sens_block (model_instance self) = Some blk →
  paramConst blk = Some l →
  (i < length l)%nat →
  is_Some (suffixes (model_instance self) !! "sens_state_value_1") →
  is_Some (suffixes (model_instance self) !! "DeltaP") →
  resolve_ptb perturbList (list_idx_of d) (comp_idx_of d) = Returned ptb →
  value (heap (model_instance self)) (free_entity d) = Some current →
  perturb_entry perturbList (i, d) self
  = (update_instance
       (with_suffixes (fun sfx =>
          perturb_suffixes (serial blk) (heap (model_instance self))
                           perturbList sfx (i, d))) self, Returned tt).
Proof.
  intros Hb Hblk Hl Hi Hsv Hdp Hptb Hcur.
  destruct d as [[[var param] li] ci].
  unfold list_idx_of, comp_idx_of, free_entity in *. cbn in Hptb, Hcur.
  unfold perturb_entry, perturb_suffixes.
  erewrite bind_run by (eapply paramConst_getitem_run; eauto).
  unfold bind at 1, lift_outcome at 1. rewrite Hptb.
  erewrite bind_run by (by apply suffix_setitem_run).
  erewrite bind_run by reflexivity.
  cbn [model_instance update_instance heap with_suffixes]. rewrite Hcur.
  rewrite suffix_setitem_run by (cbn; by apply suffix_present_alter).
  destruct self as [o m b]. by destruct m.
Qed.

Lemma perturb_suffixes_present blk_serial h perturbList sfx e name :
  is_Some (perturb_suffixes blk_serial h perturbList sfx e !! name)
  ↔ is_Some (sfx !! name).
Proof.
  destruct e as [i [[[var param] li] ci]]. unfold perturb_suffixes.
  destruct (resolve_ptb perturbList li ci); [|done].
  destruct (value h var); [|done].
  by rewrite !suffix_present_alter.
Qed.

Lemma perturb_loop_run perturbList self blk l records start :
  block_bound self = true →
  sens_block (model_instance self) = Some blk →
  paramConst blk = Some l →
  (start + length records ≤ length l)%nat →
  is_Some (suffixes (model_instance self) !! "sens_state_value_1") →
  is_Some (suffixes (model_instance self) !! "DeltaP") →
  (∀ d, d ∈ records →
        is_raised (resolve_ptb perturbList (list_idx_of d) (comp_idx_of d))
        = false) →
  (∀ d, d ∈ records →
        is_Some (value (heap (model_instance self)) (free_entity d))) →
  forM_ (perturb_entry perturbList) (enumerate_from start records) self
  = (update_instance
       (with_suffixes (fun sfx =>
          fold_left (perturb_suffixes (serial blk) (heap (model_instance self))
                                      perturbList)
                    (enumerate_from start records) sfx)) self, Returned tt).
Proof.
  revert self start.
  induction records as [|d records IH];
    intros self start Hb Hblk Hl Hlen Hsv Hdp Hres Hval.
  - cbn. destruct self as [o m b]. by destruct m.
  - cbn [enumerate_from forM_ fold_left].
    destruct (resolve_ptb perturbList (list_idx_of d) (comp_idx_of d))
      as [ptb|e] eqn:Hptb.
    2:{ specialize (Hres d (list_elem_of_here _ _)). by rewrite Hptb in Hres. }
    destruct (Hval d (list_elem_of_here _ _)) as [current Hcur].
    erewrite bind_run
      by (eapply perturb_entry_run; eauto; cbn in Hlen; lia).
    rewrite (IH _ (S start));
      [ | done | done | done | cbn in Hlen; lia
        | by apply perturb_suffixes_present
        | by apply perturb_suffixes_present
        | intros d' Hd'; apply Hres; by right
        | intros d' Hd'; apply Hval; by right ].
    destruct self as [o m b]. by destruct m.
Qed.

(** The slots after the perturbation loop. *)
Lemma perturbed_slots blk_serial h perturbList records sfx i d ptb current :
  is_Some (sfx !! "sens_state_value_1") →
  is_Some (sfx !! "DeltaP") →
  records !! i = Some d →
  resolve_ptb perturbList (list_idx_of d) (comp_idx_of d) = Returned ptb →
  value h (free_entity d) = Some current →
  let sfx' := fold_left (perturb_suffixes blk_serial h perturbList)
                        (enumerate records) sfx in
  suffix_lookup sfx' "DeltaP" (PinKey blk_serial (i + 1))
  = Some (current - ptb)
  ∧ ((∀ j d', (i < j)%nat → records !! j = Some d' →
              free_entity d' ≠ free_entity d) →
     suffix_lookup sfx' "sens_state_value_1" (DataKey (free_entity d))
     = Some ptb).
Proof.
  intros Hsv Hdp. revert i d ptb current.
  induction records as [|e records IH] using rev_ind;
    intros i d ptb current Hi Hptb Hcur; [done|].
  cbn zeta. rewrite enumerate_snoc, fold_left_app. cbn [fold_left].
  set (sfx1 := fold_left (perturb_suffixes blk_serial h perturbList)
                         (enumerate records) sfx).
  assert (is_Some (sfx1 !! "sens_state_value_1")
          ∧ is_Some (sfx1 !! "DeltaP")) as [Hsv1 Hdp1].
  { subst sfx1. clear IH Hi. generalize (enumerate records).
    intros l. revert sfx Hsv Hdp.
    induction l as [|x l IHl]; intros sfx Hsv Hdp; [done|].
    cbn. apply IHl; by apply perturb_suffixes_present. }
  destruct (decide (i = length records)) as [->|Hne].
  - rewrite lookup_app_r, Nat.sub_diag in Hi by done. injection Hi as <-.
    destruct e as [[[var param] li] ci].
    unfold list_idx_of, comp_idx_of, free_entity in *. cbn in Hptb, Hcur.
    unfold perturb_suffixes. rewrite Hptb, Hcur. cbn [fst snd]. split.
    + apply suffix_get_insert_eq. by apply suffix_present_alter.
    + intros _. rewrite suffix_get_insert_ne by (by left).
      by apply suffix_get_insert_eq.
  - assert (i < length records)%nat as Hlt.
    { apply lookup_lt_Some in Hi. rewrite length_app in Hi. cbn in Hi. lia. }
    rewrite lookup_app_l in Hi by done.
    destruct (IH i d ptb current Hi Hptb Hcur) as (IH1 & IH2).
    fold sfx1 in IH1, IH2.
    destruct e as [[[var param] li] ci]. unfold perturb_suffixes.
    destruct (resolve_ptb perturbList li ci) as [ptb'|];
      [|split; [done|]; intros Hlast; apply IH2; intros j d' Hj Hd';
        apply (Hlast j d' Hj); rewrite lookup_app_l; [done|];
        by apply lookup_lt_Some in Hd'].
    destruct (value h var) as [cur'|];
      [|split; [done|]; intros Hlast; apply IH2; intros j d' Hj Hd';
        apply (Hlast j d' Hj); rewrite lookup_app_l; [done|];
        by apply lookup_lt_Some in Hd'].
    split.
    + rewrite !suffix_get_insert_ne; [done|by left|].
      right. intros [=]. lia.
    + intros Hlast.
      assert (var ≠ free_entity d) as Hvar.
      { apply (Hlast (length records) (var, param, li, ci)); [done|].
        by rewrite lookup_app_r, Nat.sub_diag. }
      rewrite !suffix_get_insert_ne; [|right; congruence|by left].
      apply IH2. intros j d' Hj Hd'. apply (Hlast j d' Hj).
      rewrite lookup_app_l; [done|]. by apply lookup_lt_Some in Hd'.
Qed.

Lemma stamp_fold_present blk_serial l (sfx : gmap string Suffix) name :
  is_Some (sfx !! name) →
  is_Some (fold_left (stamp_suffixes blk_serial) l sfx !! name).
Proof.
  revert sfx. induction l as [|[i [[[v p] li] ci]] l IH]; intros sfx Hs;
    [done|].
  cbn [fold_left]. apply IH. unfold stamp_suffixes.
  by rewrite !suffix_present_alter.
Qed.

(** A completed setup leaves the interface ready for perturbation. *)
Lemma setup_ready paramList self self' :
  setup_sensitivity paramList self = (self', Returned tt) →
  ∃ blk, ready self' blk ∧ length (_paramList blk) = length paramList
         ∧ ∀ d, d ∈ _sens_data_list blk →
                (list_idx_of d < length paramList)%nat.
Proof.
  intros Hrun.
  destruct (setup_returned paramList self self' Hrun)
    as (blk & sfx & added & Hb & Hblk & Hpl & Hpc & _ & Hrec & _ & _ & Hpres
        & Hsfx).
  exists blk. split.
  { split; [done|]. split; [done|]. split.
    { eexists. split; [exact Hpc|]. by rewrite length_fmap. }
    rewrite Hsfx.
    split; [apply stamp_fold_present, Hpres, list_elem_of_In; cbn; auto 20|].
    split; [apply stamp_fold_present, Hpres, list_elem_of_In; cbn; auto 20|].
    intros d Hd. rewrite Forall_forall in Hrec.
    destruct (record_ok_values _ _ _ _ (Hrec d Hd)) as (z & Hz & _).
    by rewrite Hz. }
  assert (length (find_components_on self paramList) = length paramList)
    as Hlenr.
  { unfold find_components_on.
    destruct (_original_model self); by rewrite length_fmap. }
  split; [by rewrite Hpl|].
  intros d Hd. rewrite Forall_forall in Hrec. specialize (Hrec d Hd).
  destruct d as [[[var param] li] ci].
  destruct Hrec as (cid & t & mu & sv & Hres & _).
  apply lookup_lt_Some in Hres. unfold list_idx_of. cbn. lia.
Qed.

Lemma resolve_ptb_scalar perturbList li ci :
  Forall (fun e => ∃ z, e = PtbScalar z) perturbList →
  (li < length perturbList)%nat →
  is_raised (resolve_ptb perturbList li ci) = false.
Proof.
  intros Hsc Hlt. unfold resolve_ptb.
  destruct (lookup_lt_is_Some_2 _ _ Hlt) as [e He]. rewrite He.
  rewrite Forall_forall in Hsc.
  destruct (Hsc e (list_elem_of_lookup_2 _ _ _ He)) as [z ->].
  by destruct ci.
Qed.

End Perturbation.

(** C4: on an interface on which setup has completed, with a perturbation
    list of the right length all of whose targets resolve,
    [perturb_parameters] returns normally, and for every record the
    [DeltaP] slot of its pinning constraint holds the value of the free
    entity minus the resolved target, while the [sens_state_value_1] slot
    of its free entity holds the resolved target itself (the target of the
    last record, when several records share that free entity). *)
Theorem perturb_parameters_writes_delta_and_target
    (self : SensitivityInterface) (blk : Block)
    (perturbList : list perturbation) :
  ready self blk →
  length (_paramList blk) = length perturbList →
  (∀ d, d ∈ _sens_data_list blk →
        is_raised (resolve_ptb perturbList (list_idx_of d) (comp_idx_of d))
        = false) →
  ∃ self',
    perturb_parameters perturbList self = (self', Returned tt)
    ∧ ∀ i d, _sens_data_list blk !! i = Some d →
        ∃ ptb current,
          resolve_ptb perturbList (list_idx_of d) (comp_idx_of d)
          = Returned ptb
          ∧ value (heap (model_instance self)) (free_entity d) = Some current
          ∧ suffix_get (model_instance self') "DeltaP"
                       (PinKey (serial blk) (i + 1))
            = Some (current - ptb)
          ∧ ((∀ j d', (i < j)%nat → _sens_data_list blk !! j = Some d' →
                      free_entity d' ≠ free_entity d) →
             suffix_get (model_instance self') "sens_state_value_1"
                        (DataKey (free_entity d)) = Some ptb).
Proof.
  intros (Hb & Hblk & (l & Hl & Hlen) & Hsv & Hdp & Hval) Hlens Hres.
  eexists. split.
  { unfold perturb_parameters.
    erewrite bind_run by (by apply get_block_run).
    rewrite Hl, Hlens, Nat.eqb_refl. cbn [negb]. unfold enumerate.
    eapply perturb_loop_run; eauto. lia. }
  intros i d Hd.
  assert (d ∈ _sens_data_list blk) as Hin by (by eapply list_elem_of_lookup_2).
  destruct (resolve_ptb perturbList (list_idx_of d) (comp_idx_of d))
    as [ptb|e] eqn:Hptb.
  2:{ specialize (Hres d Hin). by rewrite Hptb in Hres. }
  destruct (Hval d Hin) as [current Hcur].
  exists ptb, current. split; [done|]. split; [done|].
  unfold suffix_get. cbn [model_instance update_instance suffixes with_suffixes].
  by apply perturbed_slots.
Qed.

(** Designating [p] and [y] on [example_model] and perturbing them to 7
    and 3. *)
Lemma perturb_parameters_writes_delta_and_target_witness :
  ∃ self' self'',
    setup_sensitivity (H := reference_host) [0%nat; 2%nat]
      (SensitivityInterface_init example_model false) = (self', Returned tt)
    ∧ perturb_parameters [PtbScalar 7; PtbScalar 3] self'
      = (self'', Returned tt).
Proof.
  destruct (setup_returns (H := reference_host)
              (SensitivityInterface_init example_model false)
              [0%nat; 2%nat] eq_refl example_acceptable) as [self' Hrun].
  destruct (setup_ready (H := reference_host) _ _ _ Hrun)
    as (blk & Hready & Hlen & Hli).
  destruct (perturb_parameters_writes_delta_and_target
              self' blk [PtbScalar 7; PtbScalar 3] Hready Hlen)
    as (self'' & Hp & _).
  - intros d Hd. apply resolve_ptb_scalar; [|by apply Hli].
    repeat constructor; by eexists.
  - exists self', self''. split; [exact Hrun | exact Hp].
Defined.

(** The end-to-end scenario of the specification: [p = 5] perturbed to 7. *)
Example perturb_example :
  let self'' := (perturb_parameters [PtbScalar 7]
                   example_after_setup_p.1).1 in
  suffix_get (model_instance self'') "sens_state_value_1"
             (DataKey (3%nat, _NotAnIndex)) = Some 7
  ∧ suffix_get (model_instance self'') "DeltaP" (PinKey 0 1) = Some (-2).
Proof. split; vm_compute; reflexivity. Qed.

(** ** The driver and the length check (lines 105-153, 375-378) *)

Section DriverProperties.
Context `{PyomoHost}.

Lemma bind_cases {S A B} (c : M S A) (k : A → M S B) s :
  (∃ s1 a, c s = (s1, Returned a) ∧ bind c k s = k a s1)
  ∨ (∃ s1 e, c s = (s1, Raised e) ∧ bind c k s = (s1, Raised e)).
Proof.
  unfold bind. destruct (c s) as [s1 [a|e]]; [left | right]; eauto.
Qed.

Lemma perturb_mismatch_raises perturbList self :
  (∀ blk, sens_block (model_instance self) = Some blk →
          length (_paramList blk) ≠ length perturbList) →
  ∃ e, perturb_parameters perturbList self = (self, Raised e).
Proof.
  intros Hlen. unfold perturb_parameters, bind, get_block.
  destruct (block_bound self); [|by eauto].
  destruct (sens_block (model_instance self)) as [blk|]; [|by eauto].
  destruct (paramConst blk); [|by eauto].
  specialize (Hlen blk eq_refl). apply Nat.eqb_neq in Hlen. rewrite Hlen.
  cbn. by eauto.
Qed.

Lemma apply_result_block r m : sens_block (apply_result r m) = sens_block m.
Proof.
  unfold apply_result.
  assert (∀ l m, sens_block
                   (fold_left (fun m '((name, k, z) : string * key * Z) =>
                      with_suffixes (alter (suffix_insert k z) name) m) l m)
                 = sens_block m) as Hs.
  { induction l as [|[[name k] z] l IH]; intros m0; [done|].
    cbn. by rewrite IH. }
  rewrite Hs. generalize (sr_values r). clear Hs.
  induction l as [|[x z] l IH] in m |- *; [done|]. cbn. by rewrite IH.
Qed.

Lemma solve_post name options w :
  log (solve name options w).1 = log w ++ [Solve name]
  ∧ sens_block (model_instance (sens (solve name options w).1))
    = sens_block (model_instance (sens w)).
Proof.
  unfold solve, bind, emit, get, modify. cbn.
  destruct (solver_solve name options (model_instance (sens w))) as [r|];
    cbn; [|done].
  by rewrite apply_result_block.
Qed.

Lemma suffix_update_post into from w :
  log (on_sens (suffix_update into from) w).1 = log w
  ∧ sens_block (model_instance (sens (on_sens (suffix_update into from) w).1))
    = sens_block (model_instance (sens w)).
Proof.
  unfold on_sens, suffix_update, bind, get_instance.
  destruct (suffixes (model_instance (sens w)) !! into); [|done].
  destruct (suffixes (model_instance (sens w)) !! from); done.
Qed.

(** The baseline phase invokes [ipopt], then [k_aug], and stops after the
    first of them that fails. *)
Lemma kaug_baseline_post w :
  sens_block (model_instance (sens (kaug_baseline w).1))
  = sens_block (model_instance (sens w))
  ∧ (log (kaug_baseline w).1 = log w ++ [Solve "ipopt"; Solve "k_aug"]
     ∨ (log (kaug_baseline w).1 = log w ++ [Solve "ipopt"]
        ∧ is_raised (kaug_baseline w).2 = true)).
Proof.
  unfold kaug_baseline.
  pose proof (solve_post "ipopt" [] w) as [Hl1 Hb1].
  destruct (bind_cases (solve "ipopt" []) (fun _ =>
              on_sens (suffix_update "ipopt_zL_in" "ipopt_zL_out") ;;
              on_sens (suffix_update "ipopt_zU_in" "ipopt_zU_out") ;;
              solve "k_aug" [("dsdp_mode", EmptyString)] ;;
              m <- on_sens get_instance ;;
              create_files (model_write "col_row.nl" m)) w)
    as [(w1 & [] & E1 & ->)|(w1 & e1 & E1 & ->)];
    rewrite E1 in Hl1, Hb1; cbn [fst snd] in *; [|by auto].
  pose proof (suffix_update_post "ipopt_zL_in" "ipopt_zL_out" w1) as [Hl2 Hb2].
  destruct (bind_cases (on_sens (suffix_update "ipopt_zL_in" "ipopt_zL_out"))
              (fun _ =>
              on_sens (suffix_update "ipopt_zU_in" "ipopt_zU_out") ;;
              solve "k_aug" [("dsdp_mode", EmptyString)] ;;
              m <- on_sens get_instance ;;
              create_files (model_write "col_row.nl" m)) w1)
    as [(w2 & [] & E2 & ->)|(w2 & e2 & E2 & ->)];
    rewrite E2 in Hl2, Hb2; cbn [fst snd] in *;
    [|split; [congruence|right; split; [congruence|done]]].
  pose proof (suffix_update_post "ipopt_zU_in" "ipopt_zU_out" w2) as [Hl3 Hb3].
  destruct (bind_cases (on_sens (suffix_update "ipopt_zU_in" "ipopt_zU_out"))
              (fun _ =>
              solve "k_aug" [("dsdp_mode", EmptyString)] ;;
              m <- on_sens get_instance ;;
              create_files (model_write "col_row.nl" m)) w2)
    as [(w3 & [] & E3 & ->)|(w3 & e3 & E3 & ->)];
    rewrite E3 in Hl3, Hb3; cbn [fst snd] in *;
    [|split; [congruence|right; split; [congruence|done]]].
  pose proof (solve_post "k_aug" [("dsdp_mode", EmptyString)] w3) as [Hl4 Hb4].
  destruct (bind_cases (solve "k_aug" [("dsdp_mode", EmptyString)])
              (fun _ =>
              m <- on_sens get_instance ;;
              create_files (model_write "col_row.nl" m)) w3)
    as [(w4 & [] & E4 & ->)|(w4 & e4 & E4 & ->)];
    rewrite E4 in Hl4, Hb4; cbn [fst snd] in *.
  - cbn. split; [congruence|]. left.
    rewrite Hl4, Hl3, Hl2, Hl1, <- app_assoc. done.
  - split; [congruence|]. left.
    rewrite Hl4, Hl3, Hl2, Hl1, <- app_assoc. done.
Qed.

Lemma on_sens_run {A} (c : M SensitivityInterface A) w s' o :
  c (sens w) = (s', o) →
  on_sens c w = ({| sens := s'; fs := fs w; log := log w |}, o).
Proof. intros Hc. unfold on_sens. by rewrite Hc. Qed.

(** With a perturbation list of the wrong length the run raises; the log
    holds what was invoked before. *)
Lemma mismatch_run method paramList perturbList w :
  length paramList ≠ length perturbList →
  let run := sensitivity_calculation_body method paramList perturbList w in
  is_raised run.2 = true
  ∧ (method ≠ "kaug" → log run.1 = log w)
  ∧ (method = "kaug" →
     log run.1 = log w ∨ log run.1 = log w ++ [Solve "ipopt"]
     ∨ log run.1 = log w ++ [Solve "ipopt"; Solve "k_aug"]).
Proof.
  intros Hlen run. subst run. unfold sensitivity_calculation_body.
  destruct (setup_sensitivity paramList (sens w)) as [self' o] eqn:Hsetup.
  destruct o as [[]|e].
  2:{ erewrite bind_Raised by (apply on_sens_run; exact Hsetup).
      cbn. by auto. }
  erewrite bind_run by (apply on_sens_run; exact Hsetup).
  destruct (setup_ready paramList (sens w) self' Hsetup)
    as (blk & (_ & Hblk & _) & Hpl & _).
  set (w1 := {| sens := self'; fs := fs w; log := log w |}).
  assert (∀ w2, sens_block (model_instance (sens w2)) = Some blk →
            ∃ e, on_sens (perturb_parameters perturbList) w2
                 = ({| sens := sens w2; fs := fs w2; log := log w2 |},
                    Raised e)) as Hraise.
  { intros w2 Hblk2.
    destruct (perturb_mismatch_raises perturbList (sens w2)) as [e He].
    - intros blk2 Hb2. rewrite Hblk2 in Hb2. injection Hb2 as <-. congruence.
    - exists e. by apply on_sens_run. }
  destruct (decide (method = "kaug")) as [->|Hm]; cbn beta iota.
  - destruct (kaug_baseline_post w1) as [Hb Hlog].
    destruct (kaug_baseline w1) as [w2 [[]|e]] eqn:E; cbn [fst snd] in *.
    + erewrite bind_run by exact E.
      destruct (Hraise w2) as [e He]; [by rewrite Hb|].
      erewrite bind_Raised by exact He. cbn.
      split; [done|]. split; [done|]. intros _.
      destruct Hlog as [->|[_ ?]]; [by auto|done].
    + erewrite bind_Raised by exact E. cbn.
      split; [done|]. split; [done|]. intros _.
      destruct Hlog as [->|[-> _]]; by auto.
  - erewrite bind_run by reflexivity.
    destruct (Hraise w1 Hblk) as [e He].
    erewrite bind_Raised by exact He. cbn. by auto.
Qed.

End DriverProperties.

(** C3 as stated fails for the ['kaug'] strategy: designating two
    components and passing one perturbation makes the run fail only after
    [ipopt] and [k_aug] have been invoked. *)
Lemma kaug_length_check_follows_baseline_solves :
  let run := sensitivity_calculation (H := reference_host) "kaug"
               example_model [0%nat; 2%nat] [PtbScalar 7] true
               {| cwd := ∅; dsdp := None |} in
  length [0%nat; 2%nat] ≠ length [PtbScalar 7]
  ∧ log run.1 = [Solve "ipopt"; Solve "k_aug"]
  ∧ ¬ fails_before_any_solver run.
Proof.
  cbn zeta. split; [cbn; lia|].
  assert (log (sensitivity_calculation (H := reference_host) "kaug"
                 example_model [0%nat; 2%nat] [PtbScalar 7] true
                 {| cwd := ∅; dsdp := None |}).1
          = [Solve "ipopt"; Solve "k_aug"]) as Hlog
    by (vm_compute; reflexivity).
  split; [exact Hlog|]. intros [_ Hno]. apply (Hno "ipopt").
  rewrite Hlog. left.
Qed.

(** C3, amended: a perturbation list whose length differs from that of the
    designated-component list makes the run fail with an error.  With
    ['sipopt'] (and any strategy other than ['kaug']) nothing external has
    been invoked by then.  With ['kaug'] the failure comes after the
    baseline phase: at most the [ipopt] and [k_aug] solves have been
    invoked, in that order, and neither the [dot_sens] solve nor any move of
    an artifact. *)
Theorem length_mismatch_fails `{PyomoHost} (method : string)
    (instance : Model) (paramList : list nat)
    (perturbList : list perturbation) (cloneModel : bool)
    (files : FileSystem) :
  length paramList ≠ length perturbList →
  let run := sensitivity_calculation method instance paramList perturbList
               cloneModel files in
  is_raised run.2 = true
  ∧ (method = "sipopt" → fails_before_any_solver run ∧ log run.1 = [])
  ∧ (method = "kaug" →
     (log run.1 = [] ∨ log run.1 = [Solve "ipopt"]
      ∨ log run.1 = [Solve "ipopt"; Solve "k_aug"])
     ∧ (Solve "dot_sens" ∉ log run.1)
     ∧ ∀ file, Move file ∉ log run.1).
Proof.
  intros Hlen run. subst run. unfold sensitivity_calculation.
  destruct (mismatch_run method paramList perturbList
              {| sens := SensitivityInterface_init instance cloneModel;
                 fs := files; log := [] |} Hlen) as (Hr & Hs & Hk).
  cbn [log] in Hs, Hk. split; [exact Hr|]. split.
  - intros ->. rewrite Hs by done. split; [|done]. split; [exact Hr|].
    intros name Hin. rewrite Hs in Hin by done. by apply elem_of_nil in Hin.
  - intros Hm. specialize (Hk Hm). split; [exact Hk|].
    destruct Hk as [Hk|[Hk|Hk]]; rewrite Hk; split; [|intros file| |intros file
                                                    | |intros file];
      intros Hin; apply list_elem_of_In in Hin; cbn in Hin;
      intuition discriminate.
Qed.

Lemma length_mismatch_fails_witness :
  let run := sensitivity_calculation (H := reference_host) "sipopt"
               example_model [0%nat; 2%nat] [PtbScalar 7] true
               {| cwd := ∅; dsdp := None |} in
  is_raised run.2 = true ∧ log run.1 = [].
Proof.
  cbn zeta.
  destruct (length_mismatch_fails (H := reference_host) "sipopt"
              example_model [0%nat; 2%nat] [PtbScalar 7] true
              {| cwd := ∅; dsdp := None |}) as (Hr & Hs & _).
  - cbn. lia.
  - split; [exact Hr|]. by apply Hs.
Defined.

(** * Further properties *)

(** ** Declaring the suffixes (lines 81-90) *)

Lemma add_suffixes_lookup l m name :
  suffixes (fold_left add_suffix l m) !! name
  = match suffixes m !! name with
    | Some s => Some s
    | None => new_suffix <$> assoc name l
    end.
Proof.
  revert m. induction l as [|[n d] l IH]; intros m.
  - cbn. by destruct (suffixes m !! name).
  - cbn [fold_left assoc]. rewrite IH. unfold add_suffix. cbn [fst snd].
    destruct (suffixes m !! n) as [s0|] eqn:Hn.
    + destruct (suffixes m !! name) as [s|] eqn:Hname; [done|].
      case_decide; [congruence | done].
    + cbn [suffixes with_suffixes]. case_decide as Heq.
      * subst n. by rewrite lookup_insert_eq, Hn.
      * by rewrite lookup_insert_ne.
Qed.

Lemma Model_eq (m1 m2 : Model) :
  heap m1 = heap m2 → objectives m1 = objectives m2 →
  constraints m1 = constraints m2 → suffixes m1 = suffixes m2 →
  sens_block m1 = sens_block m2 → blocks_made m1 = blocks_made m2 →
  m1 = m2.
Proof. destruct m1, m2. cbn. by intros -> -> -> -> -> ->. Qed.

(** X1: on a model none of whose other components holds a catalogue
    suffix name, [_add_sensitivity_suffixes] leaves every suffix that
    already exists exactly as it is (direction and entries), creates each
    missing catalogue suffix empty with its catalogue direction, creates
    nothing else, and touches no other part of the model. *)
Theorem add_sensitivity_suffixes_lookup (m : Model) (name : string) :
  catalogue_names_free m →
  suffixes (_add_sensitivity_suffixes m) !! name
  = match suffixes m !! name with
    | Some s => Some s
    | None => new_suffix <$> assoc name (_SIPOPT_SUFFIXES ++ _K_AUG_SUFFIXES)
    end
  ∧ heap (_add_sensitivity_suffixes m) = heap m
  ∧ objectives (_add_sensitivity_suffixes m) = objectives m
  ∧ constraints (_add_sensitivity_suffixes m) = constraints m
  ∧ sens_block (_add_sensitivity_suffixes m) = sens_block m.
Proof.
  intros _. split; [apply add_suffixes_lookup|].
  destruct (add_suffixes_frame (_SIPOPT_SUFFIXES ++ _K_AUG_SUFFIXES) m)
    as (? & ? & ? & ? & ?).
  by repeat split.
Qed.

Lemma add_sensitivity_suffixes_lookup_witness :
  suffixes (_add_sensitivity_suffixes example_model) !! "DeltaP"
  = Some (new_suffix EXPORT).
Proof.
  destruct (add_sensitivity_suffixes_lookup example_model "DeltaP"
              example_names_free) as [Hlookup _].
  rewrite Hlookup. reflexivity.
Defined.

Lemma add_suffixes_idempotent l m :
  fold_left add_suffix l (fold_left add_suffix l m) = fold_left add_suffix l m.
Proof.
  destruct (add_suffixes_frame l m) as (Hh & Ho & Hc & Hb & Hn).
  destruct (add_suffixes_frame l (fold_left add_suffix l m))
    as (Hh' & Ho' & Hc' & Hb' & Hn').
  apply Model_eq; try congruence.
  apply map_eq. intros name. rewrite add_suffixes_lookup.
  destruct (suffixes (fold_left add_suffix l m) !! name) as [s|] eqn:Hs;
    [done|].
  rewrite add_suffixes_lookup in Hs.
  destruct (suffixes m !! name); [done|]. by rewrite Hs.
Qed.

(** X2: declaring the suffixes a second time changes nothing. *)
Theorem add_sensitivity_suffixes_idempotent (m : Model) :
  _add_sensitivity_suffixes (_add_sensitivity_suffixes m)
  = _add_sensitivity_suffixes m.
Proof. apply add_suffixes_idempotent. Qed.

(** ** The items of a component (lines 95-103) *)

(** X3: a scalar component yields the single item (sentinel, component);
    an indexed component yields one item per element, in increasing index
    order and without repetition, each pairing an index with that element
    of the component. *)
Theorem generate_component_items_sorted (cid : nat) (comp : Component) :
  match store comp with
  | Scalar _ =>
      _generate_component_items cid comp = [(_NotAnIndex, (cid, _NotAnIndex))]
  | Indexed d =>
      ∃ ks, _generate_component_items cid comp
            = (fun k => (Some k, (cid, Some k))) <$> ks
            ∧ Sorted Z.le ks ∧ NoDup ks
            ∧ ∀ k, k ∈ ks ↔ is_Some (d !! k)
  end.
Proof.
  unfold _generate_component_items, is_indexed, index_set, sorted_robust.
  destruct (store comp) as [c|d]; [done|].
  exists (merge_sort Z.le (elements (dom d))). split; [done|].
  split; [apply Sorted_merge_sort; apply _|].
  split.
  - rewrite merge_sort_Permutation. apply NoDup_elements.
  - intros k. by rewrite merge_sort_Permutation, elem_of_elements, elem_of_dom.
Qed.

(** ** Rewritten expressions (lines 293-327) *)

Lemma eval_dfs_postorder_stack env substitute e :
  eval env (dfs_postorder_stack substitute e)
  = eval (substituted env substitute) e.
Proof.
  induction e as [z|r|a IHa b IHb|a IHa b IHb|a IHa b IHb|a IHa|n e IH];
    cbn; try congruence.
  unfold substituted. by destruct (substitute !! r).
Qed.

Lemma satisfies_dfs_rel env substitute c :
  satisfies env (dfs_postorder_stack_rel substitute c)
  ↔ satisfies (substituted env substitute) c.
Proof.
  destruct c; cbn; by rewrite !eval_dfs_postorder_stack.
Qed.

(** X4: for an equality or one-sided constraint the rewriter installs one
    shadow constraint, and an assignment satisfies it exactly when it
    satisfies the original constraint with every substituted leaf read
    through its substitute. *)
Theorem rewrite_constraint_one_sided (substitute : gmap ref ref)
    (con : ConstraintData) (env : ref → Z) :
  (∀ lo b up, con_form con ≠ RangedCon lo b up) →
  length (rewrite_constraint substitute con) = 1%nat
  ∧ (Forall (satisfies env) (rewrite_constraint substitute con)
     ↔ satisfies (substituted env substitute) (con_expr con)).
Proof.
  intros Hform. unfold rewrite_constraint, equality, lower, upper, con_expr.
  destruct (con_form con) as [b rhs|lo b|b up|lo b up];
    [| | |by destruct (Hform lo b up)];
    (split; [done|]); rewrite Forall_singleton;
    apply (satisfies_dfs_rel env substitute).
Qed.

Lemma rewrite_constraint_one_sided_witness :
  let con := {| con_active := true;
                con_form := EqualityCon (Sum (Leaf x_) (Leaf p_)) (Num 10) |} in
  let env := fun r : ref => if decide (r = x_) then 3 else 7 in
  Forall (satisfies env) (rewrite_constraint {[p_ := y_]} con).
Proof.
  intros con env.
  apply (rewrite_constraint_one_sided {[p_ := y_]} con env); [done|].
  reflexivity.
Defined.

(** ** What setup leaves alone, and what its records are *)

Section SetupFrame.
Context `{PyomoHost}.

Lemma setup_view paramList self :
  let self' := (setup_sensitivity paramList self).1 in
  _original_model self' = _original_model self
  ∧ ∃ added, view (heap (model_instance self'))
             = view (heap (model_instance self)) ++ added.
Proof.
  intros self'. subst self'.
  destruct (setup_cases paramList self)
    as [[e ->]|(s1 & s2 & Hs1 & Hs2 & Hrest)].
  { split; [done|]. exists []. by rewrite app_nil_r. }
  set (resolved := find_components_on self paramList) in *.
  destruct (teardown_cases self)
    as [[e He]|(s1' & Hs1' & _ & Ho1 & _ & _ & _ & _ & Hview1 & _)];
    [congruence|].
  rewrite Hs1 in Hs1'. injection Hs1' as <-.
  destruct (new_block_run resolved s1)
    as (s2' & Hs2' & Hb2 & Ho2 & Hh2 & _ & _ & _ & Hblk2).
  rewrite Hs2 in Hs2'. injection Hs2' as <-.
  pose proof (plan_loop_frame s2 s2 (enumerate resolved)) as Hfr.
  destruct Hfr as (Hb3 & Hsh3 & [added Hh3] & blk3 & Hblk3 & _).
  { split; [done|]. split; [done|]. split; [by exists []; rewrite app_nil_r|].
    eexists. split; [exact Hblk2|]. constructor. }
  assert (view (heap (model_instance
                        (forM_ plan_entry (enumerate resolved) s2).1))
          = view (heap (model_instance self)) ++ view added) as Hv3.
  { rewrite Hh3, Hh2. unfold view at 1. rewrite fmap_app.
    fold (view (heap (model_instance s1))). by rewrite Hview1. }
  unfold shell in Hsh3. injection Hsh3 as Ho3 _.
  destruct Hrest as [(s3 & e & Hplan & ->)|(s3 & s' & Hplan & Hinst & ->)];
    rewrite Hplan in *; cbn [fst] in *.
  { split; [congruence|]. by exists (view added). }
  destruct (install_run resolved s3 blk3 Hb3 Hblk3)
    as (s'' & blk' & sfx & Hinst' & Ho' & _ & Hh' & _).
  rewrite Hinst in Hinst'. injection Hinst' as <-.
  split; [congruence|]. exists (view added).
  by rewrite Hh', view_unfix_all.
Qed.

End SetupFrame.

(** X5: on a model without a sensitivity block, whatever the outcome of
    [setup_sensitivity], every component that existed before the call is
    still there afterwards, with its kind, its mutability and all its
    values: the call only changes [fixed] flags and adds components. *)
Theorem setup_keeps_existing_components `{PyomoHost}
    (self : SensitivityInterface) (paramList : list nat)
    (cid : nat) (comp : Component) :
  sens_block (model_instance self) = None →
  heap (model_instance self) !! cid = Some comp →
  let self' := (setup_sensitivity paramList self).1 in
  (length (heap (model_instance self))
   ≤ length (heap (model_instance self')))%nat
  ∧ ctype <$> heap (model_instance self') !! cid = Some (ctype comp)
  ∧ mutable <$> heap (model_instance self') !! cid = Some (mutable comp)
  ∧ ∀ idx, value (heap (model_instance self')) (cid, idx)
           = value (heap (model_instance self)) (cid, idx).
Proof.
  intros _ Hcomp self'. subst self'.
  destruct (setup_view paramList self) as [_ [added Hv]].
  split.
  { apply (f_equal length) in Hv. unfold view in Hv.
    rewrite length_app, !length_fmap in Hv. lia. }
  assert (view (heap (model_instance self)) !! cid = Some (view_of comp))
    as Hvc by (unfold view; by rewrite list_lookup_fmap, Hcomp).
  assert (view (heap (model_instance (setup_sensitivity paramList self).1))
            !! cid = Some (view_of comp)) as Hvc'
    by (rewrite Hv; by apply lookup_app_l_Some).
  destruct (view_lookup _ _ _ _ _ Hvc) as (_ & _ & Hval0).
  destruct (view_lookup _ _ _ _ _ Hvc') as (Hct & Hmu & Hval').
  split; [done|]. split; [done|]. intros idx. by rewrite Hval', Hval0.
Qed.

Lemma setup_keeps_existing_components_witness :
  value (heap (model_instance example_after_setup_p.1)) x_ = Some 5.
Proof.
  destruct (setup_keeps_existing_components (H := reference_host)
              (SensitivityInterface_init example_model false) [0%nat]
              1%nat (scalar_component Var "x" false 5 false) eq_refl eq_refl)
    as (_ & _ & _ & Hval).
  exact (Hval _NotAnIndex).
Defined.

(** ** Relocation in any working directory (lines 136-152) *)

Lemma files_of_move_file f src :
  movable f src = true → files_of (move_file f src) = files_of f.
Proof.
  unfold movable, move_file, files_of. destruct f as [c [there|]]; cbn;
    [|discriminate].
  intros [_ Hcwd%bool_decide_eq_true]%andb_prop.
  apply set_eq. intros g.
  rewrite !elem_of_union, elem_of_difference, elem_of_singleton.
  destruct (decide (g = src)) as [->|]; tauto.
Qed.

Lemma files_of_after_makedirs f :
  files_of (after_makedirs f) = files_of f
  ∧ cwd (after_makedirs f) = cwd f.
Proof.
  unfold after_makedirs, files_of. destruct f as [c [there|]]; cbn; [done|].
  case_decide; done.
Qed.

(** What a run of moves does, whatever its outcome. *)
Lemma move_loop_post l w :
  let r := forM_ shutil_move l w in
  sens r.1 = sens w
  ∧ (r.2 = Returned tt ∨ ∃ e, r.2 = Raised e ∧ is_OSError e = true)
  ∧ files_of (fs r.1) = files_of (fs w)
  ∧ cwd (fs r.1) ⊆ cwd (fs w)
  ∧ (∀ g, g ∈ cwd (fs w) → g ∉ l → g ∈ cwd (fs r.1))
  ∧ ∃ attempted, attempted `prefix_of` l
                 ∧ log r.1 = log w ++ (Move <$> attempted).
Proof.
  revert w. induction l as [|src l IH]; intros w; cbn zeta.
  { cbn. split; [done|]. split; [by left|]. split; [done|]. split; [done|].
    split; [done|]. exists []. split; [done|]. by rewrite app_nil_r. }
  cbn [forM_]. destruct (movable (fs w) src) eqn:Hm.
  - erewrite bind_run by (by apply shutil_move_movable).
    set (w1 := {| sens := sens w; fs := move_file (fs w) src;
                  log := log w ++ [Move src] |}).
    destruct (IH w1) as (Hs & Ho & Hf & Hc & Hk & att & Hpre & Hlog).
    split; [exact Hs|]. split; [exact Ho|].
    split; [rewrite Hf; by apply files_of_move_file|].
    split.
    { intros g Hg. apply Hc in Hg. cbn in Hg.
      apply elem_of_difference in Hg. tauto. }
    split.
    { intros g Hg Hnot. apply not_elem_of_cons in Hnot as [Hne Hnot].
      apply Hk; [|done]. cbn. apply elem_of_difference.
      split; [done|]. by rewrite elem_of_singleton. }
    exists (src :: att). split; [by apply prefix_cons|].
    rewrite Hlog. cbn. by rewrite <- app_assoc.
  - destruct (shutil_move_not_movable src w Hm) as (e & He & Hrun).
    erewrite bind_Raised by exact Hrun. cbn.
    split; [done|]. split; [right; by exists e|]. split; [done|].
    split; [done|]. split; [done|].
    exists [src]. split; [|done]. apply prefix_cons, prefix_nil.
Qed.

Lemma moved_files l f g :
  g ∈ l → is_Some (dsdp f) →
  (g ∉ cwd (fold_left move_file l f))
  ∧ ∃ there, dsdp (fold_left move_file l f) = Some there ∧ g ∈ there.
Proof.
  revert f. induction l as [|src l IH] using rev_ind; intros f Hg Hd.
  { by apply elem_of_nil in Hg. }
  rewrite fold_left_app. cbn [fold_left].
  assert (is_Some (dsdp (fold_left move_file l f))) as [there Hthere].
  { clear IH Hg. revert f Hd. induction l as [|x l IHl]; intros f Hd; [done|].
    cbn. apply IHl. cbn. destruct Hd as [t ->]. by eexists. }
  destruct (decide (g = src)) as [->|Hne].
  - cbn. rewrite Hthere. cbn. split.
    + rewrite elem_of_difference, elem_of_singleton. tauto.
    + eexists. split; [done|]. apply elem_of_union_l. by apply elem_of_singleton.
  - apply elem_of_app in Hg as [Hg|Hg%list_elem_of_singleton]; [|done].
    destruct (IH f Hg Hd) as (Hnot & there' & Hthere' & Hin).
    rewrite Hthere in Hthere'. injection Hthere' as <-.
    cbn. rewrite Hthere. cbn. split.
    + rewrite elem_of_difference. tauto.
    + eexists. split; [done|]. by apply elem_of_union_r.
Qed.

Lemma relocate_artifacts_post (w : World) :
  (relocate_artifacts w).2 = Returned tt
  ∧ sens (relocate_artifacts w).1 = sens w
  ∧ files_of (fs (relocate_artifacts w).1) = files_of (fs w)
  ∧ cwd (fs (relocate_artifacts w).1) ⊆ cwd (fs w)
  ∧ (∀ g, g ∈ cwd (fs w) → g ∉ dsdp_artifacts →
          g ∈ cwd (fs (relocate_artifacts w).1))
  ∧ ∃ attempted, attempted `prefix_of` dsdp_artifacts
                 ∧ log (relocate_artifacts w).1
                   = log w ++ (Move <$> attempted).
Proof.
  set (w1 := {| sens := sens w; fs := after_makedirs (fs w); log := log w |}).
  destruct (move_loop_post dsdp_artifacts w1)
    as (Hs & Ho & Hf & Hc & Hk & att & Hpre & Hlog).
  destruct (files_of_after_makedirs (fs w)) as [Hf1 Hc1].
  assert (relocate_artifacts w
          = ((forM_ shutil_move dsdp_artifacts w1).1, Returned tt)) as Hrun.
  { unfold relocate_artifacts.
    erewrite bind_run by apply makedirs_tolerant. fold w1.
    unfold try_except.
    destruct (forM_ shutil_move dsdp_artifacts w1) as [w2 [[]|e]];
      cbn [fst snd] in *; [done|].
    destruct Ho as [Ho|(e' & [= <-] & He)]; [done|]. by rewrite He. }
  rewrite Hrun. cbn [fst snd].
  split; [done|]. split; [exact Hs|].
  split; [by rewrite Hf|]. split; [by rewrite <- Hc1|].
  split; [intros g Hg; apply Hk; cbn; by rewrite Hc1|].
  by exists att.
Qed.


(** X7: when the nine artifacts are all in the working directory and
    nothing stands in the way (no file named [dsdp], or a directory [dsdp]
    that holds none of them), all nine are moved, in order: afterwards each
    is in [dsdp] and none is left in the working directory. *)
Theorem relocation_moves_every_artifact (w : World) :
  (∀ g, g ∈ dsdp_artifacts → g ∈ cwd (fs w)) →
  match dsdp (fs w) with
  | Some there => ∀ g, g ∈ dsdp_artifacts → g ∉ there
  | None => "dsdp" ∉ cwd (fs w)
  end →
  (relocate_artifacts w).2 = Returned tt
  ∧ log (relocate_artifacts w).1 = log w ++ (Move <$> dsdp_artifacts)
  ∧ ∀ g, g ∈ dsdp_artifacts →
         (g ∉ cwd (fs (relocate_artifacts w).1))
         ∧ ∃ there, dsdp (fs (relocate_artifacts w).1) = Some there
                    ∧ g ∈ there.
Proof.
  intros Hcwd Hfree.
  set (w1 := {| sens := sens w; fs := after_makedirs (fs w); log := log w |}).
  assert (is_Some (dsdp (fs w1))
          ∧ ∀ g, g ∈ dsdp_artifacts → movable (fs w1) g = true) as [Hd Hmov].
  { cbn. unfold after_makedirs, movable.
    destruct (fs w) as [c [there|]]; cbn in *.
    - split; [by eexists|]. intros g Hg.
      rewrite !bool_decide_eq_true_2; [done|by apply Hcwd|by apply Hfree].
    - rewrite decide_False by done. cbn. split; [by eexists|]. intros g Hg.
      rewrite !bool_decide_eq_true_2; [done|by apply Hcwd|].
      apply not_elem_of_empty. }
  pose proof (moves_all_movable dsdp_artifacts w1 dsdp_artifacts_NoDup Hmov)
    as Hmoved.
  assert (relocate_artifacts w
          = ({| sens := sens w1;
                fs := fold_left move_file dsdp_artifacts (fs w1);
                log := log w1 ++ (Move <$> dsdp_artifacts) |}, Returned tt))
    as Hrun.
  { unfold relocate_artifacts.
    erewrite bind_run by apply makedirs_tolerant. fold w1.
    unfold try_except. by rewrite Hmoved. }
  rewrite Hrun. cbn [fst snd fs log].
  split; [done|]. split; [done|].
  intros g Hg. by apply moved_files.
Qed.

Lemma relocation_moves_every_artifact_witness :
  let w := {| sens := SensitivityInterface_init example_model false;
              fs := {| cwd := list_to_set dsdp_artifacts; dsdp := None |};
              log := [] |} in
  (relocate_artifacts w).2 = Returned tt
  ∧ log (relocate_artifacts w).1 = Move <$> dsdp_artifacts.
Proof.
  intros w.
  destruct (relocation_moves_every_artifact w) as (Hret & Hlog & _).
  - intros g Hg.
    change (g ∈ (list_to_set dsdp_artifacts : gset string)).
    by apply elem_of_list_to_set.
  - change ("dsdp" ∉ (list_to_set dsdp_artifacts : gset string)).
    rewrite elem_of_list_to_set. intros Hin.
    apply list_elem_of_In in Hin. cbn in Hin. intuition discriminate.
  - split; [exact Hret | exact Hlog].
Defined.

(** ** What perturbation leaves alone (lines 366-399) *)

Lemma bind_post {S A B} (P : S → Prop) (c : M S A) (k : A → M S B) s :
  P (c s).1 →
  (∀ a s1, c s = (s1, Returned a) → P s1 → P (k a s1).1) →
  P (bind c k s).1.
Proof.
  intros Hc Hk. unfold bind.
  destruct (c s) as [s1 [a|e]] eqn:E; [by apply Hk | done].
Qed.

Lemma same_but_slots_refl names s : same_but_slots names s s.
Proof. by repeat split. Qed.

Lemma suffix_setitem_frame names name k v s0 s :
  name ∈ names →
  same_but_slots names s0 s →
  same_but_slots names s0 (suffix_setitem name k v s).1.
Proof.
  intros Hin (Ho & Hb & Hh & Hobj & Hcon & Hblk & Hbm & Hsfx & Hdir).
  unfold suffix_setitem, bind, get_instance.
  destruct (suffixes (model_instance s) !! name) as [sf|] eqn:Hsf; cbn;
    [|by repeat split].
  repeat (split; [done|]).
  cbn [model_instance update_instance suffixes with_suffixes]. split.
  - intros name' Hnot. rewrite lookup_alter_ne; [by apply Hsfx|].
    intros ->. done.
  - intros name'. rewrite <- Hdir.
    destruct (decide (name = name')) as [<-|Hne].
    + rewrite lookup_alter_eq, Hsf. done.
    + by rewrite lookup_alter_ne.
Qed.

Lemma paramConst_getitem_state idx s : (paramConst_getitem idx s).1 = s.
Proof.
  unfold paramConst_getitem, bind, get_block.
  destruct (block_bound s); [|done].
  destruct (sens_block (model_instance s)) as [blk|]; [|done]. cbn.
  destruct (paramConst blk ≫= _); [|done].
  by destruct (Nat.eqb idx 0).
Qed.

Lemma perturb_entry_frame perturbList x s0 s :
  same_but_slots ["sens_state_value_1"; "DeltaP"] s0 s →
  same_but_slots ["sens_state_value_1"; "DeltaP"] s0
                 (perturb_entry perturbList x s).1.
Proof.
  intros Hs. destruct x as [i [[[var param] li] ci]]. unfold perturb_entry.
  apply bind_post; [by rewrite paramConst_getitem_state|].
  intros con s1 Hc _.
  assert (s1 = s) as ->.
  { pose proof (paramConst_getitem_state (i + 1) s) as Hst.
    by rewrite Hc in Hst. }
  apply bind_post; [done|]. intros ptb s1 [= <- _] _.
  apply bind_post.
  { apply suffix_setitem_frame; [left | done]. }
  intros [] s1 Hset _.
  assert (same_but_slots ["sens_state_value_1"; "DeltaP"] s0 s1) as Hs1.
  { pose proof (suffix_setitem_frame ["sens_state_value_1"; "DeltaP"]
                  "sens_state_value_1" (DataKey var) ptb s0 s) as Hf.
    rewrite Hset in Hf. apply Hf; [left | done]. }
  apply bind_post; [done|]. intros instance s2 [= <- _] _.
  destruct (value (heap instance) var); [|exact Hs1].
  apply suffix_setitem_frame; [right; left | exact Hs1].
Qed.

(** X8: whatever its outcome, [perturb_parameters] changes nothing but the
    entries of the two suffixes [sens_state_value_1] and [DeltaP]: no value
    or [fixed] flag of the model, no objective or constraint, no field of
    the block, no entry of another suffix, and it neither creates a suffix
    nor changes a direction. *)
Theorem perturb_parameters_writes_two_suffixes_only
    (self : SensitivityInterface) (perturbList : list perturbation) :
  same_but_slots ["sens_state_value_1"; "DeltaP"] self
                 (perturb_parameters perturbList self).1.
Proof.
  unfold perturb_parameters.
  apply bind_post.
  { unfold get_block. destruct (block_bound self); [|apply same_but_slots_refl].
    destruct (sens_block (model_instance self)); apply same_but_slots_refl. }
  intros blk s1 Hblk _.
  assert (s1 = self) as ->.
  { unfold get_block in Hblk. destruct (block_bound self); [|congruence].
    destruct (sens_block (model_instance self)); congruence. }
  destruct (paramConst blk); [|apply same_but_slots_refl].
  destruct (negb _); [apply same_but_slots_refl|].
  apply (forM__invariant
           (same_but_slots ["sens_state_value_1"; "DeltaP"] self)).
  - intros x s. apply perturb_entry_frame.
  - apply same_but_slots_refl.
Qed.

(** ** A second setup (lines 193-210) *)

Section OneShot.
Context `{PyomoHost}.

Lemma teardown_refuses_RuntimeError self blk :
  sens_block (model_instance self) = Some blk →
  (∀ mem, assoc "has_replaced_expressions" (members blk) = Some mem →
          component_truth mem = Returned true) →
  teardown_or_refuse self = (self, Raised RuntimeError).
Proof.
  intros Hblk Hname.
  unfold teardown_or_refuse, bind, get_instance. rewrite Hblk.
  rewrite getattr_has_replaced_expressions.
  destruct (assoc _ (members blk)) as [mem|] eqn:Hmem; cbn; [|done].
  unfold lift_outcome. by rewrite (Hname mem eq_refl).
Qed.

Lemma setup_on_block_raises self blk paramList :
  sens_block (model_instance self) = Some blk →
  (∀ mem, component_truth mem = Returned true) →
  (setup_sensitivity paramList self = (self, Raised RuntimeError)
   ∨ setup_sensitivity paramList self = (self, Raised ValueError))
  ∧ (Forall (fun cid => cid < length (heap (model_instance self)))%nat
            paramList →
     setup_sensitivity paramList self = (self, Raised RuntimeError)).
Proof.
  intros Hblk Htrue.
  assert (resolve_paramList self paramList
          = Returned (find_components_on self paramList) →
          setup_sensitivity paramList self = (self, Raised RuntimeError))
    as Hguard.
  { intros Hres. unfold setup_sensitivity.
    erewrite bind_run by reflexivity. rewrite (resolve_step _ _ _ _ Hres).
    by erewrite bind_Raised
      by (apply (teardown_refuses_RuntimeError self blk); [done|by intros]). }
  destruct (resolve_paramList_cases self paramList) as [Hres|(Hres & _ & Hoff)].
  - split; [left|intros _]; by apply Hguard.
  - split; [|by intros Hon]. right. unfold setup_sensitivity.
    erewrite bind_run by reflexivity. by apply resolve_raise.
Qed.

End OneShot.

(** X9: a [SensitivityInterface] is good for one [setup_sensitivity] only.
    In a host whose components are all of truth value true, once a call has
    returned normally, every further call raises and changes nothing,
    whether or not expressions were replaced: it raises [RuntimeError] when
    it designates components of the model, and [RuntimeError] or
    [ValueError] whatever it designates. *)
Theorem setup_is_one_shot `{PyomoHost}
    (self self' : SensitivityInterface) (paramList paramList' : list nat) :
  (∀ mem, component_truth mem = Returned true) →
  setup_sensitivity paramList self = (self', Returned tt) →
  (setup_sensitivity paramList' self' = (self', Raised RuntimeError)
   ∨ setup_sensitivity paramList' self' = (self', Raised ValueError))
  ∧ (Forall (fun cid => cid < length (heap (model_instance self)))%nat
            paramList' →
     setup_sensitivity paramList' self' = (self', Raised RuntimeError)).
Proof.
  intros Htrue Hrun.
  destruct (setup_returned paramList self self' Hrun)
    as (blk' & _ & added & _ & Hblk' & _ & _ & Hview & _).
  destruct (setup_on_block_raises self' blk' paramList' Hblk' Htrue)
    as [Hany Hon].
  split; [exact Hany|]. intros Hmodel. apply Hon.
  eapply Forall_impl; [exact Hmodel|]. intros cid Hcid. cbn in *.
  apply (f_equal length) in Hview. unfold view in Hview.
  rewrite length_app, !length_fmap in Hview. lia.
Qed.

Lemma setup_is_one_shot_witness :
  setup_sensitivity (H := reference_host) [0%nat] example_after_setup_y.1
  = (example_after_setup_y.1, Raised RuntimeError).
Proof.
  assert (setup_sensitivity (H := reference_host) [2%nat]
            (SensitivityInterface_init example_model false)
          = (example_after_setup_y.1, Returned tt)) as Hrun.
  { unfold example_after_setup_y.
    destruct (setup_sensitivity (H := reference_host) [2%nat]
                (SensitivityInterface_init example_model false))
      as [s o] eqn:E.
    assert (o = Returned tt) as ->; [|reflexivity].
    change o with (s, o).2. rewrite <- E. vm_compute. reflexivity. }
  destruct (setup_is_one_shot (H := reference_host)
              (SensitivityInterface_init example_model false)
              example_after_setup_y.1 [2%nat] [0%nat]
              (fun _ => eq_refl) Hrun) as [_ Hon].
  apply Hon. repeat constructor.
Defined.

(** ** The pinning constraints at the point where setup returns *)

(** X10: when [setup_sensitivity] returns, every pinning constraint
    [var - param == 0] holds at the current values of the model: the free
    entity and the parameter entity of each record carry the same value. *)
Theorem pinning_constraints_hold_after_setup `{PyomoHost}
    (self self' : SensitivityInterface) (paramList : list nat) :
  setup_sensitivity paramList self = (self', Returned tt) →
  ∃ blk' l,
    sens_block (model_instance self') = Some blk'
    ∧ paramConst blk' = Some l
    ∧ length l = length (_sens_data_list blk')
    ∧ Forall (satisfies (current_values (heap (model_instance self')))) l
    ∧ ∀ d, d ∈ _sens_data_list blk' →
           is_Some (value (heap (model_instance self')) (free_entity d))
           ∧ value (heap (model_instance self')) (free_entity d)
             = value (heap (model_instance self')) (parameter_entity d).
Proof.
  intros Hrun.
  destruct (setup_returned paramList self self' Hrun)
    as (blk' & sfx & added & _ & Hblk' & _ & Hpc & _ & Hrec & _).
  exists blk', (pinning <$> _sens_data_list blk').
  split; [done|]. split; [done|]. split; [by rewrite length_fmap|].
  rewrite Forall_forall in Hrec. split.
  - apply Forall_fmap, Forall_forall. intros d Hd.
    destruct (record_ok_values _ _ _ _ (Hrec d Hd)) as (z & Hf & Hp).
    destruct d as [[[var param] li] ci].
    unfold free_entity, parameter_entity in Hf, Hp. cbn in Hf, Hp.
    cbn. unfold current_values. rewrite Hf, Hp. cbn. lia.
  - intros d Hd.
    destruct (record_ok_values _ _ _ _ (Hrec d Hd)) as (z & Hf & Hp).
    rewrite Hf, Hp. split; [by eexists | done].
Qed.

Lemma pinning_constraints_hold_after_setup_witness :
  ∃ self' blk' l,
    setup_sensitivity (H := reference_host) [0%nat; 2%nat]
      (SensitivityInterface_init example_model false) = (self', Returned tt)
    ∧ sens_block (model_instance self') = Some blk'
    ∧ paramConst blk' = Some l
    ∧ Forall (satisfies (current_values (heap (model_instance self')))) l.
Proof.
  destruct (setup_returns (H := reference_host)
              (SensitivityInterface_init example_model false)
              [0%nat; 2%nat] eq_refl example_acceptable) as [self' Hrun].
  destruct (pinning_constraints_hold_after_setup (H := reference_host)
              _ _ _ Hrun) as (blk' & l & Hblk & Hl & _ & Hsat & _).
  exists self', blk', l.
  split; [exact Hrun|]. split; [exact Hblk|]. split; [exact Hl | exact Hsat].
Defined.

(** ** The order of external effects (lines 105-153, 41-57) *)

Section DriverOrder.
Context `{PyomoHost}.

Lemma bind_unfold {S A B} (c : M S A) (k : A → M S B) s :
  bind c k s = match c s with
               | (s1, Returned a) => k a s1
               | (s1, Raised e) => (s1, Raised e)
               end.
Proof. reflexivity. Qed.

Lemma on_sens_post {A} (c : M SensitivityInterface A) w :
  log (on_sens c w).1 = log w ∧ fs (on_sens c w).1 = fs w
  ∧ (on_sens c w).2 = (c (sens w)).2
  ∧ sens (on_sens c w).1 = (c (sens w)).1.
Proof. unfold on_sens. by destruct (c (sens w)). Qed.

Lemma solve_files name options w :
  log (solve name options w).1 = log w ++ [Solve name]
  ∧ dsdp (fs (solve name options w).1) = dsdp (fs w)
  ∧ cwd (fs w) ⊆ cwd (fs (solve name options w).1).
Proof.
  unfold solve, bind, emit, get, modify, create_files, modify_fs, on_sens,
    modify_instance, modify. cbn.
  destruct (solver_solve name options (model_instance (sens w))) as [r|];
    cbn; [|done].
  split; [done|]. split; [done|]. apply union_subseteq_r.
Qed.

Lemma no_move_in (l : list event) :
  Forall (fun e => match e with Move _ => False | _ => True end) l →
  ∀ f, Move f ∉ l.
Proof.
  intros Hall f Hin. rewrite Forall_forall in Hall. by apply (Hall _ Hin).
Qed.

(** The ['sipopt'] strategy. *)
Lemma sipopt_run_post paramList perturbList w :
  let run := sensitivity_calculation_body "sipopt" paramList perturbList w in
  (log run.1 = log w ∨ log run.1 = log w ++ [Solve "ipopt_sens"])
  ∧ (log run.1 = log w ++ [Solve "ipopt_sens"]
     ↔ ∃ s1 s2, setup_sensitivity paramList (sens w) = (s1, Returned tt)
                ∧ perturb_parameters perturbList s1 = (s2, Returned tt))
  ∧ dsdp (fs run.1) = dsdp (fs w)
  ∧ cwd (fs w) ⊆ cwd (fs run.1)
  ∧ ∀ m, run.2 = Returned m →
         m = model_instance (sens run.1)
         ∧ log run.1 = log w ++ [Solve "ipopt_sens"].
Proof.
  cbn zeta. unfold sensitivity_calculation_body.
  rewrite (decide_False (P := "sipopt" = "kaug")) by discriminate.
  rewrite (decide_True (P := "sipopt" = "sipopt")) by reflexivity.
  cbv beta iota.
  assert (∀ (l : list event) x, l = l ++ [x] → False) as Hneq.
  { intros l x Heq. apply (f_equal length) in Heq.
    rewrite length_app in Heq. cbn in Heq. lia. }
  rewrite bind_unfold.
  pose proof (on_sens_post (setup_sensitivity paramList) w)
    as (Hl1 & Hf1 & Ho1 & Hs1).
  destruct (setup_sensitivity paramList (sens w)) as [s1 o1] eqn:Hsetup.
  destruct (on_sens (setup_sensitivity paramList) w) as [w1 o1'].
  cbn [fst snd] in *. subst o1' s1.
  destruct o1 as [[]|e]; cbn [fst snd].
  2:{ rewrite Hf1, Hl1. split; [by left|]. split.
      { split; [by intros ?%Hneq | by intros (? & ? & [=] & _)]. }
      split; [done|]. split; [done|]. intros m [=]. }
  rewrite bind_unfold. cbn [ret].
  rewrite bind_unfold.
  pose proof (on_sens_post (perturb_parameters perturbList) w1)
    as (Hl2 & Hf2 & Ho2 & Hs2).
  destruct (perturb_parameters perturbList (sens w1)) as [s2 o2] eqn:Hptb.
  destruct (on_sens (perturb_parameters perturbList) w1) as [w2 o2'].
  cbn [fst snd] in *. subst o2' s2.
  destruct o2 as [[]|e]; cbn [fst snd].
  2:{ rewrite Hf2, Hf1, Hl2, Hl1. split; [by left|]. split.
      { split; [by intros ?%Hneq|].
        intros (s1' & s2' & [= <-] & Hp). rewrite Hptb in Hp. by injection Hp. }
      split; [done|]. split; [done|]. intros m [=]. }
  assert (∃ s1 s2,
            (sens w1, Returned tt) = (s1, Returned tt)
            ∧ perturb_parameters perturbList s1 = (s2, Returned tt)) as Hboth
    by (by exists (sens w1), (sens w2)).
  rewrite bind_unfold.
  pose proof (solve_files "ipopt_sens" [("run_sens", "yes")] w2)
    as (Hl3 & Hd3 & Hc3).
  destruct (solve "ipopt_sens" [("run_sens", "yes")] w2) as [w3 [[]|e]];
    cbn [fst snd] in *.
  2:{ rewrite Hl3, Hl2, Hl1, Hd3, Hf2, Hf1. split; [by right|].
      split; [done|].
      split; [done|]. split; [by rewrite <- Hc3, Hf2, Hf1|]. intros m [=]. }
  unfold on_sens, get_instance. cbn.
  rewrite Hl3, Hl2, Hl1, Hd3, Hf2, Hf1. split; [by right|]. split; [done|].
  split; [done|].
  split; [by rewrite <- Hc3, Hf2, Hf1|]. intros m [= <-]. done.
Qed.

(** The ['kaug'] strategy. *)
Lemma kaug_run_post paramList perturbList w :
  let run := sensitivity_calculation_body "kaug" paramList perturbList w in
  (∃ done,
     log run.1 = log w ++ done
     ∧ done `prefix_of` ([Solve "ipopt"; Solve "k_aug"; Solve "dot_sens"]
                         ++ (Move <$> dsdp_artifacts)))
  ∧ (is_raised run.2 = true →
     ∃ done, log run.1 = log w ++ done
             ∧ done `prefix_of`
                 [Solve "ipopt"; Solve "k_aug"; Solve "dot_sens"])
  ∧ ∀ m, run.2 = Returned m →
         m = model_instance (sens run.1)
         ∧ ∃ attempted,
             attempted `prefix_of` dsdp_artifacts
             ∧ log run.1
               = log w ++ [Solve "ipopt"; Solve "k_aug"; Solve "dot_sens"]
                       ++ (Move <$> attempted).
Proof.
  cbn zeta. unfold sensitivity_calculation_body.
  rewrite !(decide_True (P := "kaug" = "kaug")) by reflexivity.
  rewrite (decide_False (P := "kaug" = "sipopt")) by discriminate.
  cbv beta iota.
  assert (∀ (w' : World) e (l : list event),
            log w' = log w ++ l →
            l `prefix_of` [Solve "ipopt"; Solve "k_aug"; Solve "dot_sens"] →
            let run : World * outcome Model := (w', Raised e) in
            (∃ done,
               log run.1 = log w ++ done
               ∧ done `prefix_of`
                   ([Solve "ipopt"; Solve "k_aug"; Solve "dot_sens"]
                    ++ (Move <$> dsdp_artifacts)))
            ∧ (is_raised run.2 = true →
               ∃ done, log run.1 = log w ++ done
                       ∧ done `prefix_of`
                           [Solve "ipopt"; Solve "k_aug"; Solve "dot_sens"])
            ∧ ∀ m, run.2 = Returned m →
                   m = model_instance (sens run.1)
                   ∧ ∃ attempted,
                       attempted `prefix_of` dsdp_artifacts
                       ∧ log run.1
                         = log w ++ [Solve "ipopt"; Solve "k_aug";
                                     Solve "dot_sens"]
                                 ++ (Move <$> attempted)) as Hfail.
  { intros w' e l Hl Hpre. cbn [fst snd]. split; [|split].
    - exists l. split; [done|]. by apply prefix_app_r.
    - intros _. by exists l.
    - intros m [=]. }
  rewrite bind_unfold.
  pose proof (on_sens_post (setup_sensitivity paramList) w)
    as (Hl1 & _).
  destruct (on_sens (setup_sensitivity paramList) w) as [w1 [[]|e]];
    cbn [fst snd] in *.
  2:{ apply (Hfail _ _ []); [by rewrite app_nil_r | apply prefix_nil]. }
  rewrite bind_unfold.
  pose proof (kaug_baseline_post w1) as [_ Hl2].
  destruct (kaug_baseline w1) as [w2 [[]|e]]; cbn [fst snd] in *.
  2:{ destruct Hl2 as [Hl2|[Hl2 _]]; rewrite Hl1 in Hl2.
      - apply (Hfail _ _ _ Hl2). by exists [Solve "dot_sens"].
      - apply (Hfail _ _ _ Hl2). by exists [Solve "k_aug"; Solve "dot_sens"]. }
  destruct Hl2 as [Hl2|[_ ?]]; [|done]. rewrite Hl1 in Hl2.
  rewrite bind_unfold.
  pose proof (on_sens_post (perturb_parameters perturbList) w2)
    as (Hl3 & _).
  destruct (on_sens (perturb_parameters perturbList) w2) as [w3 [[]|e]];
    cbn [fst snd] in *.
  2:{ rewrite <- Hl3 in Hl2. apply (Hfail _ _ _ Hl2).
      by exists [Solve "dot_sens"]. }
  rewrite <- Hl3 in Hl2.
  rewrite bind_unfold. rewrite bind_unfold.
  pose proof (solve_files "dot_sens" [("dsdp_mode", EmptyString)] w3)
    as (Hl4 & _).
  destruct (solve "dot_sens" [("dsdp_mode", EmptyString)] w3)
    as [w4 [[]|e]]; cbn [fst snd] in *.
  2:{ rewrite Hl2, <- app_assoc in Hl4. apply (Hfail _ _ _ Hl4). done. }
  rewrite Hl2, <- app_assoc in Hl4. cbn [app] in Hl4.
  destruct (relocate_artifacts_post w4)
    as (Hret & _ & _ & _ & _ & att & Hatt & Hl5).
  destruct (relocate_artifacts w4) as [w5 o5]; cbn [fst snd] in *.
  subst o5. unfold on_sens, get_instance.
  cbn [fst snd sens log fs model_instance].
  rewrite Hl5, Hl4, <- app_assoc. cbn [app].
  split; [|split].
  - eexists. split; [reflexivity|].
    apply (prefix_app [Solve "ipopt"; Solve "k_aug"; Solve "dot_sens"]).
    destruct Hatt as [rest ->]. rewrite fmap_app. by eexists.
  - intros [=].
  - intros m [= <-]. split; [done|]. by exists att.
Qed.

(** A strategy that is neither ['sipopt'] nor ['kaug']. *)
Lemma other_method_run method paramList perturbList w :
  method ≠ "sipopt" → method ≠ "kaug" →
  sensitivity_calculation_body method paramList perturbList w
  = on_sens (setup_sensitivity paramList ;;
             perturb_parameters perturbList ;;
             get_instance) w.
Proof.
  intros Hs Hk. unfold sensitivity_calculation_body.
  rewrite !(decide_False (P := method = "kaug")) by done.
  rewrite (decide_False (P := method = "sipopt")) by done.
  cbv beta iota.
  unfold on_sens, bind, ret.
  destruct (setup_sensitivity paramList (sens w)) as [s1 [[]|e]]; [|done].
  cbn.
  destruct (perturb_parameters perturbList s1) as [s2 [[]|e]]; [|done].
  done.
Qed.

End DriverOrder.

(** X11: the deprecated entry point [sipopt] invokes at most one external
    program, [ipopt_sens], and it invokes it exactly when setup and
    perturbation have both returned normally; it moves no file and leaves
    the [dsdp] directory alone, and no file disappears from the working
    directory.  When it returns, it returns the working model, and
    [ipopt_sens] has been run. *)
Theorem sipopt_invokes_ipopt_sens_only `{PyomoHost}
    (instance : Model) (paramSubList : list nat)
    (perturbList : list perturbation) (cloneModel : bool)
    (files : FileSystem) :
  let run := sipopt instance paramSubList perturbList cloneModel files in
  (log run.1 = [] ∨ log run.1 = [Solve "ipopt_sens"])
  ∧ (log run.1 = [Solve "ipopt_sens"]
     ↔ ∃ s1 s2,
         setup_sensitivity paramSubList
           (SensitivityInterface_init instance cloneModel)
         = (s1, Returned tt)
         ∧ perturb_parameters perturbList s1 = (s2, Returned tt))
  ∧ dsdp (fs run.1) = dsdp files
  ∧ cwd files ⊆ cwd (fs run.1)
  ∧ ∀ m, run.2 = Returned m →
         m = model_instance (sens run.1) ∧ log run.1 = [Solve "ipopt_sens"].
Proof.
  apply (sipopt_run_post paramSubList perturbList
           {| sens := SensitivityInterface_init instance cloneModel;
              fs := files; log := [] |}).
Qed.

(** X12: the deprecated entry point [kaug] invokes [ipopt], [k_aug] and
    [dot_sens] in that order and attempts the moves of the artifacts, in
    their order, only after all three: whatever happens, what it has done
    is an initial part of that sequence.  A run that raises has moved
    nothing, and a run that returns has run the three programs and returns
    the working model, however the relocation went. *)
Theorem kaug_effects_in_order `{PyomoHost}
    (instance : Model) (paramSubList : list nat)
    (perturbList : list perturbation) (cloneModel : bool)
    (solver_options : option (list (string * string)))
    (files : FileSystem) :
  let run := kaug instance paramSubList perturbList cloneModel solver_options
                  files in
  log run.1 `prefix_of` ([Solve "ipopt"; Solve "k_aug"; Solve "dot_sens"]
                         ++ (Move <$> dsdp_artifacts))
  ∧ (is_raised run.2 = true →
     log run.1 `prefix_of` [Solve "ipopt"; Solve "k_aug"; Solve "dot_sens"])
  ∧ ∀ m, run.2 = Returned m →
         m = model_instance (sens run.1)
         ∧ ∃ attempted,
             attempted `prefix_of` dsdp_artifacts
             ∧ log run.1 = [Solve "ipopt"; Solve "k_aug"; Solve "dot_sens"]
                           ++ (Move <$> attempted).
Proof.
  cbn zeta. unfold kaug, sensitivity_calculation.
  destruct (kaug_run_post paramSubList perturbList
              {| sens := SensitivityInterface_init instance cloneModel;
                 fs := files; log := [] |})
    as ((l & Hl & Hpre) & Hraised & Hret).
  cbn [log app] in *.
  split; [by rewrite Hl|]. split.
  - intros Hr. destruct (Hraised Hr) as (l' & Hl' & Hpre'). by rewrite Hl'.
  - exact Hret.
Qed.

(** X13: a strategy name other than ['sipopt'] and ['kaug'] is not
    rejected: the run sets the interface up and perturbs it, invokes no
    external program, touches no file, and returns the working model
    whenever setup and perturbation succeed. *)
Theorem unknown_method_runs_no_solver `{PyomoHost} (method : string)
    (instance : Model) (paramList : list nat)
    (perturbList : list perturbation) (cloneModel : bool)
    (files : FileSystem) :
  method ≠ "sipopt" → method ≠ "kaug" →
  let run := sensitivity_calculation method instance paramList perturbList
               cloneModel files in
  log run.1 = [] ∧ fs run.1 = files
  ∧ ∀ s1 s2,
      setup_sensitivity paramList
        (SensitivityInterface_init instance cloneModel) = (s1, Returned tt) →
      perturb_parameters perturbList s1 = (s2, Returned tt) →
      run = ({| sens := s2; fs := files; log := [] |},
             Returned (model_instance s2)).
Proof.
  intros Hs Hk run. subst run. unfold sensitivity_calculation.
  rewrite other_method_run by done.
  set (w := {| sens := SensitivityInterface_init instance cloneModel;
               fs := files; log := [] |}).
  destruct (on_sens_post (setup_sensitivity paramList ;;
                          perturb_parameters perturbList ;;
                          get_instance) w) as (Hl & Hf & _).
  split; [exact Hl|]. split; [exact Hf|].
  intros s1 s2 Hsetup Hptb. unfold on_sens. cbn [sens w].
  erewrite bind_run by exact Hsetup. erewrite bind_run by exact Hptb.
  reflexivity.
Qed.

Lemma unknown_method_runs_no_solver_witness :
  let run := sensitivity_calculation (H := reference_host) "ipopt"
               example_model [0%nat] [PtbScalar 7] true
               {| cwd := ∅; dsdp := None |} in
  log run.1 = [] ∧ fs run.1 = {| cwd := ∅; dsdp := None |}.
Proof.
  cbn zeta.
  destruct (unknown_method_runs_no_solver (H := reference_host) "ipopt"
              example_model [0%nat] [PtbScalar 7] true
              {| cwd := ∅; dsdp := None |}) as (Hl & Hf & _).
  - discriminate.
  - discriminate.
  - split; [exact Hl | exact Hf].
Defined.

(** ** Replacing the expressions (lines 286-343) *)

Section Rewriting.
Context `{PyomoHost}.

Lemma deactivate_objective_inactive o :
  obj_active o = false → deactivate_objective o = o.
Proof. destruct o; cbn. by intros ->. Qed.

Lemma deactivate_constraint_inactive c :
  con_active c = false → deactivate_constraint c = c.
Proof. destruct c; cbn. by intros ->. Qed.

Lemma alter_middle {A} (f : A → A) pre x l :
  alter f (length pre) (pre ++ x :: l) = (pre ++ [f x]) ++ l.
Proof.
  rewrite <- (Nat.add_0_r (length pre)), alter_app_r. cbn.
  by rewrite <- app_assoc.
Qed.

Lemma cloned_objectives_none blk :
  Forall (fun e => ¬ is_objective_member e) (members blk) →
  cloned_objectives blk = [].
Proof.
  unfold cloned_objectives, is_objective_member.
  induction (members blk) as [|[name mem] l IH]; intros Hall; [done|].
  apply Forall_cons in Hall as [Hx Hall]. cbn in *.
  destruct mem; [by apply IH | by apply IH | done].
Qed.

Lemma clone_loop_run substitute l pre s blk :
  block_bound s = true →
  sens_block (model_instance s) = Some blk →
  objectives (model_instance s) = pre ++ l →
  ∃ s' blk',
    forM_ (fun '(j, obj) =>
             block <- get_block ;;
             let tempName := unique_component_name block (obj_name obj) in
             let new_expr := dfs_postorder_stack substitute (obj_expr obj) in
             modify_block (with_members
                             (fun l => l ++ [(tempName, ObjectiveMember new_expr)])) ;;
             modify_instance (with_objectives (alter deactivate_objective j)))
          (filter (fun e => obj_active e.2 = true)
                  (enumerate_from (length pre) l)) s
    = (s', Returned tt)
    ∧ core s' = core s
    ∧ constraints (model_instance s') = constraints (model_instance s)
    ∧ objectives (model_instance s') = pre ++ (deactivate_objective <$> l)
    ∧ sens_block (model_instance s') = Some blk'
    ∧ _has_replaced_expressions blk' = _has_replaced_expressions blk
    ∧ constList blk' = constList blk
    ∧ cloned_objectives blk'
      = cloned_objectives blk
        ++ ((fun o => dfs_postorder_stack substitute (obj_expr o))
              <$> filter (fun o => obj_active o = true) l).
Proof.
  revert pre s blk. induction l as [|x l IH]; intros pre s blk Hb Hblk Hobj.
  { exists s, blk. cbn. rewrite !app_nil_r. rewrite app_nil_r in Hobj.
    by repeat split. }
  cbn [enumerate_from]. destruct (obj_active x) eqn:Hx.
  - rewrite filter_cons_True by done. rewrite (filter_cons_True _ x) by done.
    cbn [forM_].
    set (blk1 := with_members
                   (fun l => l ++ [(unique_component_name blk (obj_name x),
                                    ObjectiveMember
                                      (dfs_postorder_stack substitute
                                                           (obj_expr x)))])
                   blk).
    set (s1 := update_instance
                 (with_objectives (alter deactivate_objective (length pre)))
                 (update_instance (with_sens_block (fmap (M := option)
                    (with_members
                       (fun l => l ++ [(unique_component_name blk (obj_name x),
                                        ObjectiveMember
                                          (dfs_postorder_stack substitute
                                             (obj_expr x)))])))) s)).
    destruct (IH (pre ++ [deactivate_objective x]) s1 blk1)
      as (s' & blk' & Hrun & Hcore & Hcon & Hobj' & Hblk' & Hfl & Hcl & Hcloned).
    { done. }
    { subst s1 blk1. cbn. by rewrite Hblk. }
    { subst s1. cbn. rewrite Hobj. apply alter_middle. }
    exists s', blk'. split.
    { erewrite bind_run; [|erewrite bind_run by (by apply get_block_run);
                            unfold bind, modify_block, modify_instance, modify;
                            cbn; reflexivity].
      fold s1. rewrite length_app, Nat.add_1_r in Hrun. exact Hrun. }
    split.
    { rewrite Hcore. subst s1. unfold core. cbn. by rewrite Hblk. }
    split; [by rewrite Hcon|]. split.
    { rewrite Hobj', <- app_assoc. done. }
    split; [done|]. split; [done|]. split; [done|].
    rewrite Hcloned. subst blk1. unfold cloned_objectives. cbn.
    rewrite omap_app. cbn. by rewrite <- app_assoc.
  - rewrite filter_cons_False by (cbn; congruence).
    rewrite (filter_cons_False _ x) by congruence.
    destruct (IH (pre ++ [x]) s blk)
      as (s' & blk' & Hrun & Hcore & Hcon & Hobj' & Hblk' & Hfl & Hcl & Hcloned);
      [done|done|by rewrite Hobj, <- app_assoc|].
    exists s', blk'. split.
    { rewrite length_app, Nat.add_1_r in Hrun. exact Hrun. }
    split; [done|]. split; [done|]. split.
    { rewrite Hobj', <- app_assoc. cbn.
      by rewrite deactivate_objective_inactive. }
    by repeat split.
Qed.

Lemma shadow_loop_run substitute l pre s blk l0 :
  sens_block (model_instance s) = Some blk →
  constList blk = Some l0 →
  constraints (model_instance s) = pre ++ l →
  ∃ s' blk',
    forM_ (fun '(j, con) =>
             modify_block (with_constList
                             (fmap (fun l => l ++ rewrite_constraint substitute con))) ;;
             modify_instance (with_constraints (alter deactivate_constraint j)))
          (filter (fun e => con_active e.2 = true)
                  (enumerate_from (length pre) l)) s
    = (s', Returned tt)
    ∧ core s' = core s
    ∧ objectives (model_instance s') = objectives (model_instance s)
    ∧ constraints (model_instance s') = pre ++ (deactivate_constraint <$> l)
    ∧ sens_block (model_instance s') = Some blk'
    ∧ _has_replaced_expressions blk' = _has_replaced_expressions blk
    ∧ members blk' = members blk
    ∧ constList blk'
      = Some (l0 ++ concat (rewrite_constraint substitute
                              <$> filter (fun c => con_active c = true) l)).
Proof.
  revert pre s blk l0.
  induction l as [|x l IH]; intros pre s blk l0 Hblk Hl0 Hcon.
  { exists s, blk. cbn. rewrite !app_nil_r. rewrite app_nil_r in Hcon.
    by repeat split. }
  cbn [enumerate_from]. destruct (con_active x) eqn:Hx.
  - rewrite filter_cons_True by done. rewrite (filter_cons_True _ x) by done.
    cbn [forM_].
    set (blk1 := with_constList
                   (fmap (M := option)
                      (fun l => l ++ rewrite_constraint substitute x)) blk).
    set (s1 := update_instance
                 (with_constraints (alter deactivate_constraint (length pre)))
                 (update_instance (with_sens_block (fmap (M := option)
                    (with_constList
                       (fmap (M := option)
                          (fun l => l ++ rewrite_constraint substitute x)))))
                    s)).
    destruct (IH (pre ++ [deactivate_constraint x]) s1 blk1
                 (l0 ++ rewrite_constraint substitute x))
      as (s' & blk' & Hrun & Hcore & Hobj & Hcon' & Hblk' & Hfl & Hmem & Hcl).
    { subst s1 blk1. cbn. by rewrite Hblk. }
    { subst blk1. cbn. by rewrite Hl0. }
    { subst s1. cbn. rewrite Hcon. apply alter_middle. }
    exists s', blk'. split.
    { erewrite bind_run; [|unfold bind, modify_block, modify_instance, modify;
                            cbn; reflexivity].
      fold s1. rewrite length_app, Nat.add_1_r in Hrun. exact Hrun. }
    split.
    { rewrite Hcore. subst s1. unfold core. cbn. by rewrite Hblk. }
    split; [by rewrite Hobj|]. split.
    { rewrite Hcon', <- app_assoc. done. }
    split; [done|]. split; [done|]. split; [done|].
    rewrite Hcl. cbn. by rewrite <- app_assoc.
  - rewrite filter_cons_False by (cbn; congruence).
    rewrite (filter_cons_False _ x) by congruence.
    destruct (IH (pre ++ [x]) s blk l0)
      as (s' & blk' & Hrun & Hcore & Hobj & Hcon' & Hblk' & Hfl & Hmem & Hcl);
      [done|done|by rewrite Hcon, <- app_assoc|].
    exists s', blk'. split.
    { rewrite length_app, Nat.add_1_r in Hrun. exact Hrun. }
    split; [done|]. split; [done|]. split.
    { rewrite Hcon', <- app_assoc. cbn.
      by rewrite deactivate_constraint_inactive. }
    by repeat split.
Qed.

Lemma replace_expressions_effect substitute s blk :
  block_bound s = true →
  sens_block (model_instance s) = Some blk →
  ∃ s' blk',
    replace_expressions substitute s = (s', Returned tt)
    ∧ core s' = core s
    ∧ objectives (model_instance s')
      = deactivate_objective <$> objectives (model_instance s)
    ∧ constraints (model_instance s')
      = deactivate_constraint <$> constraints (model_instance s)
    ∧ sens_block (model_instance s') = Some blk'
    ∧ _has_replaced_expressions blk' = true
    ∧ constList blk'
      = Some (concat (rewrite_constraint substitute
                        <$> filter (fun c => con_active c = true)
                                   (constraints (model_instance s))))
    ∧ cloned_objectives blk'
      = cloned_objectives blk
        ++ ((fun o => dfs_postorder_stack substitute (obj_expr o))
              <$> filter (fun o => obj_active o = true)
                         (objectives (model_instance s))).
Proof.
  intros Hb Hblk. unfold replace_expressions, active_positions, enumerate.
  erewrite bind_run by reflexivity.
  destruct (clone_loop_run substitute (objectives (model_instance s)) [] s blk
              Hb Hblk eq_refl)
    as (s1 & blk1 & Hrun1 & Hcore1 & Hcon1 & Hobj1 & Hblk1 & Hfl1 & Hcl1
        & Hcloned1).
  cbn [length app] in Hrun1, Hobj1.
  erewrite bind_run by exact Hrun1.
  erewrite bind_run
    by (unfold modify_block, modify_instance, modify; reflexivity).
  remember (update_instance
              (with_sens_block
                 (fmap (M := option) (with_constList (fun _ => Some []))))
              s1) as s2 eqn:Hs2.
  erewrite bind_run by reflexivity.
  assert (sens_block (model_instance s2)
          = Some (with_constList (fun _ => Some []) blk1)) as Hblk2.
  { subst s2. cbn. by rewrite Hblk1. }
  assert (constraints (model_instance s2) = constraints (model_instance s))
    as Hcon2 by (by subst s2).
  destruct (shadow_loop_run substitute (constraints (model_instance s2)) []
              s2 (with_constList (fun _ => Some []) blk1) [] Hblk2 eq_refl
              eq_refl)
    as (s3 & blk3 & Hrun3 & Hcore3 & Hobj3 & Hcon3 & Hblk3 & Hfl3 & Hmem3
        & Hcl3).
  cbn [length app] in Hrun3, Hcon3, Hcl3.
  erewrite bind_run by exact Hrun3.
  exists (update_instance
            (with_sens_block (fmap (M := option) (with_flag true))) s3),
    (with_flag true blk3).
  split; [reflexivity|]. split.
  { unfold core in *. cbn. rewrite Hblk3. cbn.
    rewrite Hblk3 in Hcore3. rewrite Hblk2 in Hcore3. cbn in Hcore3.
    injection Hcore3 as Ho3 Hbb3 Hh3 Hs3 Hbm3 Hser3 Hrec3 Hpl3 Hpc3.
    rewrite Hblk1, Hblk in Hcore1. cbn in Hcore1.
    injection Hcore1 as Ho1 Hbb1 Hh1 Hs1 Hbm1 Hser1 Hrec1 Hpl1 Hpc1.
    rewrite Hblk. cbn. subst s2. cbn in *. congruence. }
  split.
  { cbn. rewrite Hobj3. subst s2. cbn. exact Hobj1. }
  split.
  { cbn. rewrite Hcon3. by rewrite Hcon2. }
  split; [cbn; by rewrite Hblk3|]. split; [done|]. split.
  { cbn. rewrite Hcl3. by rewrite Hcon2. }
  unfold cloned_objectives in *. cbn. rewrite Hmem3. cbn. exact Hcloned1.
Qed.

Lemma install_replaced resolved s blk :
  block_bound s = true →
  sens_block (model_instance s) = Some blk →
  let records := _sens_data_list blk in
  let sub := variableSubMap (with_heap (unfix_all records) (model_instance s))
                            resolved records in
  sub ≠ ∅ →
  ∃ s' blk',
    install_substitution resolved s = (s', Returned tt)
    ∧ sens_block (model_instance s') = Some blk'
    ∧ _has_replaced_expressions blk' = true
    ∧ objectives (model_instance s')
      = deactivate_objective <$> objectives (model_instance s)
    ∧ constraints (model_instance s')
      = deactivate_constraint <$> constraints (model_instance s)
    ∧ constList blk'
      = Some (concat (rewrite_constraint sub
                        <$> filter (fun c => con_active c = true)
                                   (constraints (model_instance s))))
    ∧ cloned_objectives blk'
      = cloned_objectives blk
        ++ ((fun o => dfs_postorder_stack sub (obj_expr o))
              <$> filter (fun o => obj_active o = true)
                         (objectives (model_instance s))).
Proof.
  intros Hb Hblk records sub Hne. unfold install_substitution.
  pose proof add_sensitivity_suffixes_frame as Hframe.
  pose proof add_sensitivity_suffixes_slots as Hslots.
  revert Hframe Hslots. generalize _add_sensitivity_suffixes.
  intros declare Hframe Hslots.
  erewrite bind_run by (by apply get_block_run).
  erewrite bind_run by apply set_fixed_loop_run.
  fold records.
  match goal with
  | |- context [update_instance ?f s] =>
      remember (update_instance f s) as s4 eqn:Hs4
  end.
  erewrite bind_run by reflexivity.
  assert (block_bound s4 = true) as Hb4 by (by subst).
  assert (sens_block (model_instance s4) = Some blk) as Hblk4 by (by subst).
  assert (model_instance s4
          = with_heap (unfix_all records) (model_instance s)) as Hm4
    by (by subst).
  rewrite Hm4. fold sub.
  rewrite bool_decide_eq_false_2 by done.
  destruct (replace_expressions_effect sub s4 blk Hb4 Hblk4)
    as (s5 & blk5 & Hrun5 & Hcore & Hobj5 & Hcon5 & Hblk5 & Hfl5 & Hcl5
        & Hcloned5).
  erewrite bind_run by exact Hrun5.
  destruct (core_bound s4 s5 Hcore Hb4 (mk_is_Some _ _ Hblk4)) as [Hb5 _].
  destruct (install_tail_gen declare records s5 blk5 Hframe Hslots Hb5 Hblk5)
    as (s' & m2 & Hrun & _ & _ & _ & Hobj & Hcon & _ & Hblk' & _).
  exists s', (with_paramConst (fun _ => Some (pinning <$> records)) blk5).
  split; [exact Hrun|]. split; [exact Hblk'|]. split; [exact Hfl5|].
  rewrite Hm4 in Hcl5, Hcloned5, Hobj5, Hcon5.
  cbn [with_heap objectives constraints] in Hcl5, Hcloned5, Hobj5, Hcon5.
  rewrite Hobj, Hcon, Hobj5, Hcon5.
  split; [done|]. split; [done|]. split; [exact Hcl5|]. exact Hcloned5.
Qed.

Lemma variableSubMap_heap m1 m2 resolved records :
  heap m1 = heap m2 →
  variableSubMap m1 resolved records = variableSubMap m2 resolved records.
Proof.
  intros Hh. unfold variableSubMap.
  assert (∀ li, designates_Param m1 resolved li
                = designates_Param m2 resolved li) as Hd
    by (intros li; unfold designates_Param; by rewrite Hh).
  generalize (∅ : gmap ref ref).
  induction records as [|[[[var param] li] ci] records IH]; intros acc;
    [done|].
  cbn. rewrite Hd. apply IH.
Qed.

Lemma variableSubMap_key instance resolved records d :
  d ∈ records →
  designates_Param instance resolved (list_idx_of d) = true →
  is_Some (variableSubMap instance resolved records !! parameter_entity d).
Proof.
  intros Hd Hp. unfold variableSubMap.
  assert (∀ acc : gmap ref ref,
            is_Some (acc !! parameter_entity d) ∨ d ∈ records →
            is_Some (fold_left
                       (fun d0 '(var, param, list_idx, _) =>
                          if designates_Param instance resolved list_idx
                          then <[param := var]> d0 else d0)
                       records acc !! parameter_entity d)) as Hgen.
  { clear Hd. induction records as [|[[[var param] li] ci] records IH];
      intros acc [Hacc|Hin].
    - done.
    - by apply elem_of_nil in Hin.
    - cbn. apply IH. left.
      destruct (designates_Param instance resolved li); [|done].
      destruct (decide (param = parameter_entity d)) as [->|Hne].
      + rewrite lookup_insert_eq. by eexists.
      + by rewrite lookup_insert_ne.
    - cbn. apply IH. apply elem_of_cons in Hin as [->|Hin]; [|by right].
      left. unfold list_idx_of, parameter_entity in *. cbn in *.
      rewrite Hp. rewrite lookup_insert_eq. by eexists. }
  apply Hgen. by right.
Qed.

Lemma variableSubMap_lookup instance resolved records k v :
  variableSubMap instance resolved records !! k = Some v →
  ∃ d, d ∈ records ∧ parameter_entity d = k ∧ free_entity d = v.
Proof.
  unfold variableSubMap.
  assert (∀ acc : gmap ref ref,
            fold_left
              (fun d0 '(var, param, list_idx, _) =>
                 if designates_Param instance resolved list_idx
                 then <[param := var]> d0 else d0)
              records acc !! k = Some v →
            acc !! k = Some v
            ∨ ∃ d, d ∈ records ∧ parameter_entity d = k ∧ free_entity d = v)
    as Hgen.
  { induction records as [|[[[var param] li] ci] records IH]; intros acc Hk;
      [by left|].
    cbn in Hk. apply IH in Hk as [Hk|(d & Hd & Hpk & Hfv)].
    - destruct (designates_Param instance resolved li); [|by left].
      destruct (decide (param = k)) as [->|Hne].
      + rewrite lookup_insert_eq in Hk. injection Hk as ->.
        right. exists (v, k, li, ci). split; [left|done].
      + rewrite lookup_insert_ne in Hk by done. by left.
    - right. exists d. split; [by right|done]. }
  intros Hk. apply Hgen in Hk as [Hk|Hk]; [|done].
  by rewrite lookup_empty in Hk.
Qed.

(** What a completed setup has replaced, when the substitution map is not
    empty. *)
Lemma setup_replaced paramList self self' :
  setup_sensitivity paramList self = (self', Returned tt) →
  ∃ blk',
    sens_block (model_instance self') = Some blk'
    ∧ let sub := variableSubMap (model_instance self') (_paramList blk')
                                (_sens_data_list blk') in
      sub ≠ ∅ →
      _has_replaced_expressions blk' = true
      ∧ objectives (model_instance self')
        = deactivate_objective <$> objectives (model_instance self)
      ∧ constraints (model_instance self')
        = deactivate_constraint <$> constraints (model_instance self)
      ∧ constList blk'
        = Some (concat (rewrite_constraint sub
                          <$> filter (fun c => con_active c = true)
                                     (constraints (model_instance self))))
      ∧ cloned_objectives blk'
        = (fun o => dfs_postorder_stack sub (obj_expr o))
            <$> filter (fun o => obj_active o = true)
                       (objectives (model_instance self)).
Proof.
  intros Hrun.
  destruct (setup_cases paramList self)
    as [[e He]|(s1 & s2 & Hs1 & Hs2 & [(s3 & e & _ & He)
                                       |(s3 & s' & Hplan & Hinst & Hret)])];
    try congruence.
  set (resolved := find_components_on self paramList) in *.
  rewrite Hrun in Hret. injection Hret as <-.
  destruct (teardown_cases self)
    as [[e He]|(s1' & Hs1' & _ & _ & _ & Ho1 & Hc1 & _)]; [congruence|].
  rewrite Hs1 in Hs1'. injection Hs1' as <-.
  destruct (new_block_run resolved s1)
    as (s2' & Hs2' & Hb2 & _ & Hh2 & Ho2 & Hc2 & _ & Hblk2).
  rewrite Hs2 in Hs2'. injection Hs2' as <-.
  pose proof (plan_loop_frame s2 s2 (enumerate resolved)) as Hfr.
  rewrite Hplan in Hfr.
  destruct Hfr as (Hb3 & Hsh3 & _ & blk3 & Hblk3 & Hmem3).
  { split; [done|]. split; [done|]. split; [by exists []; rewrite app_nil_r|].
    eexists. split; [exact Hblk2|]. constructor. }
  cbn [fst] in *.
  unfold shell in Hsh3. rewrite Hblk3, Hblk2 in Hsh3. cbn in Hsh3.
  injection Hsh3 as _ _ Ho3 Hc3 _ _ _ _ Hpl3 _ _.
  destruct (install_run resolved s3 blk3 Hb3 Hblk3)
    as (s'' & blk' & sfx & Hinst' & _ & _ & Hh' & _ & Hblk' & _ & Hrecs
        & Hpl & _).
  rewrite Hinst in Hinst'. injection Hinst' as <-.
  exists blk'. split; [exact Hblk'|]. cbv zeta.
  set (sub := variableSubMap (model_instance self') (_paramList blk')
                             (_sens_data_list blk')).
  intros Hne.
  assert (sub = variableSubMap
                  (with_heap (unfix_all (_sens_data_list blk3))
                             (model_instance s3))
                  resolved (_sens_data_list blk3)) as Hsub.
  { subst sub. rewrite Hrecs, Hpl, Hpl3. by apply variableSubMap_heap. }
  destruct (install_replaced resolved s3 blk3 Hb3 Hblk3)
    as (s'' & blk'' & Hinst'' & Hblk'' & Hfl & Hobj & Hcon & Hcl & Hcloned).
  { by rewrite <- Hsub. }
  rewrite Hinst in Hinst''. injection Hinst'' as <-.
  rewrite Hblk' in Hblk''. injection Hblk'' as <-.
  rewrite <- Hsub in Hcl, Hcloned.
  rewrite (cloned_objectives_none blk3 Hmem3) in Hcloned. cbn in Hcloned.
  split; [exact Hfl|].
  rewrite Hobj, Hcon, Hcl, Hcloned, Ho3, Hc3, Ho2, Hc2, Ho1, Hc1.
  by repeat split.
Qed.

End Rewriting.

Section Replaced.
Context `{PyomoHost}.

Lemma resolve_lookup self paramList i cid comp :
  paramList !! i = Some cid →
  heap (model_instance self) !! cid = Some comp →
  find_components_on self paramList !! i = Some (Some cid).
Proof.
  intros Hi Hcomp. unfold find_components_on.
  destruct (_original_model self); rewrite list_lookup_fmap, Hi; cbn; [|done].
  unfold find_component_on. by rewrite Hcomp.
Qed.

(** The substitution map of a completed setup holds an entry for every
    element of a designated [Param]. *)
Lemma setup_sub_key paramList self self' blk' i cid comp idx :
  setup_sensitivity paramList self = (self', Returned tt) →
  sens_block (model_instance self') = Some blk' →
  paramList !! i = Some cid →
  heap (model_instance self) !! cid = Some comp →
  ctype comp = Param →
  is_Some (store_cell (store comp) idx) →
  is_Some (variableSubMap (model_instance self') (_paramList blk')
                          (_sens_data_list blk') !! (cid, idx)).
Proof.
  intros Hrun Hblk' Hi Hcomp Ht Hidx.
  destruct (setup_returned paramList self self' Hrun)
    as (blk & sfx & added & _ & Hblk & Hpl & _ & Hview & _ & Hcov & _).
  rewrite Hblk' in Hblk. injection Hblk as <-.
  pose proof (resolve_lookup self paramList i cid comp Hi Hcomp) as Hres.
  assert (view (heap (model_instance self')) !! cid = Some (view_of comp))
    as Hvc.
  { rewrite Hview. apply lookup_app_l_Some. unfold view.
    by rewrite list_lookup_fmap, Hcomp. }
  destruct (Hcov i cid) as [_ Hc]; [by apply lookup_lt_Some in Hres|done|].
  specialize (Hc _ _ _ Hvc). rewrite Ht in Hc.
  destruct Hc as (v & _ & _ & Hin).
  specialize (Hin idx). rewrite values_cell_store, fmap_is_Some in Hin.
  specialize (Hin Hidx).
  apply (variableSubMap_key (model_instance self') (_paramList blk')
           (_sens_data_list blk') ((v, idx), (cid, idx), i, idx) Hin).
  unfold list_idx_of. cbn. rewrite Hpl.
  erewrite designates_Param_view; [|exact Hres|exact Hvc]. by rewrite Ht.
Qed.

(** At the current values of a completed setup, reading a leaf through the
    substitution map changes nothing. *)
Lemma setup_sub_values paramList self self' blk' :
  setup_sensitivity paramList self = (self', Returned tt) →
  sens_block (model_instance self') = Some blk' →
  ∀ r, substituted (current_values (heap (model_instance self')))
                   (variableSubMap (model_instance self') (_paramList blk')
                                   (_sens_data_list blk')) r
       = current_values (heap (model_instance self')) r.
Proof.
  intros Hrun Hblk' r.
  destruct (setup_returned paramList self self' Hrun)
    as (blk & sfx & added & _ & Hblk & _ & _ & _ & Hrec & _).
  rewrite Hblk' in Hblk. injection Hblk as <-.
  unfold substituted.
  destruct (variableSubMap _ _ _ !! r) as [v|] eqn:Hsub; [|done].
  apply variableSubMap_lookup in Hsub as (d & Hd & <- & <-).
  rewrite Forall_forall in Hrec.
  destruct (record_ok_values _ _ _ _ (Hrec d Hd)) as (z & Hf & Hp).
  cbn. unfold current_values. by rewrite Hf, Hp.
Qed.

Lemma eval_ext env1 env2 e :
  (∀ r, env1 r = env2 r) → eval env1 e = eval env2 e.
Proof.
  intros Hext.
  induction e as [z|r|a IHa b IHb|a IHa b IHb|a IHa b IHb|a IHa|n e IH];
    cbn; congruence.
Qed.

End Replaced.

(** X14: when [setup_sensitivity] returns and some designated component is
    a [Param] with at least one element, every expression of the model has
    been replaced: each objective and each constraint is deactivated, the
    block holds one objective per formerly active objective, with the
    rewritten expression and in the same order, its shadow constraint list
    holds the rewritten forms of the formerly active constraints, in order
    (inactive ones are not copied), and its replaced-expressions flag is
    set.  This happens to all of them, whether or not they mention a
    designated parameter. *)
Theorem setup_on_parameter_replaces_expressions `{PyomoHost}
    (self self' : SensitivityInterface) (paramList : list nat)
    (i cid : nat) (comp : Component) (idx : index) :
  setup_sensitivity paramList self = (self', Returned tt) →
  paramList !! i = Some cid →
  heap (model_instance self) !! cid = Some comp →
  ctype comp = Param →
  is_Some (store_cell (store comp) idx) →
  ∃ blk',
    sens_block (model_instance self') = Some blk'
    ∧ let sub := variableSubMap (model_instance self') (_paramList blk')
                                (_sens_data_list blk') in
      is_Some (sub !! (cid, idx))
      ∧ _has_replaced_expressions blk' = true
      ∧ objectives (model_instance self')
        = deactivate_objective <$> objectives (model_instance self)
      ∧ constraints (model_instance self')
        = deactivate_constraint <$> constraints (model_instance self)
      ∧ constList blk'
        = Some (concat (rewrite_constraint sub
                          <$> filter (fun c => con_active c = true)
                                     (constraints (model_instance self))))
      ∧ cloned_objectives blk'
        = (fun o => dfs_postorder_stack sub (obj_expr o))
            <$> filter (fun o => obj_active o = true)
                       (objectives (model_instance self)).
Proof.
  intros Hrun Hi Hcomp Ht Hidx.
  destruct (setup_replaced paramList self self' Hrun) as (blk' & Hblk' & Hrep).
  exists blk'. split; [exact Hblk'|]. cbv zeta.
  pose proof (setup_sub_key paramList self self' blk' i cid comp idx
                Hrun Hblk' Hi Hcomp Ht Hidx) as Hkey.
  split; [exact Hkey|]. apply Hrep.
  intros Hempty. rewrite Hempty, lookup_empty in Hkey. by destruct Hkey.
Qed.

Lemma setup_on_parameter_replaces_expressions_witness :
  ∃ self' blk',
    setup_sensitivity (H := reference_host) [0%nat]
      (SensitivityInterface_init example_model false) = (self', Returned tt)
    ∧ sens_block (model_instance self') = Some blk'
    ∧ _has_replaced_expressions blk' = true
    ∧ Forall (fun c => con_active c = false) (constraints (model_instance self')).
Proof.
  pose proof example_acceptable as Hacc. apply Forall_cons in Hacc as [Hp _].
  destruct (setup_returns (H := reference_host)
              (SensitivityInterface_init example_model false)
              [0%nat] eq_refl
              (proj2 (Forall_singleton _ _) Hp)) as [self' Hrun].
  destruct (setup_on_parameter_replaces_expressions (H := reference_host)
              _ self' [0%nat] 0%nat 0%nat _ _NotAnIndex Hrun eq_refl eq_refl
              eq_refl (mk_is_Some _ _ eq_refl))
    as (blk' & Hblk' & _ & Hfl & _ & Hcon & _).
  exists self', blk'. split; [exact Hrun|]. split; [exact Hblk'|].
  split; [exact Hfl|]. rewrite Hcon. by repeat constructor.
Defined.

(** X15: at the values the model has when [setup_sensitivity] returns, the
    replacement changes the value of no expression: every substitute
    carries the value of the parameter it stands for, so each rewritten
    expression evaluates to what the original does, and each rewritten
    relational expression holds exactly when the original does. *)
Theorem replaced_expressions_keep_their_values `{PyomoHost}
    (self self' : SensitivityInterface) (paramList : list nat) :
  setup_sensitivity paramList self = (self', Returned tt) →
  ∃ blk',
    sens_block (model_instance self') = Some blk'
    ∧ let sub := variableSubMap (model_instance self') (_paramList blk')
                                (_sens_data_list blk') in
      let env := current_values (heap (model_instance self')) in
      (∀ e, eval env (dfs_postorder_stack sub e) = eval env e)
      ∧ (∀ c, satisfies env (dfs_postorder_stack_rel sub c) ↔ satisfies env c)
      ∧ ∀ con, (∀ lo b up, con_form con ≠ RangedCon lo b up) →
          (Forall (satisfies env) (rewrite_constraint sub con)
           ↔ satisfies env (con_expr con)).
Proof.
  intros Hrun.
  destruct (setup_returned paramList self self' Hrun)
    as (blk' & _ & _ & _ & Hblk' & _).
  exists blk'. split; [exact Hblk'|]. cbv zeta.
  pose proof (setup_sub_values paramList self self' blk' Hrun Hblk') as Hsub.
  assert (∀ e, eval (current_values (heap (model_instance self')))
                 (dfs_postorder_stack
                    (variableSubMap (model_instance self') (_paramList blk')
                                    (_sens_data_list blk')) e)
               = eval (current_values (heap (model_instance self'))) e)
    as Heval.
  { intros e. rewrite eval_dfs_postorder_stack. by apply eval_ext. }
  assert (∀ c, satisfies (current_values (heap (model_instance self')))
                 (dfs_postorder_stack_rel
                    (variableSubMap (model_instance self') (_paramList blk')
                                    (_sens_data_list blk')) c)
               ↔ satisfies (current_values (heap (model_instance self'))) c)
    as Hsat.
  { intros c. destruct c; cbn; by rewrite !Heval. }
  split; [exact Heval|]. split; [exact Hsat|].
  intros con Hform.
  unfold rewrite_constraint, equality, lower, upper, con_expr.
  destruct (con_form con) as [b rhs|lo b|b up|lo b up];
    [| | |by destruct (Hform lo b up)];
    rewrite Forall_singleton; apply Hsat.
Qed.

Lemma replaced_expressions_keep_their_values_witness :
  ∃ self' blk',
    setup_sensitivity (H := reference_host) [0%nat; 2%nat]
      (SensitivityInterface_init example_model false) = (self', Returned tt)
    ∧ sens_block (model_instance self') = Some blk'
    ∧ eval (current_values (heap (model_instance self')))
           (dfs_postorder_stack
              (variableSubMap (model_instance self') (_paramList blk')
                              (_sens_data_list blk'))
              (Prod (Leaf x_) (Leaf p_)))
      = eval (current_values (heap (model_instance self')))
             (Prod (Leaf x_) (Leaf p_)).
Proof.
  destruct (setup_returns (H := reference_host)
              (SensitivityInterface_init example_model false)
              [0%nat; 2%nat] eq_refl example_acceptable) as [self' Hrun].
  destruct (replaced_expressions_keep_their_values (H := reference_host)
              _ self' _ Hrun) as (blk' & Hblk' & Heval & _).
  exists self', blk'. split; [exact Hrun|]. split; [exact Hblk'|].
  apply Heval.
Defined.

(** ** The records, in order (lines 224-275) *)

Section RecordOrder.
Context `{PyomoHost}.

Lemma item_indices_view comp comp0 :
  view_of comp = view_of comp0 →
  ctype comp = ctype comp0 ∧ item_indices comp = item_indices comp0.
Proof.
  unfold view_of. intros [= Ht _ Hsv]. split; [done|].
  unfold item_indices, is_indexed, index_set.
  destruct (store comp) as [c|d], (store comp0) as [c0|d0]; cbn in *;
    try done.
  injection Hsv as Hd. f_equal. f_equal. f_equal.
  apply (f_equal dom) in Hd. by rewrite !dom_fmap_L in Hd.
Qed.

Lemma record_key_new_records i comp free param :
  record_key <$> new_records i comp free param
  = (fun idx => (i, idx)) <$> item_indices comp.
Proof. unfold new_records. by rewrite <- list_fmap_compose. Qed.

Lemma plan_loop_keys h0 l n s s' blk :
  block_bound s = true →
  sens_block (model_instance s) = Some blk →
  (∃ added, view (heap (model_instance s)) = view h0 ++ added) →
  Forall (fun cid => cid < length h0)%nat l →
  forM_ plan_entry (enumerate_from n (Some <$> l)) s = (s', Returned tt) →
  ∃ blk',
    sens_block (model_instance s') = Some blk'
    ∧ record_key <$> _sens_data_list blk'
      = (record_key <$> _sens_data_list blk)
        ++ concat ((fun e => keys_of_entry h0 e.1 e.2)
                     <$> enumerate_from n l).
Proof.
  revert n s blk. induction l as [|cid l IH];
    intros n s blk Hb Hblk [added Hview] Hon Hrun.
  { cbn in Hrun. injection Hrun as <-. exists blk.
    split; [done|]. cbn. by rewrite app_nil_r. }
  apply Forall_cons in Hon as [Hcid Hon].
  cbn [fmap list_fmap enumerate_from forM_] in Hrun.
  destruct (bind_cases (plan_entry (n, Some cid))
              (fun _ => forM_ plan_entry (enumerate_from (S n) (Some <$> l))) s)
    as [(s1 & [] & Hstep & Hbind)|(s1 & e & _ & Hbind)];
    rewrite Hbind in Hrun; [|done].
  destruct (plan_entry_cases n (Some cid) s blk Hb Hblk)
    as [(_ & Hr & _)|(cid' & comp & s1' & [= <-] & Hcomp & _ & Hstep' & Hsh
                      & Hpl)].
  { rewrite Hstep in Hr. cbn in Hr. discriminate. }
  rewrite Hstep in Hstep'. injection Hstep' as <-.
  destruct (lookup_lt_is_Some_2 _ _ Hcid) as [comp0 Hcomp0].
  assert (view_of comp = view_of comp0) as Hvc.
  { assert (view (heap (model_instance s)) !! cid = Some (view_of comp)) as H1
      by (unfold view; by rewrite list_lookup_fmap, Hcomp).
    rewrite Hview, lookup_app_l in H1
      by (unfold view; by rewrite length_fmap).
    unfold view in H1. rewrite list_lookup_fmap, Hcomp0 in H1.
    cbn in H1. congruence. }
  destruct (item_indices_view comp comp0 Hvc) as [Ht Hidx].
  assert (block_bound s1 = true) as Hb1.
  { unfold shell in Hsh. congruence. }
  cbn [enumerate_from fmap list_fmap concat fst snd].
  unfold keys_of_entry at 1. rewrite Hcomp0, <- Ht, <- Hidx.
  destruct (ctype comp) eqn:Hct.
  1,2: destruct Hpl as (newc & blk1 & name & mem & Hh1 & Hblk1 & _ & _ & _
                        & Hrec1).
  1,2: destruct (IH (S n) s1 blk1 Hb1 Hblk1) as (blk' & Hblk' & Hkeys);
    [ exists (added ++ view [newc]); rewrite Hh1; unfold view at 1;
      rewrite fmap_app; fold (view (heap (model_instance s)));
      by rewrite Hview, <- app_assoc
    | done | done | ].
  1,2: exists blk'; split; [done|];
    rewrite Hkeys, Hrec1, fmap_app, record_key_new_records;
    by rewrite <- app_assoc.
  subst s1.
  destruct (IH (S n) s blk Hb Hblk) as (blk' & Hblk' & Hkeys);
    [by exists added|done|done|].
  exists blk'. split; [done|]. by rewrite Hkeys.
Qed.

Lemma keys_from_fst h0 l n k :
  k ∈ concat ((fun e => keys_of_entry h0 e.1 e.2) <$> enumerate_from n l) →
  (n ≤ k.1)%nat.
Proof.
  revert n. induction l as [|cid l IH]; intros n; cbn.
  { by intros ?%elem_of_nil. }
  intros [Hk|Hk]%elem_of_app.
  - unfold keys_of_entry in Hk. destruct (h0 !! cid) as [comp|];
      [|by apply elem_of_nil in Hk].
    destruct (ctype comp); [| |by apply elem_of_nil in Hk];
      apply list_elem_of_fmap in Hk as (idx & -> & _); cbn; lia.
  - apply IH in Hk. lia.
Qed.

Lemma item_indices_NoDup comp : NoDup (item_indices comp).
Proof.
  unfold item_indices, index_set, sorted_robust.
  destruct (is_indexed comp); [|apply NoDup_singleton].
  apply (NoDup_fmap_2 _). rewrite merge_sort_Permutation.
  destruct (store comp); [apply NoDup_nil_2 | apply NoDup_elements].
Qed.

Lemma keys_from_NoDup h0 l n :
  NoDup (concat ((fun e => keys_of_entry h0 e.1 e.2) <$> enumerate_from n l)).
Proof.
  revert n. induction l as [|cid l IH]; intros n; cbn; [apply NoDup_nil_2|].
  apply NoDup_app. split; [|split; [|apply IH]].
  - unfold keys_of_entry. destruct (h0 !! cid) as [comp|]; [|apply NoDup_nil_2].
    destruct (ctype comp); [| |apply NoDup_nil_2];
      (apply (NoDup_fmap_2 _); apply item_indices_NoDup).
  - intros k Hk Hk'. apply keys_from_fst in Hk'.
    unfold keys_of_entry in Hk. destruct (h0 !! cid) as [comp|];
      [|by apply elem_of_nil in Hk].
    destruct (ctype comp); [| |by apply elem_of_nil in Hk];
      apply list_elem_of_fmap in Hk as (idx & -> & _); cbn in Hk'; lia.
Qed.

Lemma setup_record_keys paramList self self' :
  setup_sensitivity paramList self = (self', Returned tt) →
  Forall (fun cid => cid < length (heap (model_instance self)))%nat paramList →
  ∃ blk',
    sens_block (model_instance self') = Some blk'
    ∧ record_key <$> _sens_data_list blk'
      = designated_keys (heap (model_instance self)) paramList.
Proof.
  intros Hrun Hon.
  destruct (setup_cases paramList self)
    as [[e He]|(s1 & s2 & Hs1 & Hs2 & [(s3 & e & _ & He)
                                       |(s3 & s' & Hplan & Hinst & Hret)])];
    try congruence.
  rewrite (resolve_on_model self paramList Hon) in Hs2, Hplan, Hinst.
  rewrite Hrun in Hret. injection Hret as <-.
  destruct (teardown_cases self)
    as [[e He]|(s1' & Hs1' & _ & _ & _ & _ & _ & _ & Hview1 & _)];
    [congruence|].
  rewrite Hs1 in Hs1'. injection Hs1' as <-.
  destruct (new_block_run (Some <$> paramList) s1)
    as (s2' & Hs2' & Hb2 & _ & Hh2 & _ & _ & _ & Hblk2).
  rewrite Hs2 in Hs2'. injection Hs2' as <-.
  destruct (plan_loop_keys (heap (model_instance self)) paramList 0 s2 s3 _
              Hb2 Hblk2) as (blk3 & Hblk3 & Hkeys); [| done | exact Hplan |].
  { exists []. by rewrite Hh2, Hview1, app_nil_r. }
  pose proof (plan_loop_frame s2 s2 (enumerate (Some <$> paramList))) as Hfr.
  rewrite Hplan in Hfr. destruct Hfr as (Hb3 & _).
  { split; [done|]. split; [done|]. split; [by exists []; rewrite app_nil_r|].
    eexists. split; [exact Hblk2|]. constructor. }
  destruct (install_run (Some <$> paramList) s3 blk3 Hb3 Hblk3)
    as (s'' & blk' & sfx & Hinst' & _ & _ & _ & _ & Hblk' & _ & Hrecs & _).
  rewrite Hinst in Hinst'. injection Hinst' as <-.
  exists blk'. split; [done|]. rewrite Hrecs, Hkeys. done.
Qed.

End RecordOrder.

(** X16: when [setup_sensitivity] returns on designated components of the
    model, the records are, in this order: for each designated [Param] or
    [Var], in the order of the designated list, one record per element, in
    sorted index order; nothing for a component of another kind.  No two
    records have the same position in the designated list and the same
    index, and the pinning list has one entry per record. *)
Theorem setup_records_in_designated_order `{PyomoHost}
    (self self' : SensitivityInterface) (paramList : list nat) :
  setup_sensitivity paramList self = (self', Returned tt) →
  Forall (fun cid => cid < length (heap (model_instance self)))%nat paramList →
  ∃ blk',
    sens_block (model_instance self') = Some blk'
    ∧ record_key <$> _sens_data_list blk'
      = designated_keys (heap (model_instance self)) paramList
    ∧ NoDup (record_key <$> _sens_data_list blk')
    ∧ (length <$> paramConst blk')
      = Some (length (designated_keys (heap (model_instance self)) paramList)).
Proof.
  intros Hrun Hon.
  destruct (setup_record_keys paramList self self' Hrun Hon)
    as (blk' & Hblk' & Hkeys).
  destruct (setup_returned paramList self self' Hrun)
    as (blk & _ & _ & _ & Hblk & _ & Hpc & _).
  rewrite Hblk' in Hblk. injection Hblk as <-.
  exists blk'. split; [done|]. split; [done|]. split.
  - rewrite Hkeys. apply keys_from_NoDup.
  - rewrite Hpc. cbn. rewrite length_fmap, <- Hkeys, length_fmap. done.
Qed.

Lemma setup_records_in_designated_order_witness :
  ∃ self' blk',
    setup_sensitivity (H := reference_host) [0%nat; 2%nat]
      (SensitivityInterface_init example_model false) = (self', Returned tt)
    ∧ sens_block (model_instance self') = Some blk'
    ∧ record_key <$> _sens_data_list blk'
      = [(0%nat, _NotAnIndex); (1%nat, _NotAnIndex)].
Proof.
  destruct (setup_returns (H := reference_host)
              (SensitivityInterface_init example_model false)
              [0%nat; 2%nat] eq_refl example_acceptable) as [self' Hrun].
  destruct (setup_records_in_designated_order (H := reference_host)
              _ self' _ Hrun) as (blk' & Hblk' & Hkeys & _).
  - repeat constructor.
  - exists self', blk'. split; [exact Hrun|]. split; [exact Hblk'|].
    rewrite Hkeys. reflexivity.
Defined.

(** ** Perturbation that fails midway, and perturbing again *)

Section PerturbAgain.
Context `{PyomoHost}.



End PerturbAgain.



Section Override.

Lemma write_twice name k v1 v2 (sfx : gmap string Suffix) :
  alter (suffix_insert k v2) name (alter (suffix_insert k v1) name sfx)
  = alter (suffix_insert k v2) name sfx.
Proof.
  rewrite alter_alter_eq. apply alter_ext. intros s _.
  unfold suffix_insert. cbn. by rewrite insert_insert_eq.
Qed.

Lemma write_commute n1 k1 v1 n2 k2 v2 (sfx : gmap string Suffix) :
  (n1, k1) ≠ (n2, k2) →
  alter (suffix_insert k1 v1) n1 (alter (suffix_insert k2 v2) n2 sfx)
  = alter (suffix_insert k2 v2) n2 (alter (suffix_insert k1 v1) n1 sfx).
Proof.
  intros Hne. destruct (decide (n1 = n2)) as [->|Hn].
  - rewrite !alter_alter_eq. apply alter_ext. intros s _.
    unfold suffix_insert. cbn. f_equal. apply insert_insert_ne. congruence.
  - by apply alter_alter_ne.
Qed.

Lemma write_absorbed ws name k v sfx :
  (name, k) ∈ ws.*1 →
  write_slots ws (alter (suffix_insert k v) name sfx) = write_slots ws sfx.
Proof.
  unfold write_slots. revert sfx.
  induction ws as [|[[n k'] z] ws IH]; intros sfx Hin.
  { by apply elem_of_nil in Hin. }
  cbn [fold_left]. destruct (decide ((n, k') = (name, k))) as [[= -> ->]|Hne].
  - by rewrite write_twice.
  - rewrite write_commute by done. apply IH.
    cbn in Hin. apply elem_of_cons in Hin as [Heq|Hin]; [|done].
    by destruct Hne.
Qed.

Lemma writes_absorbed ws1 ws2 sfx :
  (∀ t, t ∈ ws1.*1 → t ∈ ws2.*1) →
  write_slots ws2 (write_slots ws1 sfx) = write_slots ws2 sfx.
Proof.
  induction ws1 as [|[[n k] z] ws1 IH] using rev_ind; intros Hsub; [done|].
  unfold write_slots at 2. rewrite fold_left_app. cbn [fold_left].
  fold (write_slots ws1 sfx).
  rewrite write_absorbed.
  - apply IH. intros t Ht. apply Hsub. rewrite fmap_app. apply elem_of_app.
    by left.
  - apply Hsub. rewrite fmap_app. apply elem_of_app. right. cbn. left.
Qed.

Lemma perturb_suffixes_writes blk_serial h perturbList l sfx :
  fold_left (perturb_suffixes blk_serial h perturbList) l sfx
  = write_slots (concat (perturb_writes blk_serial h perturbList <$> l)) sfx.
Proof.
  revert sfx. induction l as [|[i [[[var param] li] ci]] l IH]; intros sfx;
    [done|].
  cbn [fold_left fmap list_fmap concat]. rewrite IH.
  unfold write_slots at 2. rewrite fold_left_app.
  fold (write_slots (concat (perturb_writes blk_serial h perturbList <$> l))).
  f_equal. unfold perturb_suffixes, perturb_writes.
  destruct (resolve_ptb perturbList li ci); [|done].
  by destruct (value h var).
Qed.

Lemma perturb_writes_targets blk_serial h l1 l2 (records : list (nat * sens_data)) :
  (∀ e, e ∈ records →
        is_raised (resolve_ptb l2 (list_idx_of e.2) (comp_idx_of e.2)) = false
        ∧ is_Some (value h (free_entity e.2))) →
  ∀ t, t ∈ (concat (perturb_writes blk_serial h l1 <$> records)).*1 →
       t ∈ (concat (perturb_writes blk_serial h l2 <$> records)).*1.
Proof.
  induction records as [|[i [[[var param] li] ci]] records IH];
    intros Hok t Ht; [done|].
  cbn [fmap list_fmap concat] in *. rewrite fmap_app in *.
  apply elem_of_app in Ht as [Ht|Ht].
  - apply elem_of_app. left.
    destruct (Hok _ (list_elem_of_here _ _)) as [Hr [cur Hcur]].
    unfold list_idx_of, comp_idx_of, free_entity in Hr, Hcur.
    cbn in Hr, Hcur.
    unfold perturb_writes in *. rewrite Hcur in *.
    destruct (resolve_ptb l2 li ci) as [ptb2|]; [|done].
    destruct (resolve_ptb l1 li ci) as [ptb1|]; [|by apply elem_of_nil in Ht].
    cbn in *. rewrite !elem_of_cons in *. rewrite elem_of_nil in *.
    exact Ht.
  - apply elem_of_app. right. apply IH; [|done].
    intros e He. apply Hok. by right.
Qed.

Lemma perturb_fold_present blk_serial h perturbList l sfx name :
  is_Some (fold_left (perturb_suffixes blk_serial h perturbList) l sfx !! name)
  ↔ is_Some (sfx !! name).
Proof.
  revert sfx. induction l as [|e l IH]; intros sfx; [done|].
  cbn [fold_left]. by rewrite IH, perturb_suffixes_present.
Qed.

Lemma perturb_parameters_run self blk perturbList :
  ready self blk →
  length (_paramList blk) = length perturbList →
  (∀ d, d ∈ _sens_data_list blk →
        is_raised (resolve_ptb perturbList (list_idx_of d) (comp_idx_of d))
        = false) →
  perturb_parameters perturbList self
  = (update_instance
       (with_suffixes (fun sfx =>
          fold_left (perturb_suffixes (serial blk) (heap (model_instance self))
                                      perturbList)
                    (enumerate (_sens_data_list blk)) sfx)) self,
     Returned tt).
Proof.
  intros (Hb & Hblk & (l & Hl & Hlen) & Hsv & Hdp & Hval) Hlens Hres.
  unfold perturb_parameters.
  erewrite bind_run by (by apply get_block_run).
  rewrite Hl, Hlens, Nat.eqb_refl. cbn [negb]. unfold enumerate.
  eapply perturb_loop_run; eauto. lia.
Qed.

End Override.

(** X18: perturbing again replaces the earlier perturbation entirely.  On
    an interface on which setup has completed, with two perturbation lists
    of the right length all of whose targets resolve, calling
    [perturb_parameters] with the first and then with the second leaves
    exactly the state that calling it with the second alone leaves. *)
Theorem perturb_parameters_again_overrides
    (self : SensitivityInterface) (blk : Block)
    (first second : list perturbation) :
  ready self blk →
  length (_paramList blk) = length first →
  length (_paramList blk) = length second →
  (∀ d, d ∈ _sens_data_list blk →
        is_raised (resolve_ptb first (list_idx_of d) (comp_idx_of d))
        = false) →
  (∀ d, d ∈ _sens_data_list blk →
        is_raised (resolve_ptb second (list_idx_of d) (comp_idx_of d))
        = false) →
  perturb_parameters second (perturb_parameters first self).1
  = perturb_parameters second self.
Proof.
  intros Hready Hlen1 Hlen2 Hres1 Hres2.
  rewrite (perturb_parameters_run self blk first Hready Hlen1 Hres1).
  cbn [fst].
  pose proof Hready as (Hb & Hblk & Hpc & Hsv & Hdp & Hval).
  rewrite (perturb_parameters_run _ blk second);
    [| |done|done].
  2:{ split; [done|]. split; [done|]. split; [done|].
      cbn [model_instance update_instance suffixes with_suffixes heap].
      split; [by apply perturb_fold_present|].
      split; [by apply perturb_fold_present | done]. }
  rewrite (perturb_parameters_run self blk second Hready Hlen2 Hres2).
  f_equal. destruct self as [o m b]. destruct m as [h objs cons sfx sb bm].
  unfold update_instance, with_suffixes.
  cbn [model_instance heap objectives constraints suffixes sens_block
       blocks_made _original_model block_bound].
  do 2 f_equal.
  rewrite !perturb_suffixes_writes.
  apply writes_absorbed, perturb_writes_targets.
  intros e He. cbn in Hval.
  assert (e.2 ∈ _sens_data_list blk) as Hin.
  { clear -He. unfold enumerate in He. revert He.
    generalize 0%nat. induction (_sens_data_list blk) as [|x l IH];
      intros n He; [by apply elem_of_nil in He|].
    cbn in He. apply elem_of_cons in He as [->|He]; [left|].
    right. by eapply IH. }
  split; [by apply Hres2 | by apply Hval].
Qed.

Lemma perturb_parameters_again_overrides_witness :
  ∃ self',
    setup_sensitivity (H := reference_host) [0%nat; 2%nat]
      (SensitivityInterface_init example_model false) = (self', Returned tt)
    ∧ perturb_parameters [PtbScalar 7; PtbScalar 3]
        (perturb_parameters [PtbScalar 1; PtbScalar 1] self').1
      = perturb_parameters [PtbScalar 7; PtbScalar 3] self'.
Proof.
  destruct (setup_returns (H := reference_host)
              (SensitivityInterface_init example_model false)
              [0%nat; 2%nat] eq_refl example_acceptable) as [self' Hrun].
  destruct (setup_ready (H := reference_host) _ _ _ Hrun)
    as (blk & Hready & Hlen & Hli).
  exists self'. split; [exact Hrun|].
  apply (perturb_parameters_again_overrides self' blk
           [PtbScalar 1; PtbScalar 1] [PtbScalar 7; PtbScalar 3] Hready
           Hlen Hlen).
  - intros d Hd. apply resolve_ptb_scalar; [|by apply Hli].
    repeat constructor; by eexists.
  - intros d Hd. apply resolve_ptb_scalar; [|by apply Hli].
    repeat constructor; by eexists.
Defined.

(** ** The guard, when it lets a call through or a call fails after it *)

Section Guard.
Context `{PyomoHost}.




(** A call on a model without a block, designating components of the
    model, that raises has raised with the new block in place. *)
Lemma setup_raised_fresh paramList self self' e :
  sens_block (model_instance self) = None →
  Forall (fun cid => cid < length (heap (model_instance self)))%nat paramList →
  setup_sensitivity paramList self = (self', Raised e) →
  is_Some (sens_block (model_instance self'))
  ∧ ∃ added, view (heap (model_instance self'))
             = view (heap (model_instance self)) ++ added.
Proof.
  intros Hfresh Hon Hrun. unfold setup_sensitivity in Hrun.
  erewrite bind_run in Hrun by reflexivity.
  rewrite (resolve_step _ _ (find_components_on self paramList)) in Hrun
    by (destruct (resolve_paramList_cases self paramList)
          as [Hr|(_ & _ & Hn)]; [exact Hr | by destruct Hn]).
  erewrite bind_run in Hrun by (by apply teardown_no_block).
  set (resolved := find_components_on self paramList) in *.
  destruct (new_block_run resolved self)
    as (s2 & Hs2 & Hb2 & Ho2 & Hh2 & Hobj2 & Hcon2 & Hsfx2 & Hblk2).
  erewrite bind_run in Hrun by exact Hs2.
  pose proof (plan_loop_frame s2 s2 (enumerate resolved)) as Hfr.
  destruct Hfr as (Hb3 & Hsh3 & [added Hh3] & blk3 & Hblk3 & _).
  { split; [done|]. split; [done|]. split; [by exists []; rewrite app_nil_r|].
    eexists. split; [exact Hblk2|]. constructor. }
  destruct (forM_ plan_entry (enumerate resolved) s2) as [s3 [[]|e3]] eqn:Hplan;
    cbn [fst] in *.
  - erewrite bind_run in Hrun by exact Hplan.
    destruct (install_run resolved s3 blk3 Hb3 Hblk3)
      as (s' & ? & ? & Hinst & _).
    congruence.
  - erewrite bind_Raised in Hrun by exact Hplan.
    injection Hrun as <- _.
    split; [by eexists|].
    exists (view added). rewrite Hh3, Hh2. unfold view. by rewrite fmap_app.
Qed.



End Guard.



(** X20: a call that fails after the guard leaves its block behind.  On a
    model without a sensitivity block, when [setup_sensitivity] is given
    components of the model and raises, the new block is on the model and
    no component that existed before has been removed; in a host whose
    components are all of truth value true, every further call on this
    interface that designates components of the model then raises
    [RuntimeError] and changes nothing, even with a list that would have
    been accepted. *)
Theorem failed_setup_blocks_further_setups `{PyomoHost}
    (self self' : SensitivityInterface) (paramList : list nat) (e : exn) :
  sens_block (model_instance self) = None →
  (∀ mem, component_truth mem = Returned true) →
  Forall (fun cid => cid < length (heap (model_instance self)))%nat paramList →
  setup_sensitivity paramList self = (self', Raised e) →
  is_Some (sens_block (model_instance self'))
  ∧ (length (heap (model_instance self))
     ≤ length (heap (model_instance self')))%nat
  ∧ ∀ paramList',
      Forall (fun cid => cid < length (heap (model_instance self)))%nat
             paramList' →
      setup_sensitivity paramList' self' = (self', Raised RuntimeError).
Proof.
  intros Hfresh Htrue Hon Hrun.
  destruct (setup_raised_fresh paramList self self' e Hfresh Hon Hrun)
    as ([blk' Hblk'] & added & Hview).
  assert (length (heap (model_instance self))
          ≤ length (heap (model_instance self')))%nat as Hlen.
  { apply (f_equal length) in Hview. unfold view in Hview.
    rewrite length_app, !length_fmap in Hview. lia. }
  split; [by eexists|]. split; [exact Hlen|]. intros paramList' Hon'.
  apply (setup_on_block_raises self' blk' paramList' Hblk' Htrue).
  eapply Forall_impl; [exact Hon'|]. intros cid Hcid. cbn in *. lia.
Qed.

Lemma failed_setup_blocks_further_setups_witness :
  let self' := (setup_sensitivity (H := reference_host) [1%nat]
                  (SensitivityInterface_init example_model false)).1 in
  setup_sensitivity (H := reference_host) [2%nat] self'
  = (self', Raised RuntimeError).
Proof.
  intros self'.
  assert (setup_sensitivity (H := reference_host) [1%nat]
            (SensitivityInterface_init example_model false)
          = (self', Raised ValueError)) as Hrun.
  { subst self'.
    destruct (setup_sensitivity (H := reference_host) [1%nat]
                (SensitivityInterface_init example_model false))
      as [s o] eqn:E.
    cbn [fst]. f_equal. change o with (s, o).2. rewrite <- E.
    vm_compute. reflexivity. }
  destruct (failed_setup_blocks_further_setups (H := reference_host)
              (SensitivityInterface_init example_model false) self' [1%nat]
              ValueError eq_refl (fun _ => eq_refl)) as (_ & _ & Hnext).
  - repeat constructor.
  - exact Hrun.
  - apply Hnext. repeat constructor.
Defined.

(** ** A whole run (lines 105-153) *)

Section WholeRun.
Context `{PyomoHost}.










End WholeRun.


